(** * Allocation fairness: the allocation and negotiation engine

    A shallow embedding of the allocation strategies
    ([distribution_mechanisms.py]), of the fairness statistics
    ([evaluation_system.py]) and of the deterministic parts of the
    negotiation protocol ([collaborative_negotiation.py]).

    Conventions of the embedding.
    - A Python [float] is an exact rational ([Q]); results are compared
      with [==].  [int] is [Z].
    - A [Dict[str, float]] is a [gmap string Q], a
      [Dict[int, Dict[str, float]]] is a [gmap Z (gmap string Q)].
    - An argument that may be [None] is an [option]; Python truthiness of
      such an argument is spelled out ([truthy]).
    - Code that can raise returns in the [result] type.
    - [print] and the loggers are left out, and with them the fields of an
      agent that the engine only prints. *)

From Stdlib Require Import ZArith QArith Qround Qabs Lqa Lia Sorted.
From stdpp Require Import gmap strings list fin_maps.

Open Scope Q_scope.

(** ** Data model *)

Inductive ValueType :=
| egalitarian | needs_based | merit_based | altruistic | pragmatic.

#[global] Instance ValueType_eq_dec : EqDecision ValueType.
Proof. solve_decision. Defined.

(** The fields of an agent dictionary read by the engine. *)
Record agent := Agent {
  id : Z;
  value_type : ValueType;
  members : Z;
  labor_force : Z
}.

Abbreviation resources := (gmap string Q).
Abbreviation allocation := (gmap Z (gmap string Q)).

(** [d.get(aid, {}).get(r, 0)] *)
Definition get2 (d : allocation) (aid : Z) (r : string) : Q :=
  default 0 (default ∅ (d !! aid) !! r).

(** The entry itself, when there is one: [d[aid][r]]. *)
Definition entry (d : allocation) (aid : Z) (r : string) : option Q :=
  d !! aid ≫= λ row, row !! r.

(** [{k: f(k) for k in keys}] *)
Definition dict_comp {A} (f : Z → A) (keys : list Z) : gmap Z A :=
  foldl (λ m k, <[k := f k]> m) ∅ keys.

(** [sum(m.values())] over floats and over ints. *)
Definition sum_values {K} `{Countable K} (m : gmap K Q) : Q :=
  map_fold (λ _ v acc, acc + v) 0 m.

Definition sum_values_Z (m : gmap Z Z) : Z :=
  map_fold (λ _ v acc, (acc + v)%Z) 0%Z m.

(** Grand total of an allocation:
    [sum(sum(row.values()) for row in d.values())]. *)
Definition total_allocated (d : allocation) : Q :=
  map_fold (λ _ row acc, acc + sum_values row) 0 d.

Definition Qlt_bool (x y : Q) : bool := negb (Qle_bool y x).

(** Python's [round] on a float: to the nearest integer, ties to even. *)
Definition py_round (x : Q) : Z :=
  let f := Qfloor x in
  let r := x - inject_Z f in
  if Qlt_bool r (1#2) then f
  else if Qlt_bool (1#2) r then (f + 1)%Z
  else if Z.even f then f else (f + 1)%Z.

(** [sorted(l, key=key)] and [sorted(l, key=key, reverse=True)]: both are
    stable, so elements with equal keys keep their order in [l]. *)
Fixpoint insert_sorted {A} (before : A → A → bool) (x : A) (l : list A) : list A :=
  match l with
  | [] => [x]
  | y :: l' => if before x y then x :: y :: l' else y :: insert_sorted before x l'
  end.

Definition sorted_by {A} (before : A → A → bool) (l : list A) : list A :=
  foldr (insert_sorted before) [] l.

Definition sorted_asc {A} (key : A → Q) (l : list A) : list A :=
  sorted_by (λ x y, Qle_bool (key x) (key y)) l.

Definition sorted_desc {A} (key : A → Q) (l : list A) : list A :=
  sorted_by (λ x y, Qle_bool (key y) (key x)) l.

(** ** Exceptions *)

(** [FloatNaN] is not a Python exception: it marks a run in which float
    infinities meet (inf / inf).  The code raises nothing there, it
    returns its dictionary with NaN amounts, values the rational embedding
    does not represent; what is proved of a result [Ok] says nothing of
    such a run. *)
Inductive exn := KeyError | ZeroDivisionError | OtherException | FloatNaN.

Inductive result (A : Type) :=
| Ok (a : A)
| Raise (e : exn).
Arguments Ok {A} a.
Arguments Raise {A} e.

(** Sequencing of code that can raise, with stdpp's [x ← r; k]. *)
#[global] Instance result_bind : MBind result := λ A B k r,
  match r with
  | Ok a => k a
  | Raise e => Raise e
  end.

(** ** Integerization ([integerize_distribution]) *)

(** Truthiness of an optional dictionary argument. *)
Definition truthy {K A} `{Countable K} (o : option (gmap K A)) : bool :=
  match o with
  | None => false
  | Some m => negb (bool_decide (size m = 0%nat))
  end.

Record int_state := IntState {
  base : gmap Z Z;
  frac : gmap Z Q;
  min_need : gmap Z Z
}.

(** [int(math.ceil(need)) if need > 0 else 0] for the grain need of [aid]. *)
Definition need_floor (survival_needs : option allocation) (aid : Z) : Z :=
  let need := get2 (default ∅ survival_needs) aid "grain" in
  if Qlt_bool 0 need then Qceiling need else 0%Z.

(** Body of the first loop over [agent_ids]. *)
Definition split_step (real : gmap Z Q) (survival_needs : option allocation)
    (enforce_min_survival : bool) (st : int_state) (aid : Z) : int_state :=
  let v := default 0 (real !! aid) in
  let b := Qfloor v in
  {| base := <[aid := b]> (base st);
     frac := <[aid := v - inject_Z b]> (frac st);
     min_need :=
       <[aid := if enforce_min_survival && truthy survival_needs
                then need_floor survival_needs aid else 0%Z]> (min_need st) |}.

(** Body of the loop under [# apply min floor].  The keys read are always
    present, so the defaults are never used. *)
Definition floor_step (st : int_state) (aid : Z) : int_state :=
  let b := default 0%Z (base st !! aid) in
  let m := default 0%Z (min_need st !! aid) in
  if (b <? m)%Z
  then {| base := <[aid := m]> (base st);
          frac := <[aid := 0]> (frac st);
          min_need := min_need st |}
  else st.

(** [while need > 0 and i < len(order)]: the recursion is on the part of
    [order] from index [i] on. *)
Fixpoint increment_loop (order : list Z) (need : Z) (base : gmap Z Z) : gmap Z Z :=
  match order with
  | [] => base
  | aid :: rest =>
      if (0 <? need)%Z
      then increment_loop rest (need - 1)%Z (alter (λ b, (b + 1)%Z) aid base)
      else base
  end.

(** [while excess > 0 and i < len(order)] with the floor test inside. *)
Fixpoint decrement_loop (min_need : gmap Z Z) (order : list Z) (excess : Z)
    (base : gmap Z Z) : gmap Z Z :=
  match order with
  | [] => base
  | aid :: rest =>
      if (0 <? excess)%Z
      then
        if (default 0 (min_need !! aid) <? default 0 (base !! aid))%Z
        then decrement_loop min_need rest (excess - 1)%Z
               (alter (λ b, (b - 1)%Z) aid base)
        else decrement_loop min_need rest excess base
      else base
  end.

(** The state after the two preparation loops. *)
Definition prepared (agent_ids : list Z) (real : gmap Z Q)
    (survival_needs : option allocation) (enforce_min_survival : bool) : int_state :=
  let st0 := {| base := ∅; frac := ∅; min_need := ∅ |} in
  let st1 := foldl (split_step real survival_needs enforce_min_survival) st0 agent_ids in
  foldl floor_step st1 agent_ids.

(** The integer grain amounts ([base] at the end of the function).
    [current_sum] is the exact sum here.  The code rounds the float sum of
    the float amounts, which can fall on the other side of a rounding tie:
    six shares of 12.5 / 6 sum to 12.500000000000002, which rounds to 13
    where the exact 12.5 rounds to 12.  Where the total is a whole number
    the two agree. *)
Definition integer_grain (agent_ids : list Z) (distribution_result : allocation)
    (survival_needs : option allocation) (enforce_min_survival : bool) : gmap Z Z :=
  let real := dict_comp (λ aid, get2 distribution_result aid "grain") agent_ids in
  let st := prepared agent_ids real survival_needs enforce_min_survival in
  let frac_of a := default 0 (frac st !! a) in
  let current_sum := sum_values real in
  let target := py_round current_sum in
  let base_sum := sum_values_Z (base st) in
  if (base_sum <? target)%Z then
    increment_loop (sorted_desc frac_of agent_ids) (target - base_sum)%Z (base st)
  else if (target <? base_sum)%Z then
    decrement_loop (min_need st) (sorted_asc frac_of agent_ids)
      (base_sum - target)%Z (base st)
  else base st.

(** Body of the assembling loop: [out[aid]["grain"] = float(base.get(aid, 0))]. *)
Definition assemble_step (base : gmap Z Z) (out : allocation) (aid : Z) : allocation :=
  <[aid := <["grain" := inject_Z (default 0%Z (base !! aid))]> (default ∅ (out !! aid))]> out.

(** [integerize_distribution]: largest remainders with an optional
    survival floor, on the entry ["grain"] only.  [total_resources] is read
    into [grain_total], which is not used. *)
Definition integerize_distribution (total_resources : resources) (agents : list agent)
    (distribution_result : allocation) (survival_needs : option allocation)
    (enforce_min_survival : bool) : allocation :=
  if bool_decide (agents = []) || bool_decide (size distribution_result = 0%nat)
  then distribution_result
  else
    let agent_ids := id <$> agents in
    let base := integer_grain agent_ids distribution_result survival_needs
                  enforce_min_survival in
    let out := dict_comp (λ aid, default ∅ (distribution_result !! aid)) agent_ids in
    foldl (assemble_step base) out agent_ids.

(** ** Allocation strategies ([distribution_mechanisms.py]) *)

(** [len(agents)] as a float divisor. *)
Definition num_families (agents : list agent) : Q :=
  inject_Z (Z.of_nat (length agents)).

(** The dictionary [equal_distribution] builds before it integerizes:
    every agent gets the row [{r: amount / num_families}]. *)
Definition equal_shares (total_resources : resources) (agents : list agent) : allocation :=
  foldl (λ d a, <[id a := (λ amount, amount / num_families agents) <$> total_resources]> d)
        ∅ agents.

Definition equal_distribution (total_resources : resources) (agents : list agent)
    : allocation :=
  if bool_decide (length agents = 0%nat) then ∅
  else integerize_distribution total_resources agents
         (equal_shares total_resources agents) None false.

(** [sum(agent.get("labor_force", 0) for agent in agents)] *)
Definition total_labor_force (agents : list agent) : Z :=
  foldl (λ acc a, (acc + labor_force a)%Z) 0%Z agents.

(** Python's two-argument [max] and [min]: the first argument wins ties. *)
Definition py_max (a b : Q) : Q := if Qlt_bool a b then b else a.
Definition py_min (a b : Q) : Q := if Qlt_bool b a then b else a.

(** [survival_resources_total] of one resource: the sum over every entry of
    [minimum_survival_resources] (listed agent or not). *)
Definition survival_resources_total (minimum_survival_resources : option allocation)
    (resource_name : string) : Q :=
  if truthy minimum_survival_resources
  then map_fold (λ _ needs acc, acc + default 0 (needs !! resource_name)) 0
         (default ∅ minimum_survival_resources)
  else 0.

(** [base_survival_amount] of one agent and resource. *)
Definition base_survival_amount (minimum_survival_resources : option allocation)
    (agent_id : Z) (resource_name : string) : Q :=
  if truthy minimum_survival_resources
  then match default ∅ minimum_survival_resources !! agent_id with
       | Some needs => default 0 (needs !! resource_name)
       | None => 0
       end
  else 0.

(** [labor_force / total_labor_force if total_labor_force > 0 else 0] *)
Definition labor_proportion (total : Z) (a : agent) : Q :=
  if (0 <? total)%Z then inject_Z (labor_force a) / inject_Z total else 0.

(** Body of the loop over [total_resources.items()]. *)
Definition contribution_resource_step (agents : list agent)
    (minimum_survival_resources : option allocation)
    (resource_name : string) (total_amount : Q) (distribution_result : allocation)
    : allocation :=
  let distributable_resources :=
    py_max 0 (total_amount - survival_resources_total minimum_survival_resources resource_name) in
  foldl (λ d a,
           let contribution_amount :=
             labor_proportion (total_labor_force agents) a * distributable_resources in
           <[id a := <[resource_name :=
                         base_survival_amount minimum_survival_resources (id a) resource_name
                         + contribution_amount]> (default ∅ (d !! id a))]> d)
        distribution_result agents.

(** The dictionary [contribution_based_distribution] builds before it
    integerizes (the branch with a non-zero total labor force).  Every
    cell is written once per resource, so the order in which the
    resources are visited does not matter. *)
Definition contribution_shares (total_resources : resources) (agents : list agent)
    (minimum_survival_resources : option allocation) : allocation :=
  map_fold (contribution_resource_step agents minimum_survival_resources) ∅ total_resources.

Definition contribution_based_distribution (total_resources : resources)
    (agents : list agent) (minimum_survival_resources : option allocation) : allocation :=
  if bool_decide (agents = []) then ∅
  else if (total_labor_force agents =? 0)%Z then equal_distribution total_resources agents
  else integerize_distribution total_resources agents
         (contribution_shares total_resources agents minimum_survival_resources)
         minimum_survival_resources false.

(** *** Altruistic *)

(** [members / labor_force if labor_force > 0 else float('inf')];
    [None] is the infinity. *)
Definition dependency_ratio (a : agent) : option Q :=
  if (0 <? labor_force a)%Z
  then Some (inject_Z (members a) / inject_Z (labor_force a))
  else None.

Definition dependency_ratios (agents : list agent) : gmap Z (option Q) :=
  foldl (λ m a, <[id a := dependency_ratio a]> m) ∅ agents.

(** [x <= y] on floats with an infinity. *)
Definition ext_le (x y : option Q) : bool :=
  match x, y with
  | _, None => true
  | None, Some _ => false
  | Some p, Some q => Qle_bool p q
  end.

(** [sum(dependency_ratios.values())]: infinite as soon as one ratio is. *)
Definition sum_ratios (ratios : gmap Z (option Q)) : option Q :=
  map_fold (λ _ r acc, q ← acc; p ← r; Some (q + p)) (Some 0) ratios.

(** First loop: survival needs, capped by what remains. *)
Definition altruistic_survival_step (survival_needs : allocation)
    (st : allocation * resources) (a : agent) : allocation * resources :=
  let '(distribution_result, remaining_resources) := st in
  let allocated r rem := py_min (get2 survival_needs (id a) r) rem in
  (<[id a := map_imap (λ r rem, Some (allocated r rem)) remaining_resources]>
     distribution_result,
   map_imap (λ r rem, Some (rem - allocated r rem)) remaining_resources).

(** Second loop: each agent takes its share of what is left at that
    moment.  Resources with nothing left are skipped; for the others the
    quotient [dependency_ratio / sum(...)] is evaluated:
    - inf / inf is NaN, which then spreads to every later amount: the
      code goes on and returns NaN amounts, the embedding stops with
      [FloatNaN];
    - finite / inf is 0, the agent gets nothing more;
    - finite / 0 raises;
    - a finite sum with an infinite ratio cannot occur. *)
Definition altruistic_share_step (ratios : gmap Z (option Q))
    (st : result (allocation * resources)) (a : agent)
    : result (allocation * resources) :=
  st ≫= λ st : allocation * resources,
  let distribution_result : allocation := st.1 in
  let remaining_resources : resources := st.2 in
  if bool_decide (map_Forall (λ (_ : string) (rem : Q), Qle_bool rem 0 = true)
                             remaining_resources)
  then Ok (distribution_result, remaining_resources)
  else
    match sum_ratios ratios, default None (ratios !! id a) with
    | None, None => Raise FloatNaN
    | None, Some _ => Ok (distribution_result, remaining_resources)
    | Some total, None => Raise FloatNaN
    | Some total, Some dependency_ratio =>
        if Qeq_bool total 0 then Raise ZeroDivisionError
        else
          let additional_share (rem : Q) : Q :=
            if Qle_bool rem 0 then 0
            else py_min (rem * (dependency_ratio / total)) rem in
          let row : resources := default ∅ (distribution_result !! id a) in
          Ok (<[id a := map_imap (λ (r : string) (v : Q),
                          Some (v + additional_share
                                      (default 0 (remaining_resources !! r)))) row]>
                distribution_result,
              map_imap (λ (_ : string) (rem : Q), Some (rem - additional_share rem))
                       remaining_resources)
    end.

Definition altruistic_distribution (total_resources : resources) (agents : list agent)
    (survival_needs : allocation) : result allocation :=
  let ratios := dependency_ratios agents in
  let sorted_agents :=
    sorted_by (λ x y, ext_le (default None (ratios !! id y)) (default None (ratios !! id x)))
              agents in
  let st := foldl (altruistic_survival_step survival_needs) (∅, total_resources)
                  sorted_agents in
  foldl (altruistic_share_step ratios) (Ok st) sorted_agents
    ≫= λ st : allocation * resources, Ok st.1.

(** *** NeedsBased *)

Definition total_members (agents : list agent) : Z :=
  foldl (λ acc a, (acc + members a)%Z) 0%Z agents.

(** [d[aid][r] = v] and [d[aid][r] += x].  The second is only used on
    cells that exist. *)
Definition set_cell (d : allocation) (aid : Z) (r : string) (v : Q) : allocation :=
  <[aid := <[r := v]> (default ∅ (d !! aid))]> d.

Definition add_cell (d : allocation) (aid : Z) (r : string) (x : Q) : allocation :=
  alter (alter (λ v, v + x) r) aid d.

(** [labor_force / members if members > 0 else 0] *)
Definition labor_density (a : agent) : Q :=
  if (0 <? members a)%Z then inject_Z (labor_force a) / inject_Z (members a) else 0.

(** [(0.5 - labor_density) * 2] when the density is below one half. *)
Definition special_need_weight (a : agent) : Q :=
  if Qlt_bool (labor_density a) (1#2) then ((1#2) - labor_density a) * 2 else 0.

(** The sum in [total_special_need_weight]; it divides by [members]
    without a guard. *)
Definition total_special_need_weight (agents : list agent) : Q :=
  foldl (λ acc a,
           let q := inject_Z (labor_force a) / inject_Z (members a) in
           acc + (if Qlt_bool q (1#2) then ((1#2) - q) * 2 else 0))
        0 agents.

(** [total_share] of the additional 30%. *)
Definition total_share (agents : list agent) (a : agent) : Q :=
  let population_share :=
    if (0 <? total_members agents)%Z
    then inject_Z (members a) / inject_Z (total_members agents) * (50#100) else 0 in
  let labor_share :=
    if (0 <? total_labor_force agents)%Z
    then inject_Z (labor_force a) / inject_Z (total_labor_force agents) * (30#100) else 0 in
  let special_share :=
    if Qlt_bool 0 (total_special_need_weight agents)
    then special_need_weight a / total_special_need_weight agents * (20#100) else 0 in
  population_share + labor_share + special_share.

(** First and second stage for one resource (total members positive). *)
Definition needs_based_resource_step (agents : list agent)
    (resource_name : string) (total_amount : Q) (distribution_result : allocation)
    : allocation :=
  let basic_resource_pool := total_amount * (70#100) in
  let d1 :=
    foldl (λ d a,
             let population_ratio := inject_Z (members a) / inject_Z (total_members agents) in
             set_cell d (id a) resource_name (basic_resource_pool * population_ratio))
          distribution_result agents in
  let remaining_resource_pool := total_amount * (30#100) in
  foldl (λ d a, add_cell d (id a) resource_name
                  (remaining_resource_pool * total_share agents a))
        d1 agents.

(** [current_allocation / members if members > 0 else 0] *)
Definition per_capita (d : allocation) (resource_name : string) (a : agent) : Q :=
  if (0 <? members a)%Z then get2 d (id a) resource_name / inject_Z (members a) else 0.

(** Third stage for one resource: the per-capita floor of 3.5. *)
Definition needs_based_floor_step (agents : list agent) (total_resources : resources)
    (resource_name : string) (st : result allocation) : result allocation :=
  st ≫= λ distribution_result : allocation,
  let min_per_capita := 35#10 in
  let adjustments : list (Z * Q) :=
    omap (λ a, let pc := per_capita distribution_result resource_name a in
               if Qlt_bool pc min_per_capita
               then Some (id a, (min_per_capita - pc) * inject_Z (members a))
               else None) agents in
  if bool_decide (adjustments = []) then Ok distribution_result
  else
    let total_shortage := foldl (λ acc adj, acc + adj.2) 0 adjustments in
    let avg_per_capita :=
      default 0 (total_resources !! resource_name) / inject_Z (total_members agents) in
    let donors : list (Z * Q) :=
      omap (λ a, let pc := per_capita distribution_result resource_name a in
                 if Qlt_bool avg_per_capita pc
                 then Some (id a, (pc - avg_per_capita) * inject_Z (members a) * (3#10))
                 else None) agents in
    let total_surplus := foldl (λ acc donor, acc + donor.2) 0 donors in
    if Qlt_bool 0 total_surplus then
      if Qeq_bool total_shortage 0 then Raise ZeroDivisionError
      else
        let moved := py_min total_surplus total_shortage in
        let d1 := foldl (λ d adj, add_cell d adj.1 resource_name
                                    (adj.2 / total_shortage * moved))
                        distribution_result adjustments in
        Ok (foldl (λ d donor, add_cell d donor.1 resource_name
                                (- (donor.2 / total_surplus * moved)))
                  d1 donors)
    else Ok distribution_result.

(** The dictionary [needs_based_distribution] builds before it integerizes.
    With a resource to distribute, a household without members makes the
    unguarded division raise, and a non-positive member total leaves the
    rows uncreated, so that [+=] raises. *)
Definition needs_based_shares (total_resources : resources) (agents : list agent)
    : result allocation :=
  if bool_decide (size total_resources = 0%nat) then Ok ∅
  else if existsb (λ a, (members a =? 0)%Z) agents then Raise ZeroDivisionError
  else if (total_members agents <=? 0)%Z then Raise KeyError
  else
    let d := map_fold (needs_based_resource_step agents) ∅ total_resources in
    map_fold (λ resource_name _, needs_based_floor_step agents total_resources resource_name)
             (Ok d) total_resources.

Definition needs_based_distribution (total_resources : resources) (agents : list agent)
    (survival_needs : allocation) : result allocation :=
  if bool_decide (agents = []) || bool_decide (size survival_needs = 0%nat) then Ok ∅
  else
    needs_based_shares total_resources agents ≫= λ distribution_result : allocation,
    Ok (integerize_distribution total_resources agents distribution_result
          (Some survival_needs) true).

(** *** Pragmatic *)

Definition pragmatic_distribution (total_resources : resources) (agents : list agent)
    (survival_needs : allocation) : result allocation :=
  let survival_weight := 4#10 in
  let equality_weight := 3#10 in
  let merit_weight := 3#10 in
  needs_based_distribution total_resources agents survival_needs
    ≫= λ survival_allocation : allocation,
  let equality_allocation := equal_distribution total_resources agents in
  let merit_allocation :=
    contribution_based_distribution total_resources agents (Some survival_needs) in
  Ok (foldl (λ d a,
               <[id a := map_imap (λ (resource_name : string) (_ : Q),
                           Some (get2 survival_allocation (id a) resource_name * survival_weight
                                 + get2 equality_allocation (id a) resource_name * equality_weight
                                 + get2 merit_allocation (id a) resource_name * merit_weight))
                           total_resources]> d)
            ∅ agents).

(** ** Fairness statistics ([evaluation_system.py]) *)

(** Python's [sum] over a list: a left fold from 0. *)
Definition Qsum (l : list Q) : Q := foldl Qplus 0 l.

(** [sum((i+1) * sorted_dist[i] for i in range(n))] *)
Definition rank_weighted_sum (sorted_dist : list Q) : Q :=
  Qsum (imap (λ i x, inject_Z (Z.of_nat i + 1) * x) sorted_dist).

(** [calculate_gini_coefficient].  The amounts it is given are those of
    an allocation and are not negative; on such a list the float sums the
    code tests against 0 vanish exactly when the exact sums do.  On a list
    of mixed signs float sums can cancel where exact sums do not, and the
    embedding is not meant for such lists. *)
Definition calculate_gini_coefficient (distribution : list Q) : Q :=
  if bool_decide (distribution = []) || Qeq_bool (Qsum distribution) 0 then 0
  else
    let sorted_dist := sorted_asc (λ x, x) distribution in
    let n := inject_Z (Z.of_nat (length sorted_dist)) in
    let numerator := rank_weighted_sum sorted_dist in
    let denominator := Qsum sorted_dist * n in
    if Qeq_bool denominator 0 then 0
    else 2 * numerator / denominator - (n + 1) / n.

(** ** The negotiation protocol ([collaborative_negotiation.py]) *)

(** *** Principles stage: the persuasion round *)

(** [word in s] for strings. *)
Fixpoint contains (word s : string) : bool :=
  String.prefix word s ||
  match s with
  | EmptyString => false
  | String _ s' => contains word s'
  end.

(** [_normalize_principle_name].  The keywords hold no cased letter, so
    the [lower()] of the source does not change which of them occur. *)
Definition _normalize_principle_name (principle : string) : string :=
  if existsb (λ w, contains w principle) ["按需"; "需求"; "基本需要"] then "按需分配"
  else if existsb (λ w, contains w principle) ["按劳"; "贡献"; "劳动"] then "按劳分配"
  else if existsb (λ w, contains w principle) ["平等"; "均等"; "相同"] then "平等分配"
  else if existsb (λ w, contains w principle) ["弱势"; "困难"; "照顾"] then "照顾弱势"
  else if existsb (λ w, contains w principle) ["效率"; "有效"] then "效率优先"
  else if existsb (λ w, contains w principle) ["可持续"; "长期"; "发展"] then "可持续发展"
  else principle.

(** [agent_value in [...]] *)
Definition value_in (v : ValueType) (l : list ValueType) : bool :=
  existsb (λ w, bool_decide (v = w)) l.

(** Body of the loop of [_evaluate_persuasion_effect]: is this agent
    convinced of the principle? *)
Definition convinced (principle_name : string) (agent_value : ValueType) : bool :=
  if String.eqb principle_name "按需分配" && value_in agent_value [needs_based; altruistic]
  then true
  else if String.eqb principle_name "按劳分配" && value_in agent_value [merit_based; pragmatic]
  then true
  else if String.eqb principle_name "平等分配" && value_in agent_value [egalitarian; altruistic]
  then true
  else if String.eqb principle_name "照顾弱势" && value_in agent_value [altruistic; needs_based]
  then true
  else if String.eqb principle_name "效率优先" && value_in agent_value [merit_based; pragmatic]
  then true
  else if String.eqb principle_name "可持续发展" && bool_decide (agent_value = pragmatic)
  then true
  else false.

Definition _evaluate_persuasion_effect (persuasion : string) (others : list agent)
    (principle_name : string) : Z :=
  foldl (λ convinced_count a,
           if convinced principle_name (value_type a)
           then (convinced_count + 1)%Z else convinced_count)
        0%Z others.

(** What [_moderate_principle_discussion] returns: its three messages (and
    a fourth that is never reached), with the numbers they quote. *)
Inductive discussion_result :=
| insufficient_support                       (* 支持度不足，不采纳 *)
| adopted (total_support n : Z)              (* 经讨论后获得 .. 家庭支持，采纳 *)
| not_adopted (total_support n : Z)          (* 讨论后仍只有 .. 家庭支持，不采纳 *)
| no_result.                                 (* 讨论无结果 *)

(** The split of the agents into [supporters] and [others];
    [principle_preferences] gives the ["principles"] list of each agent id,
    and an agent without an entry raises [KeyError]. *)
Fixpoint split_supporters (principle_name : string)
    (principle_preferences : gmap Z (list string)) (agents : list agent)
    : result (list agent * list agent) :=
  match agents with
  | [] => Ok ([], [])
  | a :: rest =>
      match principle_preferences !! id a with
      | None => Raise KeyError
      | Some principles =>
          let agent_principles := _normalize_principle_name <$> principles in
          split_supporters principle_name principle_preferences rest
            ≫= λ so : list agent * list agent,
          if bool_decide (principle_name ∈ agent_principles)
          then Ok (a :: so.1, so.2)
          else Ok (so.1, a :: so.2)
      end
  end.

(** [persuasion] is the text the oracle produced for the advocate
    [supporters[0]]. *)
Definition _moderate_principle_discussion (agents : list agent)
    (persuasion : agent → string) (principle_name : string)
    (principle_preferences : gmap Z (list string)) : result discussion_result :=
  split_supporters principle_name principle_preferences agents
    ≫= λ so : list agent * list agent,
  let supporters := so.1 in
  let others := so.2 in
  if (Z.of_nat (length supporters) <=? 1)%Z then Ok insufficient_support
  else
    match supporters with
    | advocate :: _ =>
        let convinced_count :=
          _evaluate_persuasion_effect (persuasion advocate) others principle_name in
        let total_support := (Z.of_nat (length supporters) + convinced_count)%Z in
        if (Z.of_nat (length agents) `div` 2 + 1 <=? total_support)%Z
        then Ok (adopted total_support (Z.of_nat (length agents)))
        else Ok (not_adopted total_support (Z.of_nat (length agents)))
    | [] => Ok no_result
    end.

Definition is_adopted (r : discussion_result) : bool :=
  match r with
  | adopted _ _ => true
  | _ => false
  end.

(** *** Details stage: re-normalization *)

Definition scale_allocation (factor : Q) (d : allocation) : allocation :=
  (λ row : resources, (λ v, v * factor) <$> row) <$> d.

Definition _validate_and_optimize (total_grain : Q) (d : allocation) : result allocation :=
  let total := total_allocated d in
  if Qlt_bool (1#100) (Qabs (total - total_grain)) then
    if Qeq_bool total 0 then Raise ZeroDivisionError
    else Ok (scale_allocation (total_grain / total) d)
  else Ok d.

(** *** The session and its fallback *)

Record negotiation_data := NegotiationData {
  success : bool;
  method : string;
  stages_completed : list string;
  final_stage : string
}.

Section Session.
Variable agents : list agent.
Variable total_resources : resources.

(** [self.total_grain] *)
Definition total_grain : Q := default 0 (total_resources !! "grain").

Definition _create_fallback_proposal : result allocation :=
  if bool_decide (length agents = 0%nat) then Raise ZeroDivisionError
  else
    let per_family := total_grain / num_families agents in
    Ok (foldl (λ d a, <[id a := {["grain" := per_family]}]> d) ∅ agents).

(** The four stages consult the oracle; here they are given by what
    they return or raise. *)
Context {principles framework : Type}.
Variable _establish_principles : result principles.
Variable _negotiate_framework : principles → result framework.
Variable _build_detailed_proposal : framework → result allocation.
Variable _finalize_proposal : allocation → result allocation.

(** The [except] branch, entered in stage [current_stage] with
    [stage_results] holding the stages in [completed]. *)
Definition error_fallback (completed : list string) (current_stage : string)
    : result (allocation * negotiation_data) :=
  _create_fallback_proposal ≫= λ fallback_proposal : allocation,
  Ok (fallback_proposal,
      {| success := false; method := "error_fallback";
         stages_completed := completed; final_stage := current_stage |}).

Definition run_collaborative_negotiation : result (allocation * negotiation_data) :=
  match _establish_principles with
  | Raise _ => error_fallback [] "principles"
  | Ok principles =>
  match _negotiate_framework principles with
  | Raise _ => error_fallback ["principles"] "framework"
  | Ok framework =>
  match _build_detailed_proposal framework with
  | Raise _ => error_fallback ["principles"; "framework"] "details"
  | Ok detailed_proposal =>
  match _finalize_proposal detailed_proposal with
  | Raise _ =>
      error_fallback ["principles"; "framework"; "detailed_proposal"] "finalization"
  | Ok final_proposal =>
      Ok (final_proposal,
          {| success := true; method := "collaborative_consensus";
             stages_completed := ["principles"; "framework"; "detailed_proposal"];
             final_stage := "finalization" |})
  end end end end.

(** The entry point: its own [except] repeats the equal split. *)
Definition collaborative_negotiation_distribution : allocation :=
  match run_collaborative_negotiation with
  | Ok (final_allocation, _) => final_allocation
  | Raise _ =>
      if bool_decide (length agents = 0%nat) then ∅
      else
        let per_family_amount := default 0 (total_resources !! "grain")
                                 / num_families agents in
        foldl (λ d a, <[id a := {["grain" := per_family_amount]}]> d) ∅ agents
  end.
End Session.

(** ** Notions used in the statements *)

(** Every agent with a floor has a base at or above it. *)
Definition floored (min_need base : gmap Z Z) : Prop :=
  ∀ k m, min_need !! k = Some m → ∃ b, base !! k = Some b ∧ (m ≤ b)%Z.

(** Sum of a list, independent of the order of the additions. *)
Definition list_total (x : list Q) : Q := foldr Qplus 0 x.

(** Total of a resource pool. *)
Definition pool_total (total_resources : resources) : Q := sum_values total_resources.

(** The grain amounts of the listed agents, in order. *)
Definition grain_column (agents : list agent) (d : allocation) : list (option Q) :=
  (λ a, entry d (id a) "grain") <$> agents.

(** [rank·x_0 + (rank+1)·x_1 + ...]: with [rank = 1] this is the sum of
    [(i+1)·x_i] for [i] from 0. *)
Fixpoint ranked_total (rank : Z) (x : list Q) : Q :=
  match x with
  | [] => 0
  | x0 :: x' => inject_Z rank * x0 + ranked_total (rank + 1) x'
  end.

(** The Gini formula as the specification writes it:
    [2·Σ((i+1)·x_i) / (n·Σx) − (n+1)/n] with [x] the values in ascending
    order. *)
Definition gini_formula (values : list Q) : Q :=
  let x := sorted_asc (λ v, v) values in
  let n := inject_Z (Z.of_nat (length values)) in
  2 * ranked_total 1 x / (n * list_total x) - (n + 1) / n.

(** The value-alignment table of the persuasion round: which value types
    a principle convinces.  The specification calls the six principles
    needs_first, merit_based, equal, protect_vulnerable, efficiency and
    sustainability. *)
Definition value_alignment_table : list (string * list ValueType) :=
  [ ("按需分配",   [needs_based; altruistic]);    (* needs_first *)
    ("按劳分配",   [merit_based; pragmatic]);     (* merit_based *)
    ("平等分配",   [egalitarian; altruistic]);    (* equal *)
    ("照顾弱势",   [altruistic; needs_based]);    (* protect_vulnerable *)
    ("效率优先",   [merit_based; pragmatic]);     (* efficiency *)
    ("可持续发展", [pragmatic]) ].                (* sustainability *)

Definition aligned (principle_name : string) (v : ValueType) : bool :=
  existsb (λ row : string * list ValueType,
             String.eqb principle_name row.1 && value_in v row.2)
          value_alignment_table.

(** An agent supports a principle when its normalized preferences name it. *)
Definition supports (principle_preferences : gmap Z (list string))
    (principle_name : string) (a : agent) : bool :=
  match principle_preferences !! id a with
  | Some principles =>
      bool_decide (principle_name ∈ _normalize_principle_name <$> principles)
  | None => false
  end.

Definition supporters_of (principle_preferences : gmap Z (list string))
    (principle_name : string) (agents : list agent) : list agent :=
  List.filter (supports principle_preferences principle_name) agents.

Definition others_of (principle_preferences : gmap Z (list string))
    (principle_name : string) (agents : list agent) : list agent :=
  List.filter (λ a, negb (supports principle_preferences principle_name a)) agents.

(** The number of non-supporters the table says are convinced. *)
Definition convinced_by_table (principle_name : string) (others : list agent) : Z :=
  Z.of_nat (length (List.filter (λ a, aligned principle_name (value_type a)) others)).

(** A session in which some stage raises. *)
Definition some_stage_raises {principles framework : Type}
    (establish : result principles) (negotiate : principles → result framework)
    (build : framework → result allocation) (finalize : allocation → result allocation)
    : Prop :=
  (∃ e, establish = Raise e)
  ∨ (∃ p e, establish = Ok p ∧ negotiate p = Raise e)
  ∨ (∃ p f e, establish = Ok p ∧ negotiate p = Ok f ∧ build f = Raise e)
  ∨ (∃ p f d e, establish = Ok p ∧ negotiate p = Ok f ∧ build f = Ok d
                ∧ finalize d = Raise e).

(** ** Concrete inputs used in the examples *)

Definition household (i : Z) (v : ValueType) (m l : Z) : agent :=
  {| id := i; value_type := v; members := m; labor_force := l |}.

(** A grain-only allocation from a list of [(id, amount)]. *)
Definition grain_allocation (l : list (Z * Q)) : allocation :=
  list_to_map ((λ p : Z * Q, (p.1, {["grain" := p.2]})) <$> l).

(** Three households; the third has no labor force. *)
Definition three_agents : list agent :=
  [household 1 egalitarian 3 2; household 2 needs_based 4 1; household 3 altruistic 2 0].

(** Their survival needs: two units per worker, one per dependant. *)
Definition three_needs : allocation :=
  <[1%Z := {["grain" := 5]}]> (<[2%Z := {["grain" := 5]}]> (<[3%Z := {["grain" := 2]}]> ∅)).

(** Two households in which every member works. *)
Definition two_agents : list agent :=
  [household 1 merit_based 1 1; household 2 pragmatic 3 3].

(** Needs of ten units each for these two households. *)
Definition two_needs : allocation := grain_allocation [(1%Z, 10); (2%Z, 10)].

(** An allocation and a need map on which the floor creates an excess. *)
Definition floor_case_allocation : allocation := grain_allocation [(1%Z, 10); (2%Z, 0)].
Definition floor_case_needs : allocation := grain_allocation [(2%Z, 5)].

(** A pool with two resources. *)
Definition two_resource_pool : resources := <["grain" := 90]> {["tools" := 30]}.

(** Three agents, one of whom names the principle of distribution by need. *)
Definition lone_supporter_agents : list agent :=
  [household 1 egalitarian 3 2; household 2 needs_based 4 1; household 3 altruistic 2 1].

Definition lone_supporter_preferences : gmap Z (list string) :=
  <[1%Z := ["按需分配"]]> (<[2%Z := ["公平合理"]]> (<[3%Z := ["公平合理"]]> ∅)).

(** Five agents, two of whom name the principle of distribution by need. *)
Definition persuasion_agents : list agent :=
  [household 1 egalitarian 3 2; household 2 needs_based 4 1; household 3 altruistic 2 1;
   household 4 egalitarian 2 2; household 5 merit_based 5 4].

Definition persuasion_preferences : gmap Z (list string) :=
  <[1%Z := ["按需分配"]]> (<[2%Z := ["公平合理"]]> (<[3%Z := []]>
    (<[4%Z := ["满足基本需求"]]> (<[5%Z := ["按劳分配"]]> ∅)))).

(** * The rest of the engine

    The functions around the ones above: the other stages of the
    negotiation protocol, the allocation driven by declared needs, the
    scoring of proposals, and the production that feeds the next round. *)

(** ** Dictionaries whose iteration order matters *)

(** Python iterates a [dict] in the order in which its keys were first
    inserted.  Where the code iterates over a dictionary it builds, the
    dictionary is the list of its items in that order. *)
Definition odict (K V : Type) : Type := list (K * V).

(** [d.get(k)] *)
Fixpoint od_get {K V} `{EqDecision K} (d : odict K V) (k : K) : option V :=
  match d with
  | [] => None
  | (k', v) :: d' => if decide (k' = k) then Some v else od_get d' k
  end.

(** [d[k] = v]: a known key keeps its place, a new one goes last. *)
Fixpoint od_set {K V} `{EqDecision K} (d : odict K V) (k : K) (v : V) : odict K V :=
  match d with
  | [] => [(k, v)]
  | (k', v') :: d' => if decide (k' = k) then (k, v) :: d' else (k', v') :: od_set d' k v
  end.

(** [d[k] = d.get(k, 0) + 1] *)
Definition od_count {K} `{EqDecision K} (d : odict K Z) (k : K) : odict K Z :=
  od_set d k (default 0 (od_get d k) + 1)%Z.

(** [k in d] *)
Definition od_mem {K V} `{EqDecision K} (d : odict K V) (k : K) : bool :=
  bool_decide (is_Some (od_get d k)).

(** ** Principles stage ([_establish_principles]) *)

(** [len(self.agents) // 2 + 1] *)
Definition majority (agents : list agent) : Z :=
  (Z.of_nat (length agents) `div` 2 + 1)%Z.

(** The counting loop of [_find_common_principles]: one count per entry
    of a ["principles"] list, under its normalized name. *)
Definition principle_counts (principle_preferences : odict Z (list string))
    : odict string Z :=
  foldl (λ counts pref,
           foldl (λ counts principle, od_count counts (_normalize_principle_name principle))
                 counts pref.2)
        [] principle_preferences.

(** [_find_common_principles]; the message 获得 count/n 家庭支持 is the
    pair of its two numbers. *)
Definition _find_common_principles (agents : list agent)
    (principle_preferences : odict Z (list string)) : odict string (Z * Z) :=
  omap (λ pc : string * Z,
          if (majority agents <=? pc.2)%Z
          then Some (pc.1, (pc.2, Z.of_nat (length agents))) else None)
       (principle_counts principle_preferences).

(** [all_mentioned] in [_discuss_disputed_principles]: the mentions of the
    principles that are not common. *)
Definition all_mentioned (principle_preferences : odict Z (list string))
    (common_principles : odict string (Z * Z)) : odict string Z :=
  foldl (λ counts pref,
           foldl (λ counts principle,
                    let normalized := _normalize_principle_name principle in
                    if od_mem common_principles normalized then counts
                    else od_count counts normalized)
                 counts pref.2)
        [] principle_preferences.

(** [sorted(all_mentioned.items(), key=lambda x: x[1], reverse=True)[:2]] *)
Definition disputed (principle_preferences : odict Z (list string))
    (common_principles : odict string (Z * Z)) : list (string * Z) :=
  take 2 (sorted_desc (λ x : string * Z, inject_Z x.2)
            (all_mentioned principle_preferences common_principles)).

(** [_discuss_disputed_principles].  [persuasion principle advocate] is
    the text the oracle writes for the advocate of a principle. *)
Definition _discuss_disputed_principles (agents : list agent)
    (persuasion : string → agent → string)
    (principle_preferences : odict Z (list string))
    (common_principles : odict string (Z * Z)) : result (odict string discussion_result) :=
  foldl (λ acc (d : string * Z),
           acc ≫= λ discussed_results : odict string discussion_result,
           _moderate_principle_discussion agents (persuasion d.1) d.1
             (list_to_map principle_preferences)
             ≫= λ discussion_result : discussion_result,
           Ok (od_set discussed_results d.1 discussion_result))
        (Ok []) (disputed principle_preferences common_principles).

(** What the final principles carry: the support message of a common
    principle, or the message the discussion ended with. *)
Inductive principle_note :=
| supported_by (count n : Z)
| discussed (r : discussion_result).

(** [{**common_principles, **discussed_principles}] *)
Definition merge_principles (common_principles : odict string (Z * Z))
    (discussed_principles : odict string discussion_result) : odict string principle_note :=
  foldl (λ final (kv : string * discussion_result), od_set final kv.1 (discussed kv.2))
        ((λ kv : string * (Z * Z), (kv.1, supported_by kv.2.1 kv.2.2)) <$> common_principles)
        discussed_principles.

(** The dictionary [principle_preferences] that [_establish_principles]
    collects.  [_get_principle_preference] is the oracle's answer for an
    agent, reduced to its ["principles"] list. *)
Definition collected_preferences (agents : list agent)
    (_get_principle_preference : agent → list string) : odict Z (list string) :=
  foldl (λ prefs a, od_set prefs (id a) (_get_principle_preference a)) [] agents.

Definition _establish_principles (agents : list agent)
    (_get_principle_preference : agent → list string)
    (persuasion : string → agent → string) : result (odict string principle_note) :=
  let principle_preferences := collected_preferences agents _get_principle_preference in
  let common_principles := _find_common_principles agents principle_preferences in
  _discuss_disputed_principles agents persuasion principle_preferences common_principles
    ≫= λ discussed_principles : odict string discussion_result,
  Ok (merge_principles common_principles discussed_principles).

(** ** Framework stage ([_negotiate_framework]) *)

(** The four strategies, named by their ["base_method"]; the name and the
    description of a strategy are only printed. *)
Inductive base_method :=
| needs_first | contribution_based | equality_based | balanced_hybrid.

Definition _determine_allocation_strategy {V} (principles : odict string V) : base_method :=
  if od_mem principles "按需分配" && od_mem principles "照顾弱势" then needs_first
  else if od_mem principles "按劳分配" && od_mem principles "效率优先" then contribution_based
  else if od_mem principles "平等分配" then equality_based
  else balanced_hybrid.

Definition _get_base_ratios (strategy : base_method) : resources :=
  match strategy with
  | needs_first =>
      list_to_map [("survival_guarantee", 6#10); ("additional_support", 25#100);
                   ("community_reserve", 15#100)]
  | contribution_based =>
      list_to_map [("survival_guarantee", 4#10); ("contribution_reward", 5#10);
                   ("community_reserve", 1#10)]
  | equality_based =>
      list_to_map [("survival_guarantee", 5#10); ("equal_distribution", 4#10);
                   ("community_reserve", 1#10)]
  | balanced_hybrid =>
      list_to_map [("survival_guarantee", 45#100); ("merit_portion", 25#100);
                   ("equal_portion", 2#10); ("community_reserve", 1#10)]
  end.

Record ratio_suggestion := RatioSuggestion {
  has_adjustment : bool;
  suggestion : string;
  agent_id : Z
}.

Definition _get_ratio_adjustment_suggestion (a : agent) (base_ratios : resources)
    : ratio_suggestion :=
  let get key := default 0 (base_ratios !! key) in
  if bool_decide (value_type a = altruistic) && Qlt_bool (get "survival_guarantee") (5#10)
  then RatioSuggestion true "建议提高生存保障比例到50%以上" (id a)
  else if bool_decide (value_type a = merit_based)
          && Qlt_bool (get "contribution_reward") (4#10)
  then RatioSuggestion true "建议提高按贡献分配的比例" (id a)
  else if bool_decide (value_type a = egalitarian)
          && Qlt_bool (get "equal_distribution") (3#10)
  then RatioSuggestion true "建议增加平等分配的比例" (id a)
  else RatioSuggestion false "" (id a).

(** [_rebalance_ratios]: every ratio is divided by the total, unless the
    total is 1. *)
Definition _rebalance_ratios (ratios : resources) : result resources :=
  let total := sum_values ratios in
  if Qeq_bool total 1 then Ok ratios
  else if bool_decide (size ratios = 0%nat) then Ok ratios
  else if Qeq_bool total 0 then Raise ZeroDivisionError
  else Ok ((λ v, v / total) <$> ratios).

(** Body of the loop over [adjustment_counts.items()]. *)
Definition apply_adjustment (threshold : Z) (acc : result resources)
    (item : string * Z) : result resources :=
  acc ≫= λ adjusted_ratios : resources,
  if (threshold <=? item.2)%Z
     && contains "生存保障" item.1 && contains "50%" item.1
  then match adjusted_ratios !! "survival_guarantee" with
       | Some old_value =>
           _rebalance_ratios (<["survival_guarantee" := py_max (5#10) old_value]> adjusted_ratios)
       | None => Ok adjusted_ratios
       end
  else Ok adjusted_ratios.

Definition _apply_consensus_adjustments (agents : list agent) (base_ratios : resources)
    (suggestions : odict Z ratio_suggestion) : result resources :=
  let adjustment_counts : odict string Z :=
    foldl (λ counts (s : Z * ratio_suggestion),
             if has_adjustment s.2 then od_count counts (suggestion s.2) else counts)
          [] suggestions in
  foldl (apply_adjustment (majority agents)) (Ok base_ratios) adjustment_counts.

Definition _discuss_ratio_adjustments {V} (agents : list agent) (base_ratios : resources)
    (principles : odict string V) : result resources :=
  let adjustment_suggestions :=
    foldl (λ suggestions a,
             od_set suggestions (id a) (_get_ratio_adjustment_suggestion a base_ratios))
          [] agents in
  _apply_consensus_adjustments agents base_ratios adjustment_suggestions.

Definition _negotiate_allocation_ratios {V} (agents : list agent)
    (principles : odict string V) (strategy : base_method) : result resources :=
  _discuss_ratio_adjustments agents (_get_base_ratios strategy) principles.

Definition _establish_priority_order {V} (principles : odict string V) : list string :=
  let priority_order :=
    (if od_mem principles "按需分配" || od_mem principles "照顾弱势"
     then ["满足基本生存需求"] else [])
    ++ (if od_mem principles "按劳分配" then ["按劳动贡献分配"] else [])
    ++ (if od_mem principles "平等分配" then ["保证分配公平性"] else [])
    ++ (if od_mem principles "可持续发展" then ["预留发展资源"] else []) in
  if bool_decide (priority_order = []) then ["满足基本生存需求"; "公平合理分配"]
  else priority_order.

Record framework := Framework {
  strategy : base_method;
  ratios : resources;
  priority_order : list string;
  based_on_principles : list string
}.

Definition _negotiate_framework {V} (agents : list agent) (principles : odict string V)
    : result framework :=
  let allocation_strategy := _determine_allocation_strategy principles in
  _negotiate_allocation_ratios agents principles allocation_strategy
    ≫= λ allocation_ratios : resources,
  Ok {| strategy := allocation_strategy;
        ratios := allocation_ratios;
        priority_order := _establish_priority_order principles;
        based_on_principles := principles.*1 |}.

(** ** Details stage ([_build_detailed_proposal]) *)

(** A variable the source calls [allocation] is [alloc] here. *)

(** [{agent["id"]: {"grain": 0.0} for agent in self.agents}] *)
Definition _initialize_empty_proposal (agents : list agent) : allocation :=
  foldl (λ d a, <[id a := {["grain" := 0]}]> d) ∅ agents.

(** [sum(self.survival_needs.get(agent_id, {}).values())] *)
Definition need_of (survival_needs : allocation) (agent_id : Z) : Q :=
  sum_values (default ∅ (survival_needs !! agent_id)).

(** [members * dependency_ratio], with a ratio of 2 for a household
    without labor force. *)
Definition need_weight (a : agent) : Q :=
  let dependency_ratio :=
    if (0 <? labor_force a)%Z then inject_Z (members a) / inject_Z (labor_force a) else 2 in
  inject_Z (members a) * dependency_ratio.

Definition _calculate_needs_first_allocation (agents : list agent)
    (survival_needs : allocation) (total_grain : Q) (ratios : resources)
    : result allocation :=
  match ratios !! "survival_guarantee" with
  | None => Raise KeyError
  | Some survival_guarantee =>
      let survival_budget := total_grain * survival_guarantee in
      let remaining_budget := total_grain - survival_budget in
      let total_survival_needs := total_allocated survival_needs in
      let alloc :=
        foldl (λ d a,
                 if Qlt_bool 0 total_survival_needs
                 then set_cell d (id a) "grain"
                        (need_of survival_needs (id a) / total_survival_needs
                         * survival_budget)
                 else d)
              (_initialize_empty_proposal agents) agents in
      if Qlt_bool 0 remaining_budget then
        let need_weights : gmap Z Q := foldl (λ w a, <[id a := need_weight a]> w) ∅ agents in
        let total_weight := foldl (λ acc a, acc + need_weight a) 0 agents in
        Ok (foldl (λ d a,
                     if Qlt_bool 0 total_weight
                     then add_cell d (id a) "grain"
                            (default 0 (need_weights !! id a) / total_weight
                             * remaining_budget)
                     else d)
                  alloc agents)
      else Ok alloc
  end.

Definition _calculate_contribution_allocation (agents : list agent)
    (survival_needs : allocation) (total_grain : Q) (ratios : resources)
    : result allocation :=
  match ratios !! "survival_guarantee", ratios !! "contribution_reward" with
  | Some survival_guarantee, Some contribution_reward =>
      let contribution_budget := total_grain * contribution_reward in
      let alloc :=
        foldl (λ d a, set_cell d (id a) "grain" (need_of survival_needs (id a)))
              (_initialize_empty_proposal agents) agents in
      if (0 <? total_labor_force agents)%Z then
        Ok (foldl (λ d a,
                     add_cell d (id a) "grain"
                       (inject_Z (labor_force a) / inject_Z (total_labor_force agents)
                        * contribution_budget))
                  alloc agents)
      else Ok alloc
  | _, _ => Raise KeyError
  end.

Definition _calculate_equality_allocation (agents : list agent) (total_grain : Q)
    (ratios : resources) : result allocation :=
  if bool_decide (length agents = 0%nat) then Raise ZeroDivisionError
  else
    let per_family_share := total_grain / num_families agents in
    Ok (foldl (λ d a, set_cell d (id a) "grain" per_family_share)
              (_initialize_empty_proposal agents) agents).

Definition _calculate_hybrid_allocation (agents : list agent)
    (survival_needs : allocation) (total_grain : Q) (ratios : resources)
    : result allocation :=
  match ratios !! "survival_guarantee", ratios !! "merit_portion", ratios !! "equal_portion" with
  | Some survival_guarantee, Some merit_portion, Some equal_portion =>
      let survival_budget := total_grain * survival_guarantee in
      let merit_budget := total_grain * merit_portion in
      let equal_budget := total_grain * equal_portion in
      let layer1 :=
        foldl (λ d a,
                 set_cell d (id a) "grain"
                   (py_min (need_of survival_needs (id a))
                           (survival_budget / num_families agents)))
              (_initialize_empty_proposal agents) agents in
      let layer2 :=
        if (0 <? total_labor_force agents)%Z then
          foldl (λ d a,
                   add_cell d (id a) "grain"
                     (inject_Z (labor_force a) / inject_Z (total_labor_force agents)
                      * merit_budget))
                layer1 agents
        else layer1 in
      if bool_decide (length agents = 0%nat) then Raise ZeroDivisionError
      else
        let equal_share := equal_budget / num_families agents in
        Ok (foldl (λ d a, add_cell d (id a) "grain" equal_share) layer2 agents)
  | _, _, _ => Raise KeyError
  end.

Definition _calculate_base_allocation (agents : list agent) (survival_needs : allocation)
    (total_grain : Q) (framework : framework) : result allocation :=
  match strategy framework with
  | needs_first =>
      _calculate_needs_first_allocation agents survival_needs total_grain (ratios framework)
  | contribution_based =>
      _calculate_contribution_allocation agents survival_needs total_grain (ratios framework)
  | equality_based => _calculate_equality_allocation agents total_grain (ratios framework)
  | balanced_hybrid =>
      _calculate_hybrid_allocation agents survival_needs total_grain (ratios framework)
  end.

(** The list [surplus_agents] of [_redistribute_for_survival], before it
    is sorted. *)
Definition surplus_agents (agents : list agent) (survival_needs : allocation)
    (alloc : allocation) (needy_agent_id : Z) : result (list (Z * Q)) :=
  foldl (λ acc a,
           acc ≫= λ surplus_agents : list (Z * Q),
           if bool_decide (id a = needy_agent_id) then Ok surplus_agents
           else match entry alloc (id a) "grain" with
                | None => Raise KeyError
                | Some current =>
                    let min_needed := need_of survival_needs (id a) in
                    if Qlt_bool min_needed current
                    then Ok (surplus_agents ++ [(id a, current - min_needed)])
                    else Ok surplus_agents
                end)
        (Ok []) agents.

(** The loop over the sorted [surplus_agents]; it ends at the first
    donor met with no deficit left. *)
Fixpoint transfer_loop (needy_agent_id : Z) (surplus_agents : list (Z * Q))
    (remaining_deficit : Q) (alloc : allocation) : result allocation :=
  match surplus_agents with
  | [] => Ok alloc
  | (agent_id, surplus) :: rest =>
      if Qle_bool remaining_deficit 0 then Ok alloc
      else
        let transfer_amount := py_min (surplus * (5#10)) remaining_deficit in
        let alloc := add_cell alloc agent_id "grain" (- transfer_amount) in
        match entry alloc needy_agent_id "grain" with
        | None => Raise KeyError
        | Some _ =>
            transfer_loop needy_agent_id rest (remaining_deficit - transfer_amount)
              (add_cell alloc needy_agent_id "grain" transfer_amount)
        end
  end.

Definition _redistribute_for_survival (agents : list agent) (survival_needs : allocation)
    (alloc : allocation) (needy_agent_id : Z) (deficit : Q) : result allocation :=
  surplus_agents agents survival_needs alloc needy_agent_id
    ≫= λ surplus_agents : list (Z * Q),
  transfer_loop needy_agent_id (sorted_desc (λ x : Z * Q, x.2) surplus_agents)
    deficit alloc.

(** [_handle_special_cases]; its argument [framework] is not used. *)
Definition _handle_special_cases (agents : list agent) (survival_needs : allocation)
    (base_allocation : allocation) : result allocation :=
  foldl (λ acc a,
           acc ≫= λ adjusted_allocation : allocation,
           match entry adjusted_allocation (id a) "grain" with
           | None => Raise KeyError
           | Some current_allocation =>
               let min_survival := need_of survival_needs (id a) in
               if Qlt_bool current_allocation min_survival
               then _redistribute_for_survival agents survival_needs adjusted_allocation
                      (id a) (min_survival - current_allocation)
               else Ok adjusted_allocation
           end)
        (Ok base_allocation) agents.

(** What the rest of the stage reads in an opinion. *)
Record opinion := Opinion {
  has_objection : bool;
  expected_amount : Q;
  allocated_amount : Q
}.

(** [_collect_allocation_opinions].  [answer] is what is read in the
    oracle's reply: whether it objects, and the amount it expects when the
    reply gives one; a failed call reads as no objection and no amount. *)
Definition _collect_allocation_opinions (agents : list agent)
    (answer : agent → bool * option Q) (alloc : allocation) : odict Z opinion :=
  foldl (λ opinions a,
           let allocated_amount := sum_values (default ∅ (alloc !! id a)) in
           od_set opinions (id a)
             {| has_objection := (answer a).1;
                expected_amount := default allocated_amount (answer a).2;
                allocated_amount := allocated_amount |})
        [] agents.

(** [requested_increase] of an objecting agent. *)
Definition requested_increase (op : opinion) : Q := expected_amount op - allocated_amount op.

(** The list [donors] of [_mediate_allocation_adjustment]. *)
Definition mediation_donors (survival_needs : allocation) (adjusted : allocation)
    (satisfied_agents : list agent) : result (list (Z * Q)) :=
  foldl (λ acc a,
           acc ≫= λ donors : list (Z * Q),
           match adjusted !! id a with
           | None => Raise KeyError
           | Some row =>
               let surplus := sum_values row - need_of survival_needs (id a) in
               if Qlt_bool 1 surplus then Ok (donors ++ [(id a, surplus)]) else Ok donors
           end)
        (Ok []) satisfied_agents.

(** [d[aid]["grain"] += x] with the [KeyError] of a missing cell. *)
Definition add_grain (d : allocation) (aid : Z) (x : Q) : result allocation :=
  match entry d aid "grain" with
  | None => Raise KeyError
  | Some _ => Ok (add_cell d aid "grain" x)
  end.

(** [_mediate_allocation_adjustment]; its argument [framework] is not
    used. *)
Definition _mediate_allocation_adjustment (agents : list agent)
    (survival_needs : allocation) (total_grain : Q) (alloc : allocation)
    (disputed_agents : list (Z * opinion)) (total_need : Q) : result allocation :=
  let max_adjustment := total_grain * (1#10) in
  let actual_adjustment := py_min (Qabs total_need) max_adjustment in
  if Qlt_bool 0 total_need then
    let satisfied_agents :=
      List.filter (λ a, negb (bool_decide (id a ∈ disputed_agents.*1))) agents in
    if bool_decide (satisfied_agents = []) then Ok alloc
    else
      mediation_donors survival_needs alloc satisfied_agents
        ≫= λ donors : list (Z * Q),
      if bool_decide (donors = []) then Ok alloc
      else
        let total_available := Qsum (donors.*2) in
        let actual_transfer := py_min actual_adjustment (total_available * (3#10)) in
        foldl (λ acc (donor : Z * Q),
                 acc ≫= λ adjusted : allocation,
                 add_grain adjusted donor.1 (- (donor.2 / total_available * actual_transfer)))
              (Ok alloc) donors
          ≫= λ adjusted : allocation,
        foldl (λ acc (d : Z * opinion),
                 acc ≫= λ adjusted : allocation,
                 if Qlt_bool 0 (requested_increase d.2)
                 then add_grain adjusted d.1
                        (requested_increase d.2 / total_need * actual_transfer)
                 else Ok adjusted)
              (Ok adjusted) disputed_agents
  else Ok alloc.

Definition _negotiate_disputed_allocations (agents : list agent)
    (survival_needs : allocation) (total_grain : Q) (alloc : allocation)
    (opinions : odict Z opinion) : result allocation :=
  let disputed_agents := List.filter (λ x : Z * opinion, has_objection x.2) opinions in
  if bool_decide (disputed_agents = []) then Ok alloc
  else
    let total_adjustment_need := Qsum ((λ x : Z * opinion, requested_increase x.2)
                                         <$> disputed_agents) in
    if Qlt_bool (Qabs total_adjustment_need) (5#10) then Ok alloc
    else _mediate_allocation_adjustment agents survival_needs total_grain alloc
           disputed_agents total_adjustment_need.

Definition _build_detailed_proposal (agents : list agent) (survival_needs : allocation)
    (total_grain : Q) (answer : agent → bool * option Q) (framework : framework)
    : result allocation :=
  _calculate_base_allocation agents survival_needs total_grain framework
    ≫= λ initial_allocation : allocation,
  _handle_special_cases agents survival_needs initial_allocation
    ≫= λ initial_allocation : allocation,
  _validate_and_optimize total_grain initial_allocation
    ≫= λ initial_allocation : allocation,
  let allocation_opinions := _collect_allocation_opinions agents answer initial_allocation in
  let disputed_agents :=
    List.filter (λ x : Z * opinion, has_objection x.2) allocation_opinions in
  (if bool_decide (disputed_agents = []) then Ok initial_allocation
   else _negotiate_disputed_allocations agents survival_needs total_grain
          initial_allocation allocation_opinions)
    ≫= λ negotiated_allocation : allocation,
  _validate_and_optimize total_grain negotiated_allocation.

(** ** Finalization stage: the vote on adjustments and the integers *)

(** What [_vote_on_adjustments] reads in a proposal. *)
Record adjustment_proposal := AdjustmentProposal {
  proposer_id : Z;        (* "agent_id" *)
  current_amount : Q;
  target_amount : Q
}.

(** [max(0, p["target_amount"] - p["current_amount"])] *)
Definition increase_needed (p : adjustment_proposal) : Q :=
  py_max 0 (target_amount p - current_amount p).

(** The list [potential_donors] of [_vote_on_adjustments]. *)
Definition potential_donors (agents : list agent) (adjusted : allocation)
    (proposals : list adjustment_proposal) (avg_allocation : Q) : result (list (Z * Q)) :=
  foldl (λ acc a,
           acc ≫= λ donors : list (Z * Q),
           if bool_decide (id a ∈ proposer_id <$> proposals) then Ok donors
           else match adjusted !! id a with
                | None => Raise KeyError
                | Some row =>
                    if Qlt_bool (avg_allocation * (11#10)) (sum_values row)
                    then Ok (donors ++ [(id a, sum_values row - avg_allocation)])
                    else Ok donors
                end)
        (Ok []) agents.

Definition _vote_on_adjustments (agents : list agent) (total_grain : Q)
    (current_allocation : allocation) (proposals : list adjustment_proposal)
    : result allocation :=
  if bool_decide (proposals = []) then Ok current_allocation
  else
    let total_increase_needed := Qsum (increase_needed <$> proposals) in
    if bool_decide (length agents = 0%nat) then Raise ZeroDivisionError
    else
      let avg_allocation := total_grain / num_families agents in
      potential_donors agents current_allocation proposals avg_allocation
        ≫= λ potential_donors : list (Z * Q),
      if bool_decide (potential_donors = []) then Ok current_allocation
      else
        let total_available := Qsum (potential_donors.*2) in
        let actual_transfer := py_min total_increase_needed (total_available * (5#10)) in
        if Qlt_bool (5#10) actual_transfer then
          foldl (λ acc (donor : Z * Q),
                   acc ≫= λ adjusted : allocation,
                   add_grain adjusted donor.1
                     (- (donor.2 / total_available * actual_transfer)))
                (Ok current_allocation) potential_donors
            ≫= λ adjusted : allocation,
          foldl (λ acc (p : adjustment_proposal),
                   acc ≫= λ adjusted : allocation,
                   if Qlt_bool 0 (increase_needed p)
                   then add_grain adjusted (proposer_id p)
                          (increase_needed p / total_increase_needed * actual_transfer)
                   else Ok adjusted)
                (Ok adjusted) proposals
        else Ok current_allocation.

(** Body of the first loop of [_integerize_allocation]: as [split_step],
    but the floor is taken from the sum of all needs of the agent. *)
Definition split_step_all_needs (real_values : gmap Z Q) (survival_needs : allocation)
    (enforce_min_survival : bool) (st : int_state) (aid : Z) : int_state :=
  let val := default 0 (real_values !! aid) in
  let b := Qfloor val in
  {| base := <[aid := b]> (base st);
     frac := <[aid := val - inject_Z b]> (frac st);
     min_need :=
       <[aid := if enforce_min_survival
                then let need := need_of survival_needs aid in
                     if Qlt_bool 0 need then Qceiling need else 0%Z
                else 0%Z]> (min_need st) |}.

(** [_integerize_allocation]: the method of [integerize_distribution]
    again, on the grain column only; the rows it returns hold nothing
    else. *)
Definition _integerize_allocation (agents : list agent) (survival_needs : allocation)
    (alloc : allocation) (enforce_min_survival : bool) : allocation :=
  let agent_ids := id <$> agents in
  let real_values := dict_comp (λ aid, get2 alloc aid "grain") agent_ids in
  let st0 := {| base := ∅; frac := ∅; min_need := ∅ |} in
  let st1 := foldl (split_step_all_needs real_values survival_needs enforce_min_survival)
                   st0 agent_ids in
  let st := foldl floor_step st1 agent_ids in
  let fractional a := default 0 (frac st !! a) in
  let current_sum := sum_values real_values in
  let target_total := py_round current_sum in
  let base_sum := sum_values_Z (base st) in
  let base :=
    if (base_sum <? target_total)%Z then
      increment_loop (sorted_desc fractional agent_ids) (target_total - base_sum)%Z (base st)
    else if (target_total <? base_sum)%Z then
      decrement_loop (min_need st) (sorted_asc fractional agent_ids)
        (base_sum - target_total)%Z (base st)
    else base st in
  dict_comp (λ aid, {["grain" := inject_Z (default 0%Z (base !! aid))]}) agent_ids.

(** ** Allocation by declared needs ([llm_driven_needs_based_distribution]) *)

(** A number read with [float(report.get(key, 0))]: the key may be
    absent, and a value that is no number makes [float] raise. *)
Inductive json_number := absent | number (q : Q) | not_a_number.

Definition read_float (x : json_number) : result Q :=
  match x with
  | absent => Ok 0
  | number q => Ok q
  | not_a_number => Raise OtherException
  end.

(** The report as the oracle's reply gives it, and as the allocation
    reads it; the two texts of a report are only printed. *)
Record raw_report := RawReport {
  raw_requested_amount : json_number;
  raw_minimum_acceptable : json_number
}.

Record need_report := NeedReport {
  requested_amount : Q;
  minimum_acceptable : Q
}.

(** [max_reasonable] in [validate_and_fix_report]: three times
    [total_resources / (total_members / (members if members > 0 else 1))]. *)
Definition max_reasonable (members : Z) (total_resources : Q) (total_members : Z) : Q :=
  total_resources
  / (inject_Z total_members / inject_Z (if (0 <? members)%Z then members else 1))
  * 3.

Definition validate_and_fix_report (report : raw_report) (members labor_force : Z)
    (survival_amount total_resources : Q) (total_members : Z) : result need_report :=
  read_float (raw_requested_amount report) ≫= λ requested : Q,
  read_float (raw_minimum_acceptable report) ≫= λ minimum : Q,
  if (total_members =? 0)%Z then Raise ZeroDivisionError
  else
    let min_survival := survival_amount * (8#10) in
    let max_reasonable := max_reasonable members total_resources total_members in
    let requested :=
      if Qle_bool requested 0 || Qlt_bool max_reasonable requested
      then py_min (inject_Z members * (total_resources / inject_Z total_members))
                  max_reasonable
      else requested in
    let minimum := if Qlt_bool minimum min_survival then min_survival else minimum in
    let minimum := if Qlt_bool requested minimum then requested else minimum in
    Ok {| requested_amount := requested; minimum_acceptable := minimum |}.

Definition get_default_need_report (members labor_force : Z) (value_type : ValueType)
    (survival_amount total_resources : Q) (total_members : Z) : result need_report :=
  if (total_members =? 0)%Z then Raise ZeroDivisionError
  else
    let base_request := total_resources * (inject_Z members / inject_Z total_members) in
    Ok match value_type with
       | egalitarian =>
           {| requested_amount := base_request; minimum_acceptable := survival_amount |}
       | needs_based =>
           {| requested_amount := py_max base_request (survival_amount * (13#10));
              minimum_acceptable := survival_amount |}
       | merit_based =>
           let labor_ratio := inject_Z labor_force / (inject_Z total_members / 1) in
           {| requested_amount := base_request * (1 + labor_ratio * (3#10));
              minimum_acceptable := survival_amount * (11#10) |}
       | altruistic =>
           {| requested_amount := base_request * (85#100);
              minimum_acceptable := survival_amount * (9#10) |}
       | pragmatic =>
           let resource_abundance := total_resources / (inject_Z total_members * 4) in
           {| requested_amount :=
                if Qlt_bool (12#10) resource_abundance then base_request * (11#10)
                else if Qlt_bool resource_abundance (8#10) then base_request * (9#10)
                else base_request;
              minimum_acceptable := survival_amount |}
       end.

(** The three attempts of [get_family_need_report_via_llm].  [llm i] is
    what the [i]-th call to the oracle gives once parsed, or [None] when
    the call or the parsing raised; a report that [validate_and_fix_report]
    cannot read counts as a failed attempt too. *)
Fixpoint first_valid_report (llm : nat → option raw_report) (attempts : list nat)
    (members labor_force : Z) (survival_amount total_resources : Q) (total_members : Z)
    : option need_report :=
  match attempts with
  | [] => None
  | attempt :: rest =>
      match llm attempt with
      | Some report =>
          match validate_and_fix_report report members labor_force survival_amount
                  total_resources total_members with
          | Ok fixed => Some fixed
          | Raise _ =>
              first_valid_report llm rest members labor_force survival_amount
                total_resources total_members
          end
      | None =>
          first_valid_report llm rest members labor_force survival_amount
            total_resources total_members
      end
  end.

(** [get_family_need_report_via_llm].  The prompt, written before the
    first call, divides by [members] and by [total_members]. *)
Definition get_family_need_report_via_llm (llm : nat → option raw_report)
    (members labor_force : Z) (value_type : ValueType)
    (survival_amount total_resources : Q) (total_members : Z) : result need_report :=
  if (members =? 0)%Z || (total_members =? 0)%Z then Raise ZeroDivisionError
  else
    match first_valid_report llm (seq 0 3) members labor_force survival_amount
            total_resources total_members with
    | Some report => Ok report
    | None =>
        get_default_need_report members labor_force value_type survival_amount
          total_resources total_members
    end.

(** [sum(r[field] for r in family_reports.values())] *)
Definition sum_reports (field : need_report → Q) (family_reports : gmap Z need_report) : Q :=
  map_fold (λ _ r acc, acc + field r) 0 family_reports.

(** The amounts decided for one resource, from the reports of the
    households: every request when the pool covers them; between minimum
    and request when it covers the minima; in proportion to the requests
    otherwise.  The messages printed on the way divide by the pool or by
    the total requested. *)
Definition declared_shares (family_reports : gmap Z need_report) (total_amount : Q)
    : result (gmap Z Q) :=
  let total_requested := sum_reports requested_amount family_reports in
  let total_minimum := sum_reports minimum_acceptable family_reports in
  if Qle_bool total_requested total_amount then
    if Qeq_bool total_amount 0 then Raise ZeroDivisionError
    else Ok (requested_amount <$> family_reports)
  else if Qeq_bool total_requested 0 then Raise ZeroDivisionError
  else if Qle_bool total_minimum total_amount then
    let total_range :=
      sum_reports (λ r, requested_amount r - minimum_acceptable r) family_reports in
    Ok ((λ report,
           let min_val := minimum_acceptable report in
           let max_val := requested_amount report in
           let range_size := max_val - min_val in
           if Qlt_bool 0 total_range
           then min_val + range_size / total_range * (total_amount - total_minimum)
           else max_val / total_requested * total_amount)
          <$> family_reports)
  else
    Ok ((λ report, requested_amount report / total_requested * total_amount)
          <$> family_reports).

(** The reports of all households for one resource. *)
Definition collect_reports (agents : list agent) (survival_needs : allocation)
    (llm : string → agent → nat → option raw_report)
    (resource_name : string) (total_amount : Q) : result (gmap Z need_report) :=
  foldl (λ acc a,
           acc ≫= λ family_reports : gmap Z need_report,
           get_family_need_report_via_llm (llm resource_name a)
             (members a) (labor_force a) (value_type a)
             (get2 survival_needs (id a) resource_name) total_amount (total_members agents)
             ≫= λ report : need_report,
           Ok (<[id a := report]> family_reports))
        (Ok ∅) agents.

(** Body of the loop over [total_resources.items()]. *)
Definition declared_resource_step (agents : list agent) (survival_needs : allocation)
    (llm : string → agent → nat → option raw_report)
    (resource_name : string) (total_amount : Q) (acc : result allocation)
    : result allocation :=
  acc ≫= λ distribution_result : allocation,
  collect_reports agents survival_needs llm resource_name total_amount
    ≫= λ family_reports : gmap Z need_report,
  declared_shares family_reports total_amount
    ≫= λ shares : gmap Z Q,
  Ok (map_fold (λ agent_id share (d : allocation), set_cell d agent_id resource_name share)
               distribution_result shares).

Definition llm_driven_needs_based_distribution (total_resources : resources)
    (agents : list agent) (survival_needs : allocation)
    (llm : string → agent → nat → option raw_report) : result allocation :=
  if bool_decide (agents = []) || bool_decide (size survival_needs = 0%nat) then Ok ∅
  else
    map_fold (declared_resource_step agents survival_needs llm) (Ok ∅) total_resources
      ≫= λ distribution_result : allocation,
    Ok (integerize_distribution total_resources agents distribution_result
          (Some survival_needs) true).

(** ** Production around a round ([resource_generation.py],
    [simulation_runner.py]) *)

(** [calculate_satisfaction_efficiency]; [distribution_method] is not
    used. *)
Definition calculate_satisfaction_efficiency (satisfaction_score : option Q)
    (distribution_method : option string) : Q :=
  match satisfaction_score with
  | None => 1
  | Some satisfaction_score =>
      let base_efficiency := 1 in
      let satisfaction_normalized := (satisfaction_score - (25#10)) / (25#10) in
      let efficiency :=
        if Qle_bool 0 satisfaction_normalized
        then base_efficiency + satisfaction_normalized * (4#10)
        else base_efficiency - Qabs satisfaction_normalized * (3#10) in
      py_max (8#10) (py_min efficiency (12#10))
  end.

(** The output for one resource, from the amount left after the survival
    need. *)
Definition resource_output (labor_force : Z) (satisfaction_efficiency : Q)
    (available_amount : Q) : Q :=
  let base_output := 5 in
  let max_resource_per_labor := 5 in
  let labor_efficiency := 1 in
  let max_processable := inject_Z labor_force * max_resource_per_labor in
  let actual_processed := py_min available_amount max_processable in
  if Qeq_bool actual_processed 0 || (labor_force =? 0)%Z then base_output
  else
    let labor_density := py_min (inject_Z labor_force / actual_processed) 1 in
    let efficiency := (1 + labor_density * labor_efficiency) * satisfaction_efficiency in
    base_output + actual_processed * efficiency.

Definition calculate_production (family_resources survival_needs : resources)
    (labor_force : Z) (satisfaction_score : option Q) (distribution_method : option string)
    : resources :=
  let satisfaction_efficiency :=
    calculate_satisfaction_efficiency satisfaction_score distribution_method in
  let production_resources : resources :=
    map_imap (λ resource_name amount,
                Some (py_max 0 (amount - default 0 (survival_needs !! resource_name))))
             family_resources in
  resource_output labor_force satisfaction_efficiency <$> production_resources.

(** The state of a [ResourceGenerator]. *)
Record ResourceGenerator := {
  current_resources : resources;
  previous_total : Q;
  sustainability_index : Q;
  overuse_warning : bool
}.

(** [ResourceGenerator.__init__]; [total_families] is not used. *)
Definition new_ResourceGenerator (total_families initial_resource : Z) : ResourceGenerator :=
  {| current_resources := {["grain" := inject_Z initial_resource]};
     previous_total := inject_Z initial_resource;
     sustainability_index := 1;
     overuse_warning := false |}.

(** [total_production] in [generate_next_round_resources]. *)
Definition total_production (family_productions : allocation) : resources :=
  map_fold (λ (_ : Z) (production : resources) (total : resources),
              map_fold (λ resource_name amount (total : resources),
                          <[resource_name := default 0 (total !! resource_name) + amount]>
                            total)
                       total production)
           ∅ family_productions.

(** [generate_next_round_resources]: the resources it returns and the
    state it leaves. *)
Definition generate_next_round_resources (self : ResourceGenerator)
    (family_productions : allocation) : resources * ResourceGenerator :=
  let total_production := total_production family_productions in
  let next_round_resources : resources :=
    map_imap (λ resource_name (_ : Q), Some (default 0 (total_production !! resource_name)))
             (current_resources self) in
  let new_total := sum_values next_round_resources in
  let index :=
    if Qlt_bool 0 (previous_total self) then new_total / previous_total self else 1 in
  (next_round_resources,
   {| current_resources := next_round_resources;
      previous_total := new_total;
      sustainability_index := index;
      overuse_warning := Qlt_bool index (9#10) |}).

(** The production loop of [run_single_round] ([simulation_runner.py]),
    which fills [family_productions] for the call of
    [generate_next_round_resources]; [fairness_score] gives the score found
    for a household in the evaluation of the round, if any. *)
Definition round_productions (agents : list agent)
    (family_resources family_needs : allocation) (fairness_score : Z → option Q)
    (distribution_method : option string) : allocation :=
  foldl (λ (family_productions : allocation) a,
           let resources := default ∅ (family_resources !! id a) in
           let needs := default ∅ (family_needs !! id a) in
           <[id a := calculate_production resources needs (labor_force a)
                       (fairness_score (id a)) distribution_method]> family_productions)
        ∅ agents.

(** ** Scoring of proposals ([distribution_mechanisms.py]) *)

(** [calculate_allocation_variance]: the variance of the totals of the
    rows. *)
Definition calculate_allocation_variance (allocations : list resources) : Q :=
  if bool_decide (allocations = []) then 0
  else
    let totals := sum_values <$> allocations in
    let mean_total := Qsum totals / inject_Z (Z.of_nat (length totals)) in
    Qsum ((λ total, (total - mean_total) ^ 2) <$> totals)
    / inject_Z (Z.of_nat (length totals)).

(** The satisfaction of one household:
    [sum(min(alloc.get(resource, 0) / need, 1.0) for resource, need in
    needs.items() if need > 0) / len(needs)]. *)
Definition need_satisfaction (alloc needs : resources) : Q :=
  map_fold (λ resource need acc,
              if Qlt_bool 0 need
              then acc + py_min (default 0 (alloc !! resource) / need) 1
              else acc)
           0 needs
  / inject_Z (Z.of_nat (size needs)).

(** Body of the loop of [calculate_overall_survival_satisfaction], on the
    pair of [total_satisfaction] and [count]. *)
Definition satisfaction_step (proposal : allocation) (agent_id : Z) (needs : resources)
    (st : Q * Z) : Q * Z :=
  if bool_decide (size needs = 0%nat) then st
  else (st.1 + need_satisfaction (default ∅ (proposal !! agent_id)) needs, (st.2 + 1)%Z).

Definition calculate_overall_survival_satisfaction (proposal survival_needs : allocation)
    : Q :=
  if bool_decide (size survival_needs = 0%nat) then 1
  else
    let st := map_fold (satisfaction_step proposal) (0, 0%Z) survival_needs in
    if (0 <? st.2)%Z then st.1 / inject_Z st.2 else 1.
(** ** Notions used in the further properties *)

(** Sum of the absolute differences over all ordered pairs of values. *)
Definition pairwise_gap (values : list Q) : Q :=
  list_total ((λ a, list_total ((λ b, Qabs (a - b)) <$> values)) <$> values).

(** The invariant of the loop of [_apply_consensus_adjustments]: the
    ratios add up to 1 and the survival guarantee is on a given side of
    one half. *)
Definition balanced (below : bool) (r : resources) : Prop :=
  sum_values r == 1
  ∧ ∃ s, r !! "survival_guarantee" = Some s ∧ (if below then s < 1#2 else 1#2 <= s).

(** The number of entries of the households' lists whose normalized name
    is [principle]. *)
Definition mentions (principle_preferences : odict Z (list string)) (principle : string) : Z :=
  Z.of_nat (length (List.filter (λ q, bool_decide (_normalize_principle_name q = principle))
                                (mjoin (principle_preferences.*2)))).

(** Code that raises nothing but [ZeroDivisionError]. *)
Definition only_zero_division {A} (r : result A) : Prop :=
  match r with
  | Ok _ => True
  | Raise e => e = ZeroDivisionError
  end.

(** What all families together produce of a resource. *)
Definition column_total (d : allocation) (resource_name : string) : Q :=
  list_total ((λ item : Z * resources, default 0 (item.2 !! resource_name))
                <$> map_to_list d).

(** What the two loops of [altruistic_distribution] keep: the amounts
    handed out and the amounts left add up to [pool], nothing left is
    negative, and every row lists the resources of the pool. *)
Definition within_pool (pool : Q) (st : allocation * resources) : Prop :=
  total_allocated st.1 + sum_values st.2 == pool
  ∧ (∀ r v, st.2 !! r = Some v → 0 <= v)
  ∧ (∀ k row, st.1 !! k = Some row → ∀ r, is_Some (row !! r) ↔ is_Some (st.2 !! r)).

(** ** Concrete inputs used in the further examples *)

(** Three households, two of them altruistic. *)
Definition altruistic_majority : list agent :=
  [household 1 altruistic 3 1; household 2 altruistic 4 2; household 3 merit_based 2 2].

(** Final principles that lead to the strategy [contribution_based]. *)
Definition labor_principles : odict string principle_note :=
  [("按劳分配", supported_by 2 3); ("效率优先", supported_by 2 3)].

(** An allocation that leaves the second of [three_agents] under its need
    of 5. *)
Definition uneven_allocation : allocation := grain_allocation [(1%Z, 10); (2%Z, 1); (3%Z, 2)].

(** Replies to the initial allocation: the second household objects and
    expects its need of 5; in the second set of replies the third also
    objects and expects one unit less than it holds. *)
Definition second_objects (a : agent) : bool * option Q :=
  if bool_decide (id a = 2%Z) then (true, Some 5) else (false, None).

Definition third_asks_less (a : agent) : bool * option Q :=
  if bool_decide (id a = 2%Z) then (true, Some 7)
  else if bool_decide (id a = 3%Z) then (true, Some 1)
  else (false, None).

(** The second household proposes to go from 1 to 5 units. *)
Definition second_proposes : list adjustment_proposal :=
  [{| proposer_id := 2; current_amount := 1; target_amount := 5 |}].

(** The framework of the strategy [contribution_based] with its base
    ratios. *)
Definition contribution_framework : framework :=
  {| strategy := contribution_based;
     ratios := _get_base_ratios contribution_based;
     priority_order := ["按劳动贡献分配"];
     based_on_principles := ["按劳分配"; "效率优先"] |}.

(** What three households answer: the first alone names equal shares, in
    two wordings. *)
Definition lone_equality_preference (a : agent) : list string :=
  if bool_decide (id a = 1%Z) then ["平等分配"; "人人均等"] else ["公平合理"].

(** What three households answer: the first alone names equal shares. *)
Definition single_mention_preference (a : agent) : list string :=
  if bool_decide (id a = 1%Z) then ["平等分配"] else ["公平合理"].

(** Reports of two households: requests of 60 and 40, minima of 30 and
    20. *)
Definition two_reports : gmap Z need_report :=
  <[1%Z := {| requested_amount := 60; minimum_acceptable := 30 |}]>
    {[2%Z := {| requested_amount := 40; minimum_acceptable := 20 |}]}.

(** Two households, the second without members. *)
Definition with_empty_household : list agent :=
  [household 1 egalitarian 3 2; household 2 needs_based 0 0].
(** * Properties *)

(** Case analysis on the membership of [x] in a list given by its elements:
    [tac] closes the goal for each of them. *)
Ltac each_listed H tac :=
  repeat (apply elem_of_cons in H as [->|H]; [tac|]);
  by apply elem_of_nil in H.

(** ** Rational arithmetic *)

Lemma Qlt_bool_true (x y : Q) : Qlt_bool x y = true ↔ x < y.
Proof.
  unfold Qlt_bool. rewrite negb_true_iff.
  destruct (Qle_bool y x) eqn:E.
  - apply Qle_bool_iff in E. split; [discriminate | intros H; exfalso; lra].
  - split; [intros _ | reflexivity].
    apply Qnot_le_lt. intros H. apply Qle_bool_iff in H. congruence.
Qed.

Lemma Qlt_bool_false (x y : Q) : Qlt_bool x y = false ↔ y <= x.
Proof.
  unfold Qlt_bool. rewrite negb_false_iff. apply Qle_bool_iff.
Qed.

Lemma Qle_bool_false (x y : Q) : Qle_bool x y = false ↔ y < x.
Proof.
  destruct (Qle_bool x y) eqn:E.
  - apply Qle_bool_iff in E. split; [discriminate | intros H; exfalso; lra].
  - split; [intros _ | reflexivity].
    apply Qnot_le_lt. intros H. apply Qle_bool_iff in H. congruence.
Qed.

#[global] Instance Qlt_bool_proper : Proper (Qeq ==> Qeq ==> eq) Qlt_bool.
Proof.
  intros x x' Hx y y' Hy.
  destruct (Qlt_bool x y) eqn:E; symmetry.
  - apply Qlt_bool_true in E. apply Qlt_bool_true. lra.
  - apply Qlt_bool_false in E. apply Qlt_bool_false. lra.
Qed.

Lemma Qeq_bool_false (x y : Q) : ¬ x == y → Qeq_bool x y = false.
Proof.
  intros H. destruct (Qeq_bool x y) eqn:E; [|done].
  by apply Qeq_bool_iff in E.
Qed.

Lemma py_round_comp (x y : Q) : x == y → py_round x = py_round y.
Proof.
  intros H. unfold py_round.
  rewrite (Qfloor_comp _ _ H).
  assert (E : x - inject_Z (Qfloor y) == y - inject_Z (Qfloor y)) by lra.
  rewrite (Qlt_bool_proper _ _ E (1#2) (1#2) (Qeq_refl _)).
  rewrite (Qlt_bool_proper (1#2) (1#2) (Qeq_refl _) _ _ E).
  reflexivity.
Qed.


(** [round] stays between the floor and the floor plus one. *)
Lemma py_round_bounds (x : Q) :
  (Qfloor x ≤ py_round x ≤ Qfloor x + 1)%Z.
Proof.
  unfold py_round.
  destruct (Qlt_bool _ _); [lia|].
  destruct (Qlt_bool _ _); [lia|].
  destruct (Z.even _); lia.
Qed.

(** On an integer-or-above argument, [round] does not fall below it. *)
Lemma py_round_ge (z : Z) (x : Q) : inject_Z z <= x → (z ≤ py_round x)%Z.
Proof.
  intros H. pose proof (py_round_bounds x) as [Hl _].
  apply Qfloor_resp_le in H. rewrite Qfloor_Z in H. lia.
Qed.

Lemma py_round_le (z : Z) (x : Q) : x < inject_Z z → (py_round x ≤ z)%Z.
Proof.
  intros H. pose proof (py_round_bounds x) as [_ Hu].
  assert (Qfloor x < z)%Z; [|lia].
  rewrite Zlt_Qlt. eapply Qle_lt_trans; [apply Qfloor_le | exact H].
Qed.

Lemma inject_Z_length_pos {A} (l : list A) :
  l ≠ [] → 0 < inject_Z (Z.of_nat (length l)).
Proof.
  intros H. destruct l as [|x l]; [done|].
  change 0 with (inject_Z 0). rewrite <- Zlt_Qlt. simpl. lia.
Qed.

(** ** Sums of lists *)

Lemma foldl_Qplus_acc (acc : Q) (l : list Q) :
  foldl Qplus acc l == acc + foldl Qplus 0 l.
Proof.
  revert acc. induction l as [|x l IH]; intros acc; simpl; [lra|].
  rewrite (IH (acc + x)), (IH (0 + x)). lra.
Qed.

Lemma Qsum_cons (x : Q) (l : list Q) : Qsum (x :: l) == x + Qsum l.
Proof. unfold Qsum. simpl. rewrite foldl_Qplus_acc. lra. Qed.

Lemma list_total_cons (x : Q) (l : list Q) : list_total (x :: l) = x + list_total l.
Proof. reflexivity. Qed.

Lemma Qsum_list_total (l : list Q) : Qsum l == list_total l.
Proof.
  induction l as [|x l IH]; [reflexivity|].
  rewrite Qsum_cons, IH. reflexivity.
Qed.

Lemma list_total_perm (l l' : list Q) : l ≡ₚ l' → list_total l == list_total l'.
Proof.
  induction 1 as [|x l l' _ IH|x y l|l l' l'' _ IH1 _ IH2]; simpl.
  - reflexivity.
  - rewrite IH. reflexivity.
  - lra.
  - by rewrite IH1.
Qed.

Lemma list_total_app (l l' : list Q) :
  list_total (l ++ l') == list_total l + list_total l'.
Proof. induction l as [|x l IH]; simpl; [lra|]. rewrite IH. lra. Qed.

Lemma list_total_all_zero (l : list Q) :
  Forall (λ x, x == 0) l → list_total l == 0.
Proof. induction 1 as [|x l Hx _ IH]; simpl; [reflexivity|]. rewrite Hx, IH. lra. Qed.

Lemma list_total_nonneg (l : list Q) : (∀ x, x ∈ l → 0 <= x) → 0 <= list_total l.
Proof.
  induction l as [|x l IH]; intros H; [simpl; lra|].
  rewrite list_total_cons.
  assert (0 <= x) by (apply H; left).
  assert (0 <= list_total l) by (apply IH; intros y Hy; apply H; by right).
  lra.
Qed.

Lemma list_total_zero_all (l : list Q) :
  (∀ x, x ∈ l → 0 <= x) → list_total l == 0 → ∀ x, x ∈ l → x == 0.
Proof.
  induction l as [|y l IH]; intros Hpos Hsum x Hx; [by apply elem_of_nil in Hx|].
  rewrite list_total_cons in Hsum.
  assert (0 <= y) by (apply Hpos; left).
  assert (0 <= list_total l) by (apply list_total_nonneg; intros z Hz; apply Hpos; by right).
  apply elem_of_cons in Hx as [->|Hx]; [lra|].
  apply IH; [intros z Hz; apply Hpos; by right | lra | done].
Qed.

Lemma list_total_fmap_ext {A} (g h : A → Q) (l : list A) :
  (∀ x, x ∈ l → g x == h x) → list_total (g <$> l) == list_total (h <$> l).
Proof.
  induction l as [|x l IH]; intros H; [reflexivity|].
  rewrite !fmap_cons, !list_total_cons.
  rewrite (H x) by (by left). rewrite IH; [reflexivity|].
  intros y Hy. apply H. by right.
Qed.

Lemma list_total_fmap_scale {A} (g : A → Q) (c : Q) (l : list A) :
  list_total ((λ x, g x * c) <$> l) == list_total (g <$> l) * c.
Proof.
  induction l as [|x l IH]; [simpl; ring|].
  rewrite !fmap_cons, !list_total_cons, IH. ring.
Qed.

Lemma list_total_fmap_plus {A} (g h : A → Q) (l : list A) :
  list_total ((λ x, g x + h x) <$> l) == list_total (g <$> l) + list_total (h <$> l).
Proof.
  induction l as [|x l IH]; [simpl; ring|].
  rewrite !fmap_cons, !list_total_cons, IH. ring.
Qed.

Lemma list_total_fmap_const {A} (c : Q) (l : list A) :
  list_total ((λ _, c) <$> l) == inject_Z (Z.of_nat (length l)) * c.
Proof.
  induction l as [|x l IH]; [simpl; ring|].
  rewrite fmap_cons, list_total_cons, IH. cbn [length].
  rewrite Nat2Z.inj_succ. unfold Z.succ. rewrite inject_Z_plus.
  change (inject_Z 1) with 1. ring.
Qed.

Lemma foldl_plus_list_total {A} (g : A → Q) (l : list A) (acc : Q) :
  foldl (λ acc x, acc + g x) acc l == acc + list_total (g <$> l).
Proof.
  revert acc. induction l as [|x l IH]; intros acc; [simpl; lra|].
  cbn [foldl]. rewrite IH, fmap_cons, list_total_cons. lra.
Qed.

Lemma list_total_pos (l : list Q) :
  l ≠ [] → (∀ x, x ∈ l → 0 < x) → 0 < list_total l.
Proof.
  intros Hne H. destruct l as [|x l]; [done|]. clear Hne.
  rewrite list_total_cons.
  assert (G : ∀ l', (∀ y, y ∈ l' → 0 < y) → 0 <= list_total l').
  { induction l' as [|y l' IH]; intros H'; [simpl; lra|].
    rewrite list_total_cons.
    pose proof (H' y ltac:(by left)).
    pose proof (IH ltac:(intros z Hz; apply H'; by right)). lra. }
  pose proof (H x ltac:(by left)).
  pose proof (G l ltac:(intros z Hz; apply H; by right)). lra.
Qed.

(** A sum of [n ≥ 1] values lies below the sum of their floors plus [n]. *)
Lemma list_total_below_floors {A} (v : A → Q) (l : list A) :
  l ≠ [] →
  list_total (v <$> l)
  < inject_Z (foldr Z.add 0%Z ((λ x, Qfloor (v x)) <$> l) + Z.of_nat (length l)).
Proof.
  assert (G : ∀ l', list_total (v <$> l')
                    <= inject_Z (foldr Z.add 0%Z ((λ x, Qfloor (v x)) <$> l')
                                 + Z.of_nat (length l'))).
  { induction l' as [|y l' IH]; [apply Qle_refl|].
    rewrite !fmap_cons, list_total_cons. cbn [foldr length].
    pose proof (Qlt_floor (v y)) as Hy.
    rewrite Nat2Z.inj_succ. unfold Z.succ.
    rewrite !inject_Z_plus in *. change (inject_Z 1) with 1 in *. lra. }
  intros Hne. destruct l as [|x l]; [done|].
  rewrite !fmap_cons, list_total_cons. cbn [foldr length].
  pose proof (Qlt_floor (v x)) as Hx. pose proof (G l) as Hl.
  rewrite Nat2Z.inj_succ. unfold Z.succ.
  rewrite !inject_Z_plus in *. change (inject_Z 1) with 1 in *. lra.
Qed.


Lemma foldr_Zadd_le {A} (f g : A → Z) (l : list A) :
  (∀ x, x ∈ l → (f x ≤ g x)%Z) →
  (foldr Z.add 0 (f <$> l) ≤ foldr Z.add 0 (g <$> l))%Z.
Proof.
  induction l as [|x l IH]; intros H; [done|].
  rewrite !fmap_cons. cbn [foldr].
  pose proof (H x ltac:(by left)). pose proof (IH ltac:(intros y Hy; apply H; by right)).
  lia.
Qed.

Lemma inject_Z_foldr_add {A} (f : A → Z) (l : list A) :
  inject_Z (foldr Z.add 0%Z (f <$> l)) == list_total ((λ x, inject_Z (f x)) <$> l).
Proof.
  induction l as [|x l IH]; [reflexivity|].
  rewrite !fmap_cons, list_total_cons. cbn [foldr]. rewrite inject_Z_plus, IH.
  reflexivity.
Qed.

(** ** The stable sort *)

Lemma insert_sorted_perm {A} (before : A → A → bool) (x : A) (l : list A) :
  insert_sorted before x l ≡ₚ x :: l.
Proof.
  induction l as [|y l IH]; simpl; [done|].
  destruct (before x y); [done|].
  rewrite IH. apply Permutation_swap.
Qed.

Lemma sorted_by_perm {A} (before : A → A → bool) (l : list A) :
  sorted_by before l ≡ₚ l.
Proof.
  induction l as [|x l IH]; simpl; [done|].
  rewrite insert_sorted_perm. by rewrite IH.
Qed.

Lemma sorted_by_length {A} (before : A → A → bool) (l : list A) :
  length (sorted_by before l) = length l.
Proof. apply Permutation_length, sorted_by_perm. Qed.


Lemma insert_sorted_asc_sorted {A} (key : A → Q) (x : A) (l : list A) :
  Sorted (λ a b, key a <= key b) l →
  Sorted (λ a b, key a <= key b) (insert_sorted (λ a b, Qle_bool (key a) (key b)) x l).
Proof.
  induction 1 as [|y l Hl IH Hy]; simpl.
  - by repeat constructor.
  - destruct (Qle_bool (key x) (key y)) eqn:E.
    + apply Qle_bool_iff in E. by repeat constructor.
    + apply Qle_bool_false in E. constructor; [done|].
      destruct l as [|z l]; simpl in *.
      * constructor. lra.
      * destruct (Qle_bool (key x) (key z)); constructor; [lra|].
        by inversion Hy.
Qed.

(** [sorted_asc] sorts: its result is ascending in the key and is a
    permutation of its argument. *)
Lemma sorted_asc_sorted {A} (key : A → Q) (l : list A) :
  Sorted (λ a b, key a <= key b) (sorted_asc key l).
Proof.
  unfold sorted_asc, sorted_by. induction l as [|x l IH]; simpl; [constructor|].
  by apply insert_sorted_asc_sorted.
Qed.

Lemma sorted_asc_perm {A} (key : A → Q) (l : list A) : sorted_asc key l ≡ₚ l.
Proof. apply sorted_by_perm. Qed.

(** ** Dictionaries built by loops *)

Lemma foldl_insert_lookup {A} (f : Z → A) (l : list Z) (m : gmap Z A) (k : Z) :
  foldl (λ m k, <[k := f k]> m) m l !! k
  = if decide (k ∈ l) then Some (f k) else m !! k.
Proof.
  revert m. induction l as [|x l IH]; intros m; cbn [foldl].
  - case_decide as H; [by apply elem_of_nil in H | done].
  - rewrite IH. destruct (decide (k ∈ l)) as [Hl|Hl].
    + rewrite decide_True; [done | by right].
    + destruct (decide (k = x)) as [->|Hne].
      * rewrite lookup_insert_eq. rewrite decide_True; [done | by left].
      * rewrite lookup_insert_ne by done.
        rewrite decide_False; [done|]. by intros [?|?]%elem_of_cons.
Qed.

Lemma lookup_dict_comp {A} (f : Z → A) (l : list Z) (k : Z) :
  dict_comp f l !! k = if decide (k ∈ l) then Some (f k) else None.
Proof. unfold dict_comp. rewrite foldl_insert_lookup. by rewrite lookup_empty. Qed.

Lemma lookup_rows (row : agent → resources) (agents : list agent) (a : agent) :
  NoDup (id <$> agents) → a ∈ agents →
  foldl (λ (d : allocation) a, <[id a := row a]> d) ∅ agents !! id a = Some (row a).
Proof.
  intros Hnd Ha.
  assert (G : ∀ l (d : allocation), NoDup (id <$> l) → a ∈ l →
            foldl (λ d a, <[id a := row a]> d) d l !! id a = Some (row a)).
  { induction l as [|b l IH]; intros d Hl Hin; simpl; [by apply elem_of_nil in Hin|].
    apply NoDup_cons in Hl as [Hb Hl].
    apply elem_of_cons in Hin as [->|Hin]; [|by apply IH].
    assert (F : ∀ l' (d' : allocation), id b ∉ id <$> l' →
              foldl (λ d a, <[id a := row a]> d) d' l' !! id b = d' !! id b).
    { induction l' as [|c l' IH']; intros d' Hc; simpl; [done|].
      rewrite fmap_cons in Hc. apply not_elem_of_cons in Hc as [Hc1 Hc2].
      rewrite IH' by done. by rewrite lookup_insert_ne. }
    rewrite F by done. by rewrite lookup_insert_eq. }
  by apply G.
Qed.

Lemma lookup_rows_const (row : resources) (agents : list agent) (k : Z) :
  foldl (λ (d : allocation) a, <[id a := row]> d) ∅ agents !! k
  = if decide (k ∈ id <$> agents) then Some row else None.
Proof.
  assert (G : ∀ l (d : allocation),
            foldl (λ (d : allocation) a, <[id a := row]> d) d l !! k
            = if decide (k ∈ id <$> l) then Some row else d !! k).
  { induction l as [|a l IH]; intros d; cbn [foldl].
    - rewrite fmap_nil. case_decide as H; [by apply elem_of_nil in H | done].
    - rewrite IH, fmap_cons. destruct (decide (k ∈ id <$> l)) as [Hl|Hl].
      + by rewrite (decide_True (P := k ∈ id a :: (id <$> l))) by (by right).
      + destruct (decide (k = id a)) as [->|Hne].
        * rewrite lookup_insert_eq.
          by rewrite (decide_True (P := id a ∈ id a :: (id <$> l))) by (by left).
        * rewrite lookup_insert_ne by done.
          rewrite (decide_False (P := k ∈ id a :: (id <$> l))); [done|].
          by intros [?|?]%elem_of_cons. }
  rewrite G. by rewrite lookup_empty.
Qed.

(** ** Sums over dictionaries *)

Lemma foldr_sum_values {K A} (g : A → Q) (l : list (K * A)) :
  foldr (uncurry (λ (_ : K) v acc, acc + g v)) 0 l == list_total (g ∘ snd <$> l).
Proof.
  induction l as [|[k v] l IH]; [reflexivity|].
  rewrite fmap_cons, list_total_cons. cbn [foldr uncurry]. rewrite IH.
  simpl. ring.
Qed.

(** A sum over a dictionary is the sum over its list of items. *)
Lemma sum_values_list {K} `{Countable K} (m : gmap K Q) :
  sum_values m == list_total ((map_to_list m).*2).
Proof.
  unfold sum_values. rewrite map_fold_foldr.
  apply (foldr_sum_values (λ v, v)).
Qed.

Lemma total_allocated_list (d : allocation) :
  total_allocated d == list_total (sum_values ∘ snd <$> map_to_list d).
Proof. unfold total_allocated. rewrite map_fold_foldr. apply foldr_sum_values. Qed.

Lemma sum_values_empty {K} `{Countable K} : sum_values (∅ : gmap K Q) == 0.
Proof. unfold sum_values. by rewrite map_fold_empty. Qed.

Lemma sum_values_insert {K} `{Countable K} (m : gmap K Q) (k : K) (v : Q) :
  m !! k = None → sum_values (<[k := v]> m) == v + sum_values m.
Proof.
  intros Hk. rewrite !sum_values_list.
  rewrite (list_total_perm _ (v :: (map_to_list m).*2)); [reflexivity|].
  by rewrite map_to_list_insert.
Qed.

Lemma sum_values_singleton {K} `{Countable K} (k : K) (v : Q) :
  sum_values ({[k := v]} : gmap K Q) == v.
Proof.
  rewrite <- insert_empty, sum_values_insert by apply lookup_empty.
  rewrite sum_values_empty. lra.
Qed.

Lemma sum_values_scale {K} `{Countable K} (m : gmap K Q) (c : Q) :
  sum_values ((λ v, v * c) <$> m) == sum_values m * c.
Proof.
  unfold sum_values. rewrite map_fold_fmap, !map_fold_foldr.
  rewrite (foldr_sum_values (λ v, v * c)), (foldr_sum_values (λ v, v)).
  apply (list_total_fmap_scale (λ p : K * Q, p.2)).
Qed.

Lemma sum_values_dict_comp (f : Z → Q) (l : list Z) :
  NoDup l → sum_values (dict_comp f l) == list_total (f <$> l).
Proof.
  intros Hnd. unfold dict_comp.
  assert (G : ∀ l (m : gmap Z Q), NoDup l → (∀ k, k ∈ l → m !! k = None) →
            sum_values (foldl (λ m k, <[k := f k]> m) m l)
            == list_total (f <$> l) + sum_values m).
  { clear l Hnd. induction l as [|k l IH]; intros m Hl Hfresh; [cbn [foldl fmap list_fmap list_total foldr]; lra|].
    apply NoDup_cons in Hl as [Hk Hl]. cbn [foldl]. rewrite IH; [|done|].
    - rewrite sum_values_insert by (apply Hfresh; by left).
      rewrite fmap_cons, list_total_cons. lra.
    - intros j Hj. rewrite lookup_insert_ne; [apply Hfresh; by right|].
      by intros ->. }
  rewrite G; [|done|intros; apply lookup_empty].
  rewrite sum_values_empty. lra.
Qed.

Lemma total_allocated_empty : total_allocated ∅ == 0.
Proof. unfold total_allocated. by rewrite map_fold_empty. Qed.

Lemma total_allocated_insert (d : allocation) (k : Z) (row : resources) :
  d !! k = None → total_allocated (<[k := row]> d) == sum_values row + total_allocated d.
Proof.
  intros Hk. rewrite !total_allocated_list.
  rewrite (list_total_perm _ (sum_values row :: (sum_values ∘ snd <$> map_to_list d)));
    [reflexivity|].
  by rewrite map_to_list_insert.
Qed.

Lemma total_allocated_scale (d : allocation) (c : Q) :
  total_allocated (scale_allocation c d) == total_allocated d * c.
Proof.
  rewrite !total_allocated_list. unfold scale_allocation.
  rewrite map_to_list_fmap, <- list_fmap_compose.
  rewrite <- (list_total_fmap_scale (sum_values ∘ snd)).
  apply list_total_fmap_ext. intros [k row] _. simpl. apply sum_values_scale.
Qed.

(** A dictionary filled agent by agent, the ids being distinct. *)
Lemma total_allocated_rows (row : agent → resources) (agents : list agent) :
  NoDup (id <$> agents) →
  total_allocated (foldl (λ d a, <[id a := row a]> d) ∅ agents)
  == list_total (sum_values ∘ row <$> agents).
Proof.
  intros Hnd.
  assert (G : ∀ l (d : allocation), NoDup (id <$> l) →
            (∀ a, a ∈ l → d !! id a = None) →
            total_allocated (foldl (λ d a, <[id a := row a]> d) d l)
            == list_total (sum_values ∘ row <$> l) + total_allocated d).
  { induction l as [|a l IH]; intros d Hl Hfresh; [simpl; lra|].
    rewrite !fmap_cons in *. rewrite list_total_cons. cbn [foldl].
    apply NoDup_cons in Hl as [Ha Hl].
    rewrite IH; [|done|].
    - rewrite total_allocated_insert by (apply Hfresh; by left).
      unfold compose. lra.
    - intros b Hb. rewrite lookup_insert_ne; [apply Hfresh; by right|].
      intros E. apply Ha. rewrite E. by apply list_elem_of_fmap_2. }
  rewrite G by done. rewrite total_allocated_empty. lra.
Qed.

Lemma sum_values_Z_insert (m : gmap Z Z) (k v : Z) :
  m !! k = None → sum_values_Z (<[k := v]> m) = (v + sum_values_Z m)%Z.
Proof.
  intros Hk. unfold sum_values_Z.
  rewrite map_fold_insert_L; [lia | intros; lia | done].
Qed.

Lemma sum_values_Z_dict_comp (f : Z → Z) (l : list Z) :
  NoDup l → sum_values_Z (dict_comp f l) = foldr Z.add 0%Z (f <$> l).
Proof.
  intros Hnd. unfold dict_comp.
  assert (G : ∀ l (m : gmap Z Z), NoDup l → (∀ k, k ∈ l → m !! k = None) →
            sum_values_Z (foldl (λ m k, <[k := f k]> m) m l)
            = (foldr Z.add 0 (f <$> l) + sum_values_Z m)%Z).
  { clear l Hnd. induction l as [|k l IH]; intros m Hl Hfresh; [cbn [foldl fmap list_fmap foldr]; lia|].
    apply NoDup_cons in Hl as [Hk Hl]. cbn [foldl]. rewrite IH; [|done|].
    - rewrite sum_values_Z_insert by (apply Hfresh; by left).
      rewrite fmap_cons. cbn [foldr]. lia.
    - intros j Hj. rewrite lookup_insert_ne; [apply Hfresh; by right|].
      by intros ->. }
  rewrite G; [|done|intros; apply lookup_empty].
  unfold sum_values_Z. rewrite map_fold_empty. lia.
Qed.

Lemma sum_values_Z_alter (f : Z → Z) (m : gmap Z Z) (k b : Z) :
  m !! k = Some b → sum_values_Z (alter f k m) = (sum_values_Z m - b + f b)%Z.
Proof.
  intros Hk.
  assert (E : alter f k m = <[k := f b]> (delete k m)).
  { apply map_eq. intros j. rewrite lookup_alter.
    destruct (decide (k = j)) as [->|Hne].
    - by rewrite lookup_insert_eq, Hk.
    - by rewrite lookup_insert_ne, lookup_delete_ne by done. }
  rewrite E, sum_values_Z_insert by apply lookup_delete_eq.
  rewrite <- (insert_delete_id m k b) at 2 by done.
  rewrite sum_values_Z_insert by apply lookup_delete_eq. lia.
Qed.

Lemma sum_values_Z_over_keys (m : gmap Z Z) (l : list Z) :
  NoDup l → (∀ k, is_Some (m !! k) ↔ k ∈ l) →
  sum_values_Z m = foldr Z.add 0%Z ((λ k, default 0%Z (m !! k)) <$> l).
Proof.
  intros Hnd Hkeys. rewrite <- sum_values_Z_dict_comp by done. f_equal.
  apply map_eq. intros k. rewrite lookup_dict_comp.
  destruct (decide (k ∈ l)) as [Hk|Hk].
  - apply Hkeys in Hk as [b Hb]. by rewrite Hb.
  - destruct (m !! k) eqn:E; [|done]. exfalso. apply Hk, Hkeys. eauto.
Qed.

(** ** Cells of an allocation *)

Lemma entry_set_cell (d : allocation) (k : Z) (r : string) (v : Q) (k' : Z) (r' : string) :
  entry (set_cell d k r v) k' r'
  = if decide (k = k' ∧ r = r') then Some v else entry d k' r'.
Proof.
  unfold entry, set_cell.
  destruct (decide (k = k')) as [->|Hk].
  - rewrite lookup_insert_eq. simpl.
    destruct (decide (r = r')) as [->|Hr].
    + rewrite lookup_insert_eq. by rewrite decide_True.
    + rewrite lookup_insert_ne by done. rewrite decide_False by (intros [? ?]; congruence).
      by destruct (d !! k').
  - rewrite lookup_insert_ne by done. by rewrite decide_False by (intros [? ?]; congruence).
Qed.

Lemma total_allocated_set_cell_fresh (d : allocation) (k : Z) (r : string) (v : Q) :
  entry d k r = None → total_allocated (set_cell d k r v) == total_allocated d + v.
Proof.
  unfold entry, set_cell. intros Hfresh.
  destruct (d !! k) as [row|] eqn:Hrow; simpl in *.
  - rewrite <- (insert_delete_eq d k).
    rewrite <- (insert_delete_id d k row) at 2 by done.
    rewrite !total_allocated_insert by apply lookup_delete_eq.
    rewrite sum_values_insert by done. lra.
  - rewrite total_allocated_insert by done.
    rewrite sum_values_insert by apply lookup_empty.
    rewrite sum_values_empty. lra.
Qed.

Lemma foldl_set_cell_entry (v : agent → Q) (r : string) (agents : list agent)
    (d : allocation) (k : Z) (r' : string) :
  r' ≠ r →
  entry (foldl (λ d a, set_cell d (id a) r (v a)) d agents) k r' = entry d k r'.
Proof.
  intros Hr. revert d. induction agents as [|a agents IH]; intros d; simpl; [done|].
  rewrite IH, entry_set_cell. by rewrite decide_False by (intros [? ?]; congruence).
Qed.

Lemma foldl_set_cell_total (v : agent → Q) (r : string) (agents : list agent)
    (d : allocation) :
  NoDup (id <$> agents) → (∀ k, entry d k r = None) →
  total_allocated (foldl (λ d a, set_cell d (id a) r (v a)) d agents)
  == total_allocated d + list_total (v <$> agents).
Proof.
  revert d. induction agents as [|a agents IH]; intros d Hnd Hfresh.
  { simpl. lra. }
  rewrite fmap_cons in Hnd. apply NoDup_cons in Hnd as [Ha Hnd].
  assert (G : ∀ l (d' : allocation), id a ∉ id <$> l →
            entry (foldl (λ d a, set_cell d (id a) r (v a)) d' l) (id a) r
            = entry d' (id a) r).
  { induction l as [|b l IHl]; intros d' Hl; simpl; [done|].
    rewrite fmap_cons in Hl. apply not_elem_of_cons in Hl as [Hb Hl].
    rewrite IHl by done. rewrite entry_set_cell.
    by rewrite decide_False by (intros [? ?]; congruence). }
  (* process [a] last: the cells of distinct agents commute *)
  assert (C : ∀ l (d' : allocation), id a ∉ id <$> l →
            foldl (λ d a, set_cell d (id a) r (v a)) (set_cell d' (id a) r (v a)) l
            = set_cell (foldl (λ d a, set_cell d (id a) r (v a)) d' l) (id a) r (v a)).
  { induction l as [|b l IHl]; intros d' Hl; simpl; [done|].
    rewrite fmap_cons in Hl. apply not_elem_of_cons in Hl as [Hb Hl].
    rewrite <- IHl by done. f_equal.
    unfold set_cell. rewrite !lookup_insert_ne by done.
    by apply insert_insert_ne. }
  cbn [foldl]. rewrite C by done.
  rewrite total_allocated_set_cell_fresh by (rewrite G by done; apply Hfresh).
  rewrite IH by done. rewrite fmap_cons, list_total_cons. lra.
Qed.

Lemma foldl_set_cell_entry_in (v : agent → Q) (r : string) (agents : list agent)
    (d : allocation) (a : agent) :
  a ∈ agents →
  is_Some (entry (foldl (λ d a, set_cell d (id a) r (v a)) d agents) (id a) r).
Proof.
  assert (G : ∀ l (d' : allocation) k, is_Some (entry d' k r) →
            is_Some (entry (foldl (λ d a, set_cell d (id a) r (v a)) d' l) k r)).
  { induction l as [|b l IH]; intros d' k H; simpl; [done|].
    apply IH. rewrite entry_set_cell. destruct (decide _); eauto. }
  revert d. induction agents as [|b agents IH]; intros d Ha.
  { by apply elem_of_nil in Ha. }
  apply elem_of_cons in Ha as [->|Ha]; simpl; [|by apply IH].
  apply G. rewrite entry_set_cell. rewrite decide_True by done. eauto.
Qed.

Lemma foldl_set_cell_is_Some (v : agent → Q) (r : string) (agents : list agent)
    (d : allocation) (k : Z) (r' : string) :
  is_Some (entry d k r') →
  is_Some (entry (foldl (λ d a, set_cell d (id a) r (v a)) d agents) k r').
Proof.
  revert d. induction agents as [|b l IH]; intros d H; simpl; [done|].
  apply IH. rewrite entry_set_cell. destruct (decide _); eauto.
Qed.

Lemma entry_add_cell (d : allocation) (k : Z) (r : string) (x : Q) (k' : Z) (r' : string) :
  entry (add_cell d k r x) k' r'
  = if decide (k = k' ∧ r = r') then (λ v, v + x) <$> entry d k' r' else entry d k' r'.
Proof.
  unfold entry, add_cell. rewrite lookup_alter.
  destruct (decide (k = k')) as [->|Hk].
  - destruct (d !! k') as [row|]; simpl.
    + rewrite lookup_alter. destruct (decide (r = r')) as [->|Hr].
      * by rewrite decide_True.
      * by rewrite decide_False by (intros [? ?]; congruence).
    + by destruct (decide _).
  - by rewrite decide_False by (intros [? ?]; congruence).
Qed.

Lemma entry_add_cell_is_Some (d : allocation) (k : Z) (r : string) (x : Q)
    (k' : Z) (r' : string) :
  is_Some (entry d k' r') → is_Some (entry (add_cell d k r x) k' r').
Proof.
  intros [v Hv]. rewrite entry_add_cell, Hv. destruct (decide _); simpl; eauto.
Qed.

Lemma total_allocated_add_cell (d : allocation) (k : Z) (r : string) (x : Q) :
  is_Some (entry d k r) → total_allocated (add_cell d k r x) == total_allocated d + x.
Proof.
  unfold entry. intros [v Hv].
  destruct (d !! k) as [row|] eqn:Hrow; simpl in Hv; [|done].
  assert (E : add_cell d k r x = <[k := <[r := v + x]> (delete r row)]> (delete k d)).
  { unfold add_cell. apply map_eq. intros k'. rewrite lookup_alter.
    destruct (decide (k = k')) as [->|Hk].
    - rewrite lookup_insert_eq, Hrow. simpl. f_equal.
      apply map_eq. intros r'. rewrite lookup_alter.
      destruct (decide (r = r')) as [->|Hr].
      + by rewrite lookup_insert_eq, Hv.
      + by rewrite lookup_insert_ne, lookup_delete_ne by done.
    - by rewrite lookup_insert_ne, lookup_delete_ne by done. }
  rewrite E.
  rewrite <- (insert_delete_id d k row) at 2 by done.
  rewrite !total_allocated_insert by apply lookup_delete_eq.
  rewrite <- (insert_delete_id row r v) at 2 by done.
  rewrite !sum_values_insert by apply lookup_delete_eq. lra.
Qed.

Lemma foldl_add_cell_is_Some {A} (key : A → Z) (v : A → Q) (r : string) (l : list A)
    (d : allocation) (k : Z) (r' : string) :
  is_Some (entry d k r') →
  is_Some (entry (foldl (λ d x, add_cell d (key x) r (v x)) d l) k r').
Proof.
  revert d. induction l as [|x l IH]; intros d H; simpl; [done|].
  by apply IH, entry_add_cell_is_Some.
Qed.

Lemma foldl_add_cell_None {A} (key : A → Z) (v : A → Q) (r : string) (l : list A)
    (d : allocation) (k : Z) (r' : string) :
  entry d k r' = None →
  entry (foldl (λ d x, add_cell d (key x) r (v x)) d l) k r' = None.
Proof.
  revert d. induction l as [|x l IH]; intros d H; simpl; [done|].
  apply IH. rewrite entry_add_cell, H. by destruct (decide _).
Qed.

Lemma foldl_add_cell_total {A} (key : A → Z) (v : A → Q) (r : string) (l : list A)
    (d : allocation) :
  (∀ x, x ∈ l → is_Some (entry d (key x) r)) →
  total_allocated (foldl (λ d x, add_cell d (key x) r (v x)) d l)
  == total_allocated d + list_total (v <$> l).
Proof.
  revert d. induction l as [|x l IH]; intros d H.
  { simpl. lra. }
  cbn [foldl]. rewrite IH.
  - rewrite total_allocated_add_cell by (apply H; by left).
    rewrite fmap_cons, list_total_cons. lra.
  - intros y Hy. apply entry_add_cell_is_Some, H. by right.
Qed.

(** ** Integerization: the state after the preparation loops *)

Section Prepared.
Variable real : gmap Z Q.
Variable survival_needs : option allocation.
Variable enforce_min_survival : bool.

Lemma split_loop_base (l : list Z) (st : int_state) :
  base (foldl (split_step real survival_needs enforce_min_survival) st l)
  = foldl (λ m k, <[k := Qfloor (default 0 (real !! k))]> m) (base st) l.
Proof. revert st. induction l as [|x l IH]; intros st; simpl; [done|]. by rewrite IH. Qed.


Lemma split_loop_min_need (l : list Z) (st : int_state) :
  min_need (foldl (split_step real survival_needs enforce_min_survival) st l)
  = foldl (λ m k, <[k := if enforce_min_survival && truthy survival_needs
                         then need_floor survival_needs k else 0%Z]> m)
          (min_need st) l.
Proof. revert st. induction l as [|x l IH]; intros st; simpl; [done|]. by rewrite IH. Qed.

Lemma floor_loop_min_need (l : list Z) (st : int_state) :
  min_need (foldl floor_step st l) = min_need st.
Proof.
  revert st. induction l as [|x l IH]; intros st; simpl; [done|].
  rewrite IH. unfold floor_step. by destruct (_ <? _)%Z.
Qed.

Lemma floor_loop_base (l : list Z) (st : int_state) (k : Z) :
  is_Some (base st !! k) →
  base (foldl floor_step st l) !! k
  = if decide (k ∈ l)
    then Some (Z.max (default 0%Z (base st !! k)) (default 0%Z (min_need st !! k)))
    else base st !! k.
Proof.
  revert st. induction l as [|x l IH]; intros st [b Hb]; cbn [foldl].
  - case_decide as H; [by apply elem_of_nil in H | done].
  - assert (Hmn : min_need (floor_step st x) = min_need st).
    { unfold floor_step. by destruct (_ <? _)%Z. }
    assert (Hstep : base (floor_step st x) !! k
                    = if decide (k = x)
                      then Some (Z.max b (default 0%Z (min_need st !! k)))
                      else Some b).
    { unfold floor_step. destruct (decide (k = x)) as [Hk|Hk].
      - subst x. rewrite Hb. simpl.
        destruct (Z.ltb_spec b (default 0%Z (min_need st !! k))); simpl.
        + rewrite lookup_insert_eq. f_equal. lia.
        + rewrite Hb. f_equal. lia.
      - destruct (_ <? _)%Z; simpl; [|done]. by rewrite lookup_insert_ne. }
    rewrite IH by (rewrite Hstep; destruct (decide (k = x)); eauto).
    rewrite Hmn, Hstep, Hb. simpl.
    destruct (decide (k ∈ l)) as [Hl|Hl].
    + rewrite (decide_True (P := k ∈ x :: l)) by (by right).
      destruct (decide (k = x)); simpl; f_equal; lia.
    + destruct (decide (k = x)) as [Hk|Hk].
      * subst x. rewrite (decide_True (P := k ∈ k :: l)) by (by left). done.
      * rewrite (decide_False (P := k ∈ x :: l)); [done|].
        by intros [?|?]%elem_of_cons.
Qed.


(** The three dictionaries on a listed agent. *)
Lemma prepared_min_need (agent_ids : list Z) (k : Z) :
  k ∈ agent_ids →
  min_need (prepared agent_ids real survival_needs enforce_min_survival) !! k
  = Some (if enforce_min_survival && truthy survival_needs
          then need_floor survival_needs k else 0%Z).
Proof.
  intros Hk. unfold prepared. rewrite floor_loop_min_need, split_loop_min_need.
  simpl. rewrite foldl_insert_lookup. by rewrite decide_True.
Qed.

Lemma prepared_min_need_None (agent_ids : list Z) (k : Z) :
  k ∉ agent_ids →
  min_need (prepared agent_ids real survival_needs enforce_min_survival) !! k = None.
Proof.
  intros Hk. unfold prepared. rewrite floor_loop_min_need, split_loop_min_need.
  simpl. rewrite foldl_insert_lookup. by rewrite decide_False.
Qed.

Lemma prepared_base (agent_ids : list Z) (k : Z) :
  k ∈ agent_ids →
  base (prepared agent_ids real survival_needs enforce_min_survival) !! k
  = Some (Z.max (Qfloor (default 0 (real !! k)))
                (if enforce_min_survival && truthy survival_needs
                 then need_floor survival_needs k else 0%Z)).
Proof.
  intros Hk. unfold prepared.
  rewrite floor_loop_base; rewrite split_loop_base; simpl;
    rewrite foldl_insert_lookup, decide_True by done; [|by eauto].
  rewrite decide_True by done. rewrite split_loop_min_need. simpl.
  rewrite foldl_insert_lookup, decide_True by done. done.
Qed.

Lemma prepared_base_None (agent_ids : list Z) (k : Z) :
  k ∉ agent_ids →
  base (prepared agent_ids real survival_needs enforce_min_survival) !! k = None.
Proof.
  intros Hk. unfold prepared.
  assert (G : ∀ l st, k ∉ l → base (foldl floor_step st l) !! k = base st !! k).
  { induction l as [|x l IH]; intros st Hl; simpl; [done|].
    apply not_elem_of_cons in Hl as [Hx Hl]. rewrite IH by done.
    unfold floor_step. destruct (_ <? _)%Z; simpl; [|done]. by rewrite lookup_insert_ne. }
  rewrite G by done. rewrite split_loop_base. simpl.
  rewrite foldl_insert_lookup. by rewrite decide_False.
Qed.
End Prepared.

(** The dictionary [base] after the preparation, as a comprehension. *)
Lemma prepared_base_dict (agent_ids : list Z) (real : gmap Z Q)
    (survival_needs : option allocation) (enforce : bool) :
  base (prepared agent_ids real survival_needs enforce)
  = dict_comp (λ k, Z.max (Qfloor (default 0 (real !! k)))
                      (if enforce && truthy survival_needs
                       then need_floor survival_needs k else 0%Z)) agent_ids.
Proof.
  apply map_eq. intros k. rewrite lookup_dict_comp.
  destruct (decide (k ∈ agent_ids)).
  - by apply prepared_base.
  - by apply prepared_base_None.
Qed.

Lemma prepared_base_keys (agent_ids : list Z) (real : gmap Z Q)
    (survival_needs : option allocation) (enforce : bool) (k : Z) :
  is_Some (base (prepared agent_ids real survival_needs enforce) !! k) ↔ k ∈ agent_ids.
Proof.
  destruct (decide (k ∈ agent_ids)) as [Hk|Hk].
  - rewrite prepared_base by done. split; eauto.
  - rewrite prepared_base_None by done. split; [by intros [? ?] | done].
Qed.


(** ** Integerization: the correction loops *)

Lemma increment_loop_floored (min_need : gmap Z Z) (order : list Z) (need : Z)
    (base : gmap Z Z) :
  floored min_need base → floored min_need (increment_loop order need base).
Proof.
  revert need base. induction order as [|aid rest IH]; intros need base H; simpl; [done|].
  destruct (0 <? need)%Z; [|done].
  apply IH. intros k m Hm. destruct (H k m Hm) as (b & Hb & Hle).
  rewrite lookup_alter. destruct (decide (aid = k)) as [->|].
  - rewrite Hb. simpl. eexists. split; [done | lia].
  - eauto.
Qed.

Lemma decrement_loop_floored (min_need : gmap Z Z) (order : list Z) (excess : Z)
    (base : gmap Z Z) :
  floored min_need base → floored min_need (decrement_loop min_need order excess base).
Proof.
  revert excess base. induction order as [|aid rest IH]; intros excess base H; simpl; [done|].
  destruct (0 <? excess)%Z; [|done].
  destruct (Z.ltb_spec (default 0%Z (min_need !! aid)) (default 0%Z (base !! aid)))
    as [Hlt|Hge]; [|by apply IH].
  apply IH. intros k m Hm. destruct (H k m Hm) as (b & Hb & Hle).
  rewrite lookup_alter. destruct (decide (aid = k)) as [->|].
  - rewrite Hb, Hm in *. simpl in *. eexists. split; [done | lia].
  - eauto.
Qed.

Lemma prepared_floored (agent_ids : list Z) (real : gmap Z Q)
    (survival_needs : option allocation) (enforce_min_survival : bool) :
  let st := prepared agent_ids real survival_needs enforce_min_survival in
  floored (min_need st) (base st).
Proof.
  intros st k m Hm. subst st.
  destruct (decide (k ∈ agent_ids)) as [Hk|Hk].
  - rewrite prepared_min_need in Hm by done. rewrite prepared_base by done.
    eexists. split; [done|]. injection Hm as <-. lia.
  - by rewrite prepared_min_need_None in Hm.
Qed.

Lemma integer_grain_floored (agent_ids : list Z) (d : allocation)
    (survival_needs : option allocation) (enforce_min_survival : bool) (k : Z) :
  k ∈ agent_ids →
  ∃ b, integer_grain agent_ids d survival_needs enforce_min_survival !! k = Some b
       ∧ ((if enforce_min_survival && truthy survival_needs
           then need_floor survival_needs k else 0) ≤ b)%Z.
Proof.
  intros Hk. unfold integer_grain.
  set (real := dict_comp _ agent_ids).
  pose proof (prepared_floored agent_ids real survival_needs enforce_min_survival) as Hfl.
  pose proof (prepared_min_need real survival_needs enforce_min_survival agent_ids k Hk)
    as Hm.
  simpl in Hfl.
  destruct (_ <? _)%Z; [|destruct (_ <? _)%Z].
  - by apply (increment_loop_floored _ _ _ _ Hfl).
  - by apply (decrement_loop_floored _ _ _ _ Hfl).
  - by apply Hfl.
Qed.

Lemma increment_loop_not_in (order : list Z) (need : Z) (base : gmap Z Z) (k : Z) :
  k ∉ order → increment_loop order need base !! k = base !! k.
Proof.
  revert need base. induction order as [|x order IH]; intros need base Hk; simpl; [done|].
  apply not_elem_of_cons in Hk as [Hx Hk].
  destruct (0 <? need)%Z; [|done].
  rewrite IH by done. by rewrite lookup_alter_ne.
Qed.

(** The first [need] agents of the order get one unit more. *)
Lemma increment_loop_lookup (order : list Z) (need : Z) (base : gmap Z Z)
    (i : nat) (k b : Z) :
  NoDup order → order !! i = Some k → base !! k = Some b →
  increment_loop order need base !! k
  = Some (b + (if (Z.of_nat i <? need)%Z then 1 else 0))%Z.
Proof.
  intros Hnd. revert need base i Hnd.
  induction order as [|x order IH]; intros need base i Hnd Hi Hb.
  { by rewrite lookup_nil in Hi. }
  apply NoDup_cons in Hnd as [Hx Hnd]. simpl.
  destruct (Z.ltb_spec 0 need) as [Hpos|Hneg].
  - destruct i as [|i]; simpl in Hi.
    + injection Hi as ->. rewrite increment_loop_not_in by done.
      rewrite lookup_alter_eq, Hb. simpl.
      destruct (Z.ltb_spec (Z.of_nat 0) need); [done | lia].
    + assert (Hne : x ≠ k).
      { intros ->. apply Hx. by apply list_elem_of_lookup_2 in Hi. }
      rewrite (IH (need - 1)%Z (alter (λ b, (b + 1)%Z) x base) i Hnd Hi);
        [|by rewrite lookup_alter_ne].
      do 2 f_equal.
      destruct (Z.ltb_spec (Z.of_nat i) (need - 1)), (Z.ltb_spec (Z.of_nat (S i)) need);
        lia.
  - rewrite Hb. destruct (Z.ltb_spec (Z.of_nat i) need); [lia|]. f_equal. lia.
Qed.

Lemma increment_loop_keys (order : list Z) (need : Z) (base : gmap Z Z) (k : Z) :
  is_Some (increment_loop order need base !! k) ↔ is_Some (base !! k).
Proof.
  revert need base. induction order as [|x order IH]; intros need base; simpl; [done|].
  destruct (0 <? need)%Z; [|done].
  rewrite IH, lookup_alter. destruct (decide (x = k)) as [->|]; [|done].
  by rewrite fmap_is_Some.
Qed.

(** With at most one unit per agent to hand out, the increment loop hands
    out all of them. *)
Lemma increment_loop_sum (order : list Z) (need : Z) (base : gmap Z Z) :
  (∀ k, k ∈ order → is_Some (base !! k)) →
  (0 ≤ need ≤ Z.of_nat (length order))%Z →
  sum_values_Z (increment_loop order need base) = (sum_values_Z base + need)%Z.
Proof.
  revert need base. induction order as [|k order IH]; intros need base Hkeys Hneed.
  { simpl in *. lia. }
  simpl. destruct (Z.ltb_spec 0 need) as [Hpos|Hzero]; [|lia].
  destruct (Hkeys k) as [b Hb]; [by left|].
  rewrite IH.
  - rewrite (sum_values_Z_alter _ _ _ b) by done. lia.
  - intros j Hj. rewrite lookup_alter. destruct (decide (k = j)) as [->|].
    + rewrite Hb. simpl. eauto.
    + apply Hkeys. by right.
  - cbn [length] in Hneed. lia.
Qed.

(** ** Integerization: what the assembled dictionary holds *)

Lemma assemble_lookup (base : gmap Z Z) (l : list Z) (out : allocation) (k : Z) :
  foldl (assemble_step base) out l !! k
  = if decide (k ∈ l)
    then Some (<["grain" := inject_Z (default 0%Z (base !! k))]> (default ∅ (out !! k)))
    else out !! k.
Proof.
  revert out. induction l as [|x l IH]; intros out; cbn [foldl].
  - case_decide as H; [by apply elem_of_nil in H | done].
  - rewrite IH. unfold assemble_step.
    destruct (decide (k = x)) as [->|Hne].
    + rewrite lookup_insert_eq. simpl. rewrite insert_insert_eq.
      rewrite (decide_True (P := x ∈ x :: l)) by (by left).
      by destruct (decide (x ∈ l)).
    + rewrite lookup_insert_ne by done.
      destruct (decide (k ∈ l)) as [Hl|Hl].
      * by rewrite (decide_True (P := k ∈ x :: l)) by (by right).
      * rewrite (decide_False (P := k ∈ x :: l)); [done|].
        by intros [?|?]%elem_of_cons.
Qed.

Lemma integerize_distribution_lookup (tr : resources) (agents : list agent)
    (d : allocation) (survival_needs : option allocation) (enforce : bool) (k : Z) :
  agents ≠ [] → size d ≠ 0%nat → k ∈ id <$> agents →
  integerize_distribution tr agents d survival_needs enforce !! k
  = Some (<["grain" := inject_Z (default 0%Z
            (integer_grain (id <$> agents) d survival_needs enforce !! k))]>
          (default ∅ (d !! k))).
Proof.
  intros Ha Hd Hk. unfold integerize_distribution.
  rewrite bool_decide_eq_false_2 by done.
  rewrite bool_decide_eq_false_2 by done. simpl.
  rewrite assemble_lookup, decide_True by done.
  by rewrite lookup_dict_comp, decide_True by done.
Qed.

Lemma integerize_distribution_early (tr : resources) (agents : list agent)
    (d : allocation) (survival_needs : option allocation) (enforce : bool) :
  agents = [] ∨ size d = 0%nat →
  integerize_distribution tr agents d survival_needs enforce = d.
Proof.
  intros H. unfold integerize_distribution.
  destruct H as [->| ->]; [done|].
  by rewrite orb_true_r.
Qed.

(** The grain entry of a listed agent, when the function does not return
    early. *)
Lemma integerize_distribution_grain (tr : resources) (agents : list agent)
    (d : allocation) (survival_needs : option allocation) (enforce : bool) (k : Z) :
  agents ≠ [] → size d ≠ 0%nat → k ∈ id <$> agents →
  entry (integerize_distribution tr agents d survival_needs enforce) k "grain"
  = Some (inject_Z (default 0%Z
            (integer_grain (id <$> agents) d survival_needs enforce !! k))).
Proof.
  intros Ha Hd Hk. unfold entry.
  rewrite integerize_distribution_lookup by done. simpl.
  by rewrite lookup_insert_eq.
Qed.

(** Every other entry of a listed agent is the input's. *)
Lemma integerize_distribution_other (tr : resources) (agents : list agent)
    (d : allocation) (survival_needs : option allocation) (enforce : bool)
    (k : Z) (r : string) :
  k ∈ id <$> agents → r ≠ "grain" →
  entry (integerize_distribution tr agents d survival_needs enforce) k r = entry d k r.
Proof.
  intros Hk Hr.
  destruct (decide (agents = [])) as [Ha|Ha].
  { by rewrite integerize_distribution_early by (by left). }
  destruct (decide (size d = 0%nat)) as [Hd|Hd].
  { by rewrite integerize_distribution_early by (by right). }
  unfold entry. rewrite integerize_distribution_lookup by done. simpl.
  rewrite lookup_insert_ne by done.
  by destruct (d !! k).
Qed.

Lemma need_floor_ceiling (survival_needs : allocation) (k : Z) :
  (Qceiling (get2 survival_needs k "grain")
   ≤ if truthy (Some survival_needs) then need_floor (Some survival_needs) k else 0)%Z.
Proof.
  unfold truthy. destruct (decide (size survival_needs = 0%nat)) as [Hs|Hs].
  - rewrite bool_decide_eq_true_2 by done. simpl.
    apply map_size_empty_iff in Hs. subst survival_needs.
    unfold get2. rewrite lookup_empty. simpl. rewrite lookup_empty. simpl.
    reflexivity.
  - rewrite bool_decide_eq_false_2 by done. simpl.
    unfold need_floor. simpl.
    destruct (Qlt_bool 0 _) eqn:E; [lia|].
    apply Qlt_bool_false in E.
    apply Qceiling_resp_le in E. exact E.
Qed.

(** ** Integerization: the survival floor (C3) *)

(** C3. With the floor enforced, [integerize_distribution] never returns,
    for an agent of the list, a grain value below the ceiling of that
    agent's survival need: neither the decrements nor the increments take
    an agent below its floor.  Whenever the input allocation is not empty
    the value is there, and it is an integer. *)
Theorem integerize_keeps_survival_floor (total_resources : resources)
    (agents : list agent) (distribution_result survival_needs : allocation) (a : agent) :
  a ∈ agents →
  let out := integerize_distribution total_resources agents distribution_result
               (Some survival_needs) true in
  let floor_a := Qceiling (get2 survival_needs (id a) "grain") in
  (size distribution_result ≠ 0%nat →
   ∃ b : Z, entry out (id a) "grain" = Some (inject_Z b) ∧ (floor_a ≤ b)%Z)
  ∧ (∀ g : Q, entry out (id a) "grain" = Some g → inject_Z floor_a <= g).
Proof.
  intros Ha out floor_a.
  assert (Hne : agents ≠ []) by (intros ->; by apply elem_of_nil in Ha).
  assert (Hk : id a ∈ id <$> agents) by (by apply list_elem_of_fmap_2).
  assert (Hmain : size distribution_result ≠ 0%nat →
          ∃ b : Z, entry out (id a) "grain" = Some (inject_Z b) ∧ (floor_a ≤ b)%Z).
  { intros Hd. subst out.
    rewrite integerize_distribution_grain by done.
    destruct (integer_grain_floored (id <$> agents) distribution_result
                (Some survival_needs) true (id a) Hk) as (b & Hb & Hle).
    rewrite Hb. simpl. exists b. split; [done|].
    pose proof (need_floor_ceiling survival_needs (id a)) as Hc.
    cbn [andb] in Hle. subst floor_a. lia. }
  split; [exact Hmain|].
  intros g Hg.
  destruct (decide (size distribution_result = 0%nat)) as [Hd|Hd].
  - subst out. rewrite integerize_distribution_early in Hg by (by right).
    apply map_size_empty_iff in Hd. subst distribution_result.
    unfold entry in Hg. by rewrite lookup_empty in Hg.
  - destruct (Hmain Hd) as (b & Hb & Hle).
    rewrite Hb in Hg. injection Hg as <-. by rewrite <- Zle_Qle.
Qed.

Lemma integerize_keeps_survival_floor_witness :
  household 2 pragmatic 3 3 ∈ two_agents
  ∧ (size floor_case_allocation ≠ 0%nat →
     ∃ b : Z,
       entry (integerize_distribution {["grain" := 10]} two_agents
                floor_case_allocation
                (Some floor_case_needs) true) 2 "grain"
       = Some (inject_Z b)
       ∧ (Qceiling (get2 floor_case_needs 2 "grain") ≤ b)%Z).
Proof.
  assert (H : household 2 pragmatic 3 3 ∈ two_agents).
  { apply list_elem_of_further, list_elem_of_here. }
  split; [exact H|].
  exact (proj1 (integerize_keeps_survival_floor {["grain" := 10]} two_agents
                  floor_case_allocation
                  floor_case_needs (household 2 pragmatic 3 3) H)).
Defined.

(** ** Integerization: only grain is rewritten (C10) *)

(** C10. For every agent of the list and every resource name other than
    ["grain"], the entry returned by [integerize_distribution] is the input
    entry, unchanged (present with the same value, or absent). *)
Theorem integerize_rewrites_only_grain (total_resources : resources)
    (agents : list agent) (distribution_result : allocation)
    (survival_needs : option allocation) (enforce_min_survival : bool)
    (a : agent) (resource_name : string) :
  a ∈ agents → resource_name ≠ "grain" →
  entry (integerize_distribution total_resources agents distribution_result
           survival_needs enforce_min_survival) (id a) resource_name
  = entry distribution_result (id a) resource_name.
Proof.
  intros Ha Hr. apply integerize_distribution_other; [|done].
  by apply list_elem_of_fmap_2.
Qed.

Lemma integerize_rewrites_only_grain_witness :
  household 1 merit_based 1 1 ∈ two_agents
  ∧ "tools" ≠ "grain"
  ∧ entry (integerize_distribution {["grain" := 10]} two_agents
             {[ 1%Z := {[ "grain" := 7#2; "tools" := 5#2 ]} ]} None false) 1 "tools"
    = entry {[ 1%Z := {[ "grain" := 7#2; "tools" := 5#2 ]} ]} 1 "tools".
Proof.
  assert (H : household 1 merit_based 1 1 ∈ two_agents) by apply list_elem_of_here.
  assert (Hr : "tools" ≠ "grain") by discriminate.
  split; [exact H|]. split; [exact Hr|].
  exact (integerize_rewrites_only_grain {["grain" := 10]} two_agents
           {[ 1%Z := {[ "grain" := 7#2; "tools" := 5#2 ]} ]} None false
           (household 1 merit_based 1 1) "tools" H Hr).
Defined.

(** ** Integerization: the total (C1) *)

Lemma integer_grain_sum (agent_ids : list Z) (d : allocation)
    (survival_needs : option allocation) (enforce : bool) :
  agent_ids ≠ [] → NoDup agent_ids →
  let value k := get2 d k "grain" in
  let floor_of k := if enforce && truthy survival_needs
                    then need_floor survival_needs k else 0%Z in
  let target := py_round (list_total (value <$> agent_ids)) in
  (foldr Z.add 0 ((λ k, Z.max (Qfloor (value k)) (floor_of k)) <$> agent_ids) ≤ target)%Z →
  sum_values_Z (integer_grain agent_ids d survival_needs enforce) = target
  ∧ (∀ k, is_Some (integer_grain agent_ids d survival_needs enforce !! k)
          ↔ k ∈ agent_ids).
Proof.
  intros Hne Hnd value floor_of target Hfit. unfold integer_grain.
  set (real := dict_comp (λ aid, get2 d aid "grain") agent_ids).
  set (st := prepared agent_ids real survival_needs enforce).
  assert (Hreal : ∀ k, k ∈ agent_ids → default 0 (real !! k) = value k).
  { intros k Hk. subst real. by rewrite lookup_dict_comp, decide_True. }
  assert (Hsum : py_round (sum_values real) = target).
  { apply py_round_comp. subst real. by rewrite sum_values_dict_comp. }
  assert (Hbase : sum_values_Z (base st)
                  = foldr Z.add 0%Z
                      ((λ k, Z.max (Qfloor (value k)) (floor_of k)) <$> agent_ids)).
  { subst st. rewrite prepared_base_dict, sum_values_Z_dict_comp by done.
    f_equal. apply list_fmap_ext. intros i k Hik.
    apply list_elem_of_lookup_2 in Hik. by rewrite Hreal. }
  rewrite Hsum, Hbase.
  set (base_sum := foldr Z.add 0%Z _) in *.
  assert (Hupper : (target ≤ base_sum + Z.of_nat (length agent_ids))%Z).
  { assert (Hfloors : (foldr Z.add 0 ((λ k, Qfloor (value k)) <$> agent_ids)
                       ≤ base_sum)%Z).
    { apply foldr_Zadd_le. intros k _. lia. }
    pose proof (py_round_le _ _ (list_total_below_floors value agent_ids Hne)).
    subst target. lia. }
  destruct (Z.ltb_spec base_sum target) as [Hlt|Hge].
  - split.
    + rewrite increment_loop_sum; [lia | |].
      * intros k Hk. apply prepared_base_keys.
        unfold sorted_desc in Hk. by rewrite sorted_by_perm in Hk.
      * unfold sorted_desc. rewrite sorted_by_length. lia.
    + intros k. rewrite increment_loop_keys. apply prepared_base_keys.
  - destruct (Z.ltb_spec target base_sum); [lia|].
    split; [lia | intros k; apply prepared_base_keys].
Qed.

(** The largest-remainder correction in the case the floors leave room for
    it: for distinct agents, when the floored values, raised to the survival
    floors, sum to at most the target [round(Σ values)], the grain amounts
    returned sum to the target exactly. *)
Theorem integerize_conserves_when_floors_fit (total_resources : resources)
    (agents : list agent) (distribution_result : allocation)
    (survival_needs : option allocation) (enforce_min_survival : bool) :
  agents ≠ [] → size distribution_result ≠ 0%nat → NoDup (id <$> agents) →
  let value a := get2 distribution_result (id a) "grain" in
  let floor_of a := if enforce_min_survival && truthy survival_needs
                    then need_floor survival_needs (id a) else 0%Z in
  let target := py_round (list_total (value <$> agents)) in
  (foldr Z.add 0 ((λ a, Z.max (Qfloor (value a)) (floor_of a)) <$> agents) ≤ target)%Z →
  list_total ((λ a, get2 (integerize_distribution total_resources agents
                            distribution_result survival_needs enforce_min_survival)
                         (id a) "grain") <$> agents)
  == inject_Z target.
Proof.
  intros Hne Hd Hnd value floor_of target Hfit.
  set (final := integer_grain (id <$> agents) distribution_result survival_needs
                  enforce_min_survival).
  destruct (integer_grain_sum (id <$> agents) distribution_result survival_needs
              enforce_min_survival) as [Hsum Hkeys].
  - by destruct agents.
  - done.
  - rewrite <- !list_fmap_compose. exact Hfit.
  - fold final in Hsum, Hkeys.
    rewrite <- list_fmap_compose in Hsum.
    assert (Htarget : sum_values_Z final = target) by exact Hsum. clear Hsum.
    rewrite (list_total_fmap_ext _ (λ a, inject_Z (default 0%Z (final !! id a)))).
    + rewrite <- (inject_Z_foldr_add (λ a, default 0%Z (final !! id a))).
      rewrite <- Htarget, (sum_values_Z_over_keys final (id <$> agents)) by done.
      by rewrite <- list_fmap_compose.
    + intros a Ha. unfold get2.
      rewrite integerize_distribution_lookup
        by (try done; by apply list_elem_of_fmap_2).
      simpl. by rewrite lookup_insert_eq.
Qed.

(** C1, at an input where the code misses it.  Two agents hold 10 and 0
    units of grain; the second has a survival need of 5.  The floors sum
    to 5, which is at most the target [round(10 + 0) = 10], so the claim
    promises a total of 10.  The floor raises the second agent to 5, the
    excess is 5, and the single pass of the decrement loop takes one unit
    from the first agent and none from the second, who sits on its floor:
    the function returns 9 and 5, a total of 14. *)
Theorem integerize_single_pass_misses_target :
  let d := floor_case_allocation in
  let needs := floor_case_needs in
  let out := integerize_distribution {["grain" := 10]} two_agents d (Some needs) true in
  (Qceiling (get2 needs 1 "grain") + Qceiling (get2 needs 2 "grain")
   ≤ py_round (total_allocated d))%Z
  ∧ py_round (total_allocated d) = 10%Z
  ∧ grain_column two_agents out = [Some 9; Some 5]
  ∧ total_allocated out == 14.
Proof. vm_compute. repeat split; congruence. Qed.

(** ** The Equal strategy (C5) *)



Lemma equal_distribution_unfold (total_resources : resources) (agents : list agent) :
  agents ≠ [] →
  equal_distribution total_resources agents
  = integerize_distribution total_resources agents
      (equal_shares total_resources agents) None false.
Proof.
  intros Hne. unfold equal_distribution.
  rewrite bool_decide_eq_false_2; [done|]. by destruct agents.
Qed.






(** The scenario of the specification: 90 units among three agents. *)
Example equal_distribution_90_among_3 :
  grain_column three_agents (equal_distribution {["grain" := 90]} three_agents)
  = [Some 30; Some 30; Some 30].
Proof. vm_compute. reflexivity. Qed.

(** ** Degenerate contribution (C6) *)

Lemma total_labor_force_zero (agents : list agent) :
  (∀ a, a ∈ agents → labor_force a = 0%Z) → total_labor_force agents = 0%Z.
Proof.
  unfold total_labor_force. generalize 0%Z at 2 3 as acc.
  induction agents as [|a agents IH]; intros acc H; simpl; [done|].
  rewrite (H a) by (by left). rewrite Z.add_0_r.
  apply IH. intros b Hb. apply H. by right.
Qed.

(** C6. When every agent has a labor force of 0, ContributionBased returns
    exactly what Equal returns on the same pool and agents, whatever the
    survival needs. *)
Theorem contribution_without_labor_is_equal (total_resources : resources)
    (agents : list agent) (minimum_survival_resources : option allocation) :
  (∀ a, a ∈ agents → labor_force a = 0%Z) →
  contribution_based_distribution total_resources agents minimum_survival_resources
  = equal_distribution total_resources agents.
Proof.
  intros H. unfold contribution_based_distribution.
  destruct agents as [|a agents]; [done|].
  rewrite bool_decide_eq_false_2 by done.
  by rewrite (total_labor_force_zero _ H).
Qed.

Lemma contribution_without_labor_is_equal_witness :
  (∀ a, a ∈ [household 1 egalitarian 3 0; household 2 altruistic 2 0] →
        labor_force a = 0%Z)
  ∧ contribution_based_distribution {["grain" := 90]}
      [household 1 egalitarian 3 0; household 2 altruistic 2 0] None
    = equal_distribution {["grain" := 90]}
        [household 1 egalitarian 3 0; household 2 altruistic 2 0].
Proof.
  assert (H : ∀ a, a ∈ [household 1 egalitarian 3 0; household 2 altruistic 2 0] →
                   labor_force a = 0%Z).
  { intros a Ha. each_listed Ha ltac:(reflexivity). }
  split; [exact H|].
  exact (contribution_without_labor_is_equal _ _ None H).
Defined.

(** ** Conservation before integerization (C2) *)

(** *** Equal *)

Lemma equal_shares_total (total_resources : resources) (agents : list agent) :
  agents ≠ [] → NoDup (id <$> agents) →
  total_allocated (equal_shares total_resources agents) == pool_total total_resources.
Proof.
  intros Hne Hnd. unfold equal_shares, pool_total.
  rewrite (total_allocated_rows
             (λ _, (λ amount, amount / num_families agents) <$> total_resources))
    by done.
  rewrite (list_total_fmap_ext _ (λ _, sum_values total_resources * / num_families agents)).
  - rewrite list_total_fmap_const. fold (num_families agents).
    field. pose proof (inject_Z_length_pos agents Hne). unfold num_families. lra.
  - intros a _. apply (sum_values_scale total_resources (/ num_families agents)).
Qed.

(** *** ContributionBased *)

Lemma list_total_labor (agents : list agent) :
  list_total ((λ a, inject_Z (labor_force a)) <$> agents)
  == inject_Z (total_labor_force agents).
Proof.
  unfold total_labor_force.
  assert (G : ∀ l acc,
            inject_Z (foldl (λ acc a, (acc + labor_force a)%Z) acc l)
            == inject_Z acc + list_total ((λ a, inject_Z (labor_force a)) <$> l)).
  { induction l as [|a l IH]; intros acc; [simpl; lra|].
    cbn [foldl]. rewrite IH, fmap_cons, list_total_cons, inject_Z_plus. lra. }
  rewrite G. change (inject_Z 0) with 0. lra.
Qed.

Lemma labor_proportion_total (agents : list agent) :
  (0 < total_labor_force agents)%Z →
  list_total (labor_proportion (total_labor_force agents) <$> agents) == 1.
Proof.
  intros Hpos. unfold labor_proportion.
  destruct (Z.ltb_spec 0 (total_labor_force agents)); [|lia].
  rewrite (list_total_fmap_scale (λ a, inject_Z (labor_force a))
             (/ inject_Z (total_labor_force agents))).
  rewrite list_total_labor. field.
  change 0 with (inject_Z 0). rewrite inject_Z_injective. lia.
Qed.

(** The needs handed out to the listed agents are all the needs there are,
    when the need map lists no one else. *)
Lemma listed_needs_total (h : resources → Q) (needs : allocation) (agents : list agent) :
  NoDup (id <$> agents) →
  (∀ k, is_Some (needs !! k) → k ∈ id <$> agents) →
  list_total ((λ a, from_option h 0 (needs !! id a)) <$> agents)
  == list_total (h ∘ snd <$> map_to_list needs).
Proof.
  revert needs. induction agents as [|a agents IH]; intros needs Hnd Hdom.
  - assert (E : needs = ∅).
    { apply map_eq. intros k. rewrite lookup_empty.
      destruct (needs !! k) eqn:Hk; [|done].
      assert (Hin : k ∈ id <$> []) by (apply Hdom; eauto).
      by apply elem_of_nil in Hin. }
    subst needs. by rewrite map_to_list_empty.
  - rewrite fmap_cons in Hnd. apply NoDup_cons in Hnd as [Ha Hnd].
    rewrite fmap_cons, list_total_cons.
    rewrite (list_total_fmap_ext _ (λ b, from_option h 0 (delete (id a) needs !! id b))).
    + rewrite IH; [|done|].
      * destruct (needs !! id a) as [row|] eqn:Hrow; simpl.
        -- rewrite <- (insert_delete_id needs (id a) row) at 2 by done.
           rewrite (list_total_perm _ _
                      (fmap_Permutation (h ∘ snd) _ _
                         (map_to_list_insert _ _ _ (lookup_delete_eq needs (id a))))).
           rewrite fmap_cons, list_total_cons. simpl. lra.
        -- rewrite delete_id by done. lra.
      * intros k [row Hk]. apply lookup_delete_Some in Hk as [Hne Hk].
        assert (Hin : k ∈ id <$> a :: agents) by (apply Hdom; eauto).
        rewrite fmap_cons in Hin. by apply elem_of_cons in Hin as [?|?].
    + intros b Hb. rewrite lookup_delete_ne; [reflexivity|].
      intros E. apply Ha. rewrite E. by apply list_elem_of_fmap_2.
Qed.

Lemma base_survival_total (needs : option allocation) (agents : list agent) (r : string) :
  NoDup (id <$> agents) →
  (∀ k, is_Some (default ∅ needs !! k) → k ∈ id <$> agents) →
  list_total ((λ a, base_survival_amount needs (id a) r) <$> agents)
  == survival_resources_total needs r.
Proof.
  intros Hnd Hdom. unfold base_survival_amount, survival_resources_total.
  destruct (truthy needs).
  - rewrite map_fold_foldr.
    rewrite (foldr_sum_values (λ row : resources, default 0 (row !! r))).
    rewrite <- (listed_needs_total (λ row : resources, default 0 (row !! r))) by done.
    apply list_total_fmap_ext. intros a _.
    by destruct (default ∅ needs !! id a).
  - rewrite list_total_fmap_const. lra.
Qed.

Lemma contribution_resource_step_total (agents : list agent) (needs : option allocation)
    (r : string) (amount : Q) (d : allocation) :
  NoDup (id <$> agents) → (0 < total_labor_force agents)%Z →
  (∀ k, is_Some (default ∅ needs !! k) → k ∈ id <$> agents) →
  survival_resources_total needs r <= amount →
  (∀ k, entry d k r = None) →
  total_allocated (contribution_resource_step agents needs r amount d)
  == total_allocated d + amount.
Proof.
  intros Hnd Hlabor Hdom Hgood Hfresh. unfold contribution_resource_step.
  set (dist := py_max 0 (amount - survival_resources_total needs r)).
  change (foldl _ d agents)
    with (foldl (λ d a, set_cell d (id a) r
                          (base_survival_amount needs (id a) r
                           + labor_proportion (total_labor_force agents) a * dist))
                d agents).
  rewrite foldl_set_cell_total by done.
  rewrite (list_total_fmap_plus (λ a, base_survival_amount needs (id a) r)
             (λ a, labor_proportion (total_labor_force agents) a * dist)).
  rewrite base_survival_total by done.
  rewrite (list_total_fmap_scale (labor_proportion (total_labor_force agents)) dist).
  rewrite labor_proportion_total by done.
  assert (E : dist == amount - survival_resources_total needs r).
  { subst dist. unfold py_max.
    destruct (Qlt_bool 0 _) eqn:B; [reflexivity|].
    apply Qlt_bool_false in B. lra. }
  rewrite E. lra.
Qed.

Lemma contribution_resource_step_entry (agents : list agent) (needs : option allocation)
    (r : string) (amount : Q) (d : allocation) (k : Z) (r' : string) :
  r' ≠ r →
  entry (contribution_resource_step agents needs r amount d) k r' = entry d k r'.
Proof.
  intros Hr. unfold contribution_resource_step.
  set (dist := py_max 0 (amount - survival_resources_total needs r)).
  change (foldl _ d agents)
    with (foldl (λ d a, set_cell d (id a) r
                          (base_survival_amount needs (id a) r
                           + labor_proportion (total_labor_force agents) a * dist))
                d agents).
  by apply foldl_set_cell_entry.
Qed.

Lemma contribution_shares_total (total_resources : resources) (agents : list agent)
    (needs : option allocation) :
  NoDup (id <$> agents) → (0 < total_labor_force agents)%Z →
  (∀ k, is_Some (default ∅ needs !! k) → k ∈ id <$> agents) →
  (∀ r amount, total_resources !! r = Some amount →
               survival_resources_total needs r <= amount) →
  total_allocated (contribution_shares total_resources agents needs)
  == pool_total total_resources.
Proof.
  intros Hnd Hlabor Hdom. unfold contribution_shares, pool_total.
  apply (map_fold_weak_ind
    (λ (d : allocation) (m : resources),
       (∀ r amount, m !! r = Some amount → survival_resources_total needs r <= amount) →
       (∀ k r, m !! r = None → entry d k r = None)
       ∧ total_allocated d == sum_values m)).
  - intros _. split; [|by rewrite total_allocated_empty, sum_values_empty].
    intros k r _. unfold entry. by rewrite lookup_empty.
  - intros r amount m d Hr IH Hgood.
    destruct IH as [Hfresh Htot].
    { intros r' amount' H'. apply Hgood. rewrite lookup_insert_ne; [done|].
      intros ->. congruence. }
    split.
    + intros k r' Hr'. apply lookup_insert_None in Hr' as [Hr' Hne].
      rewrite contribution_resource_step_entry by done. by apply Hfresh.
    + rewrite contribution_resource_step_total; try done.
      * rewrite Htot, sum_values_insert by done. lra.
      * apply Hgood. by rewrite lookup_insert_eq.
      * intros k. by apply Hfresh.
Qed.

(** *** NeedsBased: the basic and the additional share *)

Lemma list_total_members (agents : list agent) :
  list_total ((λ a, inject_Z (members a)) <$> agents)
  == inject_Z (total_members agents).
Proof.
  unfold total_members.
  assert (G : ∀ l acc,
            inject_Z (foldl (λ acc a, (acc + members a)%Z) acc l)
            == inject_Z acc + list_total ((λ a, inject_Z (members a)) <$> l)).
  { induction l as [|a l IH]; intros acc; [simpl; lra|].
    cbn [foldl]. rewrite IH, fmap_cons, list_total_cons, inject_Z_plus. lra. }
  rewrite G. change (inject_Z 0) with 0. lra.
Qed.

Lemma total_members_pos (agents : list agent) :
  agents ≠ [] → (∀ a, a ∈ agents → (0 < members a)%Z) → (0 < total_members agents)%Z.
Proof.
  intros Hne Hpos. unfold total_members.
  assert (G : ∀ l acc, (∀ a, a ∈ l → (0 < members a)%Z) →
            (acc ≤ foldl (λ acc a, (acc + members a)%Z) acc l)%Z
            ∧ (l ≠ [] → (acc < foldl (λ acc a, (acc + members a)%Z) acc l)%Z)).
  { induction l as [|a l IH]; intros acc H; simpl; [split; [lia | done]|].
    destruct (IH (acc + members a)%Z) as [IH1 _].
    { intros b Hb. apply H. by right. }
    pose proof (H a ltac:(by left)). split; [lia | intros _; lia]. }
  by apply G.
Qed.

Lemma labor_density_members (a : agent) :
  (0 < members a)%Z →
  labor_density a = inject_Z (labor_force a) / inject_Z (members a).
Proof. intros H. unfold labor_density. by destruct (Z.ltb_spec 0 (members a)); [|lia]. Qed.

Lemma total_special_need_weight_list (agents : list agent) :
  (∀ a, a ∈ agents → (0 < members a)%Z) →
  total_special_need_weight agents == list_total (special_need_weight <$> agents).
Proof.
  intros Hpos. unfold total_special_need_weight.
  assert (G : ∀ l acc, (∀ a, a ∈ l → (0 < members a)%Z) →
            foldl (λ acc a,
                     let q := inject_Z (labor_force a) / inject_Z (members a) in
                     acc + (if Qlt_bool q (1#2) then ((1#2) - q) * 2 else 0)) acc l
            == acc + list_total (special_need_weight <$> l)).
  { induction l as [|a l IH]; intros acc H; [simpl; lra|].
    cbn [foldl]. rewrite IH by (intros b Hb; apply H; by right).
    rewrite fmap_cons, list_total_cons. unfold special_need_weight at 2.
    rewrite labor_density_members by (apply H; by left). cbv zeta. lra. }
  rewrite G by done. lra.
Qed.

Lemma total_share_total (agents : list agent) :
  agents ≠ [] → (∀ a, a ∈ agents → (0 < members a)%Z) →
  (0 < total_labor_force agents)%Z → 0 < total_special_need_weight agents →
  list_total (total_share agents <$> agents) == 1.
Proof.
  intros Hne Hpos Hlabor Hspecial.
  pose proof (total_members_pos agents Hne Hpos) as Hmembers.
  set (cM := / inject_Z (total_members agents) * (50#100)).
  set (cL := / inject_Z (total_labor_force agents) * (30#100)).
  set (cW := / total_special_need_weight agents * (20#100)).
  rewrite (list_total_fmap_ext _
             (λ a, inject_Z (members a) * cM
                   + (inject_Z (labor_force a) * cL + special_need_weight a * cW))).
  - rewrite (list_total_fmap_plus (λ a, inject_Z (members a) * cM)).
    rewrite (list_total_fmap_plus (λ a, inject_Z (labor_force a) * cL)).
    rewrite (list_total_fmap_scale (λ a, inject_Z (members a)) cM).
    rewrite (list_total_fmap_scale (λ a, inject_Z (labor_force a)) cL).
    rewrite (list_total_fmap_scale special_need_weight cW).
    rewrite list_total_members, list_total_labor.
    rewrite <- total_special_need_weight_list by done.
    subst cM cL cW. field.
    assert (¬ inject_Z (total_labor_force agents) == 0).
    { change 0 with (inject_Z 0). rewrite inject_Z_injective. lia. }
    assert (¬ inject_Z (total_members agents) == 0).
    { change 0 with (inject_Z 0). rewrite inject_Z_injective. lia. }
    repeat split; try done. lra.
  - intros a _. unfold total_share.
    destruct (Z.ltb_spec 0 (total_members agents)); [|lia].
    destruct (Z.ltb_spec 0 (total_labor_force agents)); [|lia].
    apply Qlt_bool_true in Hspecial. rewrite Hspecial.
    subst cM cL cW. unfold Qdiv. ring.
Qed.

Lemma needs_based_resource_step_total (agents : list agent) (r : string) (amount : Q)
    (d : allocation) :
  agents ≠ [] → NoDup (id <$> agents) → (∀ a, a ∈ agents → (0 < members a)%Z) →
  (0 < total_labor_force agents)%Z → 0 < total_special_need_weight agents →
  (∀ k, entry d k r = None) →
  total_allocated (needs_based_resource_step agents r amount d)
  == total_allocated d + amount.
Proof.
  intros Hne Hnd Hpos Hlabor Hspecial Hfresh. unfold needs_based_resource_step.
  pose proof (total_members_pos agents Hne Hpos) as Hmembers.
  rewrite (foldl_add_cell_total id (λ a, amount * (30#100) * total_share agents a)).
  - rewrite foldl_set_cell_total by done.
    rewrite (list_total_fmap_ext
               (λ a, amount * (70#100)
                     * (inject_Z (members a) / inject_Z (total_members agents)))
               (λ a, inject_Z (members a)
                     * (amount * (70#100) * / inject_Z (total_members agents))))
      by (intros a _; unfold Qdiv; ring).
    rewrite (list_total_fmap_scale (λ a, inject_Z (members a))).
    rewrite list_total_members.
    rewrite (list_total_fmap_ext
               (λ a, amount * (30#100) * total_share agents a)
               (λ a, total_share agents a * (amount * (30#100))))
      by (intros a _; ring).
    rewrite (list_total_fmap_scale (total_share agents)).
    rewrite total_share_total by done.
    field. change 0 with (inject_Z 0). rewrite inject_Z_injective. lia.
  - intros a Ha. by apply foldl_set_cell_entry_in.
Qed.

Lemma needs_based_resource_step_entry (agents : list agent) (r : string) (amount : Q)
    (d : allocation) (k : Z) (r' : string) :
  (r' ≠ r → entry d k r' = None →
   entry (needs_based_resource_step agents r amount d) k r' = None)
  ∧ (is_Some (entry d k r') →
     is_Some (entry (needs_based_resource_step agents r amount d) k r'))
  ∧ (k ∈ id <$> agents →
     is_Some (entry (needs_based_resource_step agents r amount d) k r)).
Proof.
  unfold needs_based_resource_step. split; [|split].
  - intros Hr H. apply foldl_add_cell_None. by rewrite foldl_set_cell_entry.
  - intros H. by apply foldl_add_cell_is_Some, foldl_set_cell_is_Some.
  - intros Hk. apply list_elem_of_fmap in Hk as (a & -> & Ha).
    by apply foldl_add_cell_is_Some, foldl_set_cell_entry_in.
Qed.

(** *** NeedsBased: the per-capita floor moves grain, it creates none *)

Lemma needs_based_floor_step_total (agents : list agent) (total_resources : resources)
    (r : string) (d : allocation) :
  (∀ a, a ∈ agents → (0 < members a)%Z) →
  (∀ a, a ∈ agents → is_Some (entry d (id a) r)) →
  ∃ d', needs_based_floor_step agents total_resources r (Ok d) = Ok d'
        ∧ total_allocated d' == total_allocated d
        ∧ (∀ k r', is_Some (entry d k r') → is_Some (entry d' k r')).
Proof.
  intros Hpos Hcells. unfold needs_based_floor_step. cbn [mbind result_bind].
  set (adjustments := omap _ agents).
  destruct (decide (adjustments = [])) as [Hadj|Hadj].
  { rewrite bool_decide_eq_true_2 by done. exists d. split; [done|]. split; [lra|done]. }
  rewrite bool_decide_eq_false_2 by done.
  set (total_shortage := foldl _ 0 adjustments).
  set (donors := omap _ agents).
  set (total_surplus := foldl _ 0 donors).
  destruct (Qlt_bool 0 total_surplus) eqn:Hsur.
  2:{ exists d. split; [done|]. split; [lra|done]. }
  apply Qlt_bool_true in Hsur.
  assert (Hkey_adj : ∀ adj, adj ∈ adjustments → ∃ a, a ∈ agents ∧ adj.1 = id a ∧ 0 < adj.2).
  { intros adj Hin. subst adjustments.
    apply list_elem_of_omap in Hin as (a & Ha & Hf).
    exists a. split; [done|].
    destruct (Qlt_bool _ _) eqn:Hlt in Hf; [|done].
    injection Hf as <-. simpl. split; [done|].
    apply Qlt_bool_true in Hlt.
    apply Qmult_lt_0_compat; [lra|].
    change 0 with (inject_Z 0). rewrite <- Zlt_Qlt. by apply Hpos. }
  assert (Hkey_don : ∀ donor, donor ∈ donors → ∃ a, a ∈ agents ∧ donor.1 = id a).
  { intros donor Hin. subst donors.
    apply list_elem_of_omap in Hin as (a & Ha & Hf).
    exists a. split; [done|].
    destruct (Qlt_bool _ _) in Hf; [|done]. by injection Hf as <-. }
  assert (Hshort : total_shortage == list_total (snd <$> adjustments)).
  { subst total_shortage. rewrite (foldl_plus_list_total snd). lra. }
  assert (Hsurplus : total_surplus == list_total (snd <$> donors)).
  { subst total_surplus. rewrite (foldl_plus_list_total snd). lra. }
  assert (Hshort_pos : 0 < total_shortage).
  { rewrite Hshort. apply list_total_pos.
    - destruct adjustments; [done | by rewrite fmap_cons].
    - intros x Hx. apply list_elem_of_fmap in Hx as (adj & -> & Hin).
      by destruct (Hkey_adj adj Hin) as (_ & _ & _ & H). }
  rewrite Qeq_bool_false by lra.
  set (moved := py_min total_surplus total_shortage).
  eexists. split; [reflexivity|]. split.
  - rewrite (foldl_add_cell_total fst (λ donor, - (donor.2 / total_surplus * moved))).
    + rewrite (foldl_add_cell_total fst (λ adj, adj.2 / total_shortage * moved)).
      * rewrite (list_total_fmap_ext (λ adj : Z * Q, adj.2 / total_shortage * moved)
                   (λ adj, adj.2 * (/ total_shortage * moved)))
          by (intros; unfold Qdiv; ring).
        rewrite (list_total_fmap_ext (λ donor : Z * Q, - (donor.2 / total_surplus * moved))
                   (λ donor, donor.2 * (- (/ total_surplus * moved))))
          by (intros; unfold Qdiv; ring).
        rewrite (list_total_fmap_scale snd), (list_total_fmap_scale snd).
        rewrite <- Hshort, <- Hsurplus. field. split; lra.
      * intros adj Hin. destruct (Hkey_adj adj Hin) as (a & Ha & -> & _).
        by apply Hcells.
    + intros donor Hin. destruct (Hkey_don donor Hin) as (a & Ha & ->).
      by apply foldl_add_cell_is_Some, Hcells.
  - intros k r' H. by do 2 apply foldl_add_cell_is_Some.
Qed.

Lemma needs_based_shares_total (total_resources : resources) (agents : list agent) :
  agents ≠ [] → NoDup (id <$> agents) → (∀ a, a ∈ agents → (0 < members a)%Z) →
  (0 < total_labor_force agents)%Z → 0 < total_special_need_weight agents →
  ∃ d, needs_based_shares total_resources agents = Ok d
       ∧ total_allocated d == pool_total total_resources.
Proof.
  intros Hne Hnd Hpos Hlabor Hspecial. unfold needs_based_shares, pool_total.
  destruct (decide (size total_resources = 0%nat)) as [Hsize|Hsize].
  { rewrite bool_decide_eq_true_2 by done. exists ∅. split; [done|].
    apply map_size_empty_iff in Hsize. subst total_resources.
    by rewrite total_allocated_empty, sum_values_empty. }
  rewrite bool_decide_eq_false_2 by done.
  assert (Hex : existsb (λ a, (members a =? 0)%Z) agents = false).
  { apply not_true_is_false. intros Hany.
    apply existsb_exists in Hany as (a & Ha & Hz).
    apply list_elem_of_In in Ha. pose proof (Hpos a Ha). lia. }
  rewrite Hex.
  pose proof (total_members_pos agents Hne Hpos) as Hmembers.
  destruct (Z.leb_spec (total_members agents) 0); [lia|].
  (* the first two stages *)
  set (d := map_fold (needs_based_resource_step agents) ∅ total_resources).
  assert (Hd : (∀ k r, total_resources !! r = None → entry d k r = None)
               ∧ (∀ k r, k ∈ id <$> agents → is_Some (total_resources !! r) →
                         is_Some (entry d k r))
               ∧ total_allocated d == sum_values total_resources).
  { subst d.
    apply (map_fold_weak_ind
      (λ (d : allocation) (m : resources),
         (∀ k r, m !! r = None → entry d k r = None)
         ∧ (∀ k r, k ∈ id <$> agents → is_Some (m !! r) → is_Some (entry d k r))
         ∧ total_allocated d == sum_values m)).
    - split; [|split].
      + intros k r _. unfold entry. by rewrite lookup_empty.
      + intros k r _ [v Hv]. by rewrite lookup_empty in Hv.
      + by rewrite total_allocated_empty, sum_values_empty.
    - intros r amount m d Hr (Hfresh & Hsome & Htot).
      pose proof (needs_based_resource_step_entry agents r amount d) as Hentry.
      split; [|split].
      + intros k r' Hr'. apply lookup_insert_None in Hr' as [Hr' Hne'].
        apply Hentry; [done | by apply Hfresh].
      + intros k r' Hk Hr'. destruct (decide (r = r')) as [<-|Hne'].
        * by apply Hentry.
        * rewrite lookup_insert_ne in Hr' by done. apply Hentry. by apply Hsome.
      + rewrite needs_based_resource_step_total by (try done; intros; by apply Hfresh).
        rewrite Htot, sum_values_insert by done. lra. }
  destruct Hd as (_ & Hsome & Htot).
  (* the floor pass, resource by resource *)
  cut (∃ d', map_fold (λ resource_name _,
                         needs_based_floor_step agents total_resources resource_name)
                      (Ok d) total_resources = Ok d'
             ∧ total_allocated d' == total_allocated d
             ∧ (∀ k r, is_Some (entry d k r) → is_Some (entry d' k r))).
  { intros (d' & E & Ht & _). exists d'. split; [done|]. by rewrite Ht. }
  cut ((∀ r, is_Some (total_resources !! r) → is_Some (total_resources !! r)) →
       ∃ d', map_fold (λ resource_name _,
                         needs_based_floor_step agents total_resources resource_name)
                      (Ok d) total_resources = Ok d'
             ∧ total_allocated d' == total_allocated d
             ∧ (∀ k r, is_Some (entry d k r) → is_Some (entry d' k r))).
  { intros Hcut. by apply Hcut. }
  generalize total_resources at 1 4 as m.
  intros m.
  apply (map_fold_weak_ind
    (λ (st : result allocation) (m : resources),
       (∀ r, is_Some (m !! r) → is_Some (total_resources !! r)) →
       ∃ d', st = Ok d' ∧ total_allocated d' == total_allocated d
             ∧ (∀ k r, is_Some (entry d k r) → is_Some (entry d' k r)))).
  - intros _. exists d. split; [done|]. split; [lra|done].
  - intros r amount m' st Hr IH Hsub.
    destruct IH as (d1 & -> & Ht1 & Hs1).
    { intros r' Hr'. apply Hsub. rewrite lookup_insert_ne; [done|].
      intros ->. rewrite Hr in Hr'. by destruct Hr'. }
    destruct (needs_based_floor_step_total agents total_resources r d1 Hpos)
      as (d2 & E & Ht2 & Hs2).
    { intros a Ha. apply Hs1, Hsome; [by apply list_elem_of_fmap_2|].
      apply Hsub. rewrite lookup_insert_eq. eauto. }
    exists d2. split; [done|]. split; [by rewrite Ht2|].
    intros k r' Hin. by apply Hs2, Hs1.
Qed.

(** *** The strategies together *)

(** C2 (amended).  For every non-empty list of agents with distinct ids
    and every pool, the allocation a strategy builds before it integerizes
    has a grand total equal to the pool total, exactly,
    - for Equal, always;
    - for ContributionBased, when the total labor force is positive, the
      survival needs are those of listed agents and, resource by resource,
      they sum to at most the amount in the pool;
    - for NeedsBased, when every household has members, the total labor
      force is positive and some household has a labor density below 1/2.
    Nothing is promised for Altruistic and Pragmatic. *)
Theorem strategies_conserve_before_integerization (total_resources : resources)
    (agents : list agent) :
  agents ≠ [] → NoDup (id <$> agents) →
  (equal_distribution total_resources agents
   = integerize_distribution total_resources agents
       (equal_shares total_resources agents) None false
   ∧ total_allocated (equal_shares total_resources agents) == pool_total total_resources)
  ∧ (∀ needs : option allocation,
       (0 < total_labor_force agents)%Z →
       (∀ k, is_Some (default ∅ needs !! k) → k ∈ id <$> agents) →
       (∀ r amount, total_resources !! r = Some amount →
                    survival_resources_total needs r <= amount) →
       contribution_based_distribution total_resources agents needs
       = integerize_distribution total_resources agents
           (contribution_shares total_resources agents needs) needs false
       ∧ total_allocated (contribution_shares total_resources agents needs)
         == pool_total total_resources)
  ∧ ((∀ a, a ∈ agents → (0 < members a)%Z) →
     (0 < total_labor_force agents)%Z →
     0 < total_special_need_weight agents →
     ∃ d, needs_based_shares total_resources agents = Ok d
          ∧ (∀ needs : allocation, size needs ≠ 0%nat →
               needs_based_distribution total_resources agents needs
               = Ok (integerize_distribution total_resources agents d (Some needs) true))
          ∧ total_allocated d == pool_total total_resources).
Proof.
  intros Hne Hnd. split; [|split].
  - split; [by apply equal_distribution_unfold | by apply equal_shares_total].
  - intros needs Hlabor Hdom Hgood. split; [|by apply contribution_shares_total].
    unfold contribution_based_distribution.
    rewrite bool_decide_eq_false_2 by done.
    by destruct (Z.eqb_spec (total_labor_force agents) 0); [lia|].
  - intros Hpos Hlabor Hspecial.
    destruct (needs_based_shares_total total_resources agents Hne Hnd Hpos Hlabor Hspecial)
      as (d & Hd & Htot).
    exists d. split; [done|]. split; [|done].
    intros needs Hneeds. unfold needs_based_distribution.
    rewrite bool_decide_eq_false_2 by done.
    rewrite bool_decide_eq_false_2 by done. simpl. by rewrite Hd.
Qed.

Lemma three_needs_listed (k : Z) :
  is_Some (default ∅ (Some three_needs) !! k) → k ∈ id <$> three_agents.
Proof.
  simpl. unfold three_needs. intros [row Hrow].
  destruct (decide (k = 1%Z)) as [->|H1]; [compute_done|].
  destruct (decide (k = 2%Z)) as [->|H2]; [compute_done|].
  destruct (decide (k = 3%Z)) as [->|H3]; [compute_done|].
  by rewrite !lookup_insert_ne, lookup_empty in Hrow.
Qed.

Lemma three_needs_covered (r : string) (amount : Q) :
  ({["grain" := 90]} : resources) !! r = Some amount →
  survival_resources_total (Some three_needs) r <= amount.
Proof.
  intros H. destruct (decide (r = "grain")) as [->|Hr].
  - rewrite lookup_singleton_eq in H. injection H as <-. vm_compute. discriminate.
  - by rewrite lookup_singleton_ne in H.
Qed.

Lemma three_agents_have_members (a : agent) : a ∈ three_agents → (0 < members a)%Z.
Proof.
  unfold three_agents. intros Ha. each_listed Ha ltac:(reflexivity).
Qed.

Lemma strategies_conserve_before_integerization_witness :
  three_agents ≠ []
  ∧ NoDup (id <$> three_agents)
  ∧ total_allocated (equal_shares {["grain" := 90]} three_agents)
    == pool_total {["grain" := 90]}
  ∧ (0 < total_labor_force three_agents)%Z
  ∧ total_allocated (contribution_shares {["grain" := 90]} three_agents (Some three_needs))
    == pool_total {["grain" := 90]}
  ∧ 0 < total_special_need_weight three_agents
  ∧ ∃ d, needs_based_shares {["grain" := 90]} three_agents = Ok d
         ∧ total_allocated d == pool_total {["grain" := 90]}.
Proof.
  assert (H1 : three_agents ≠ []) by discriminate.
  assert (H2 : NoDup (id <$> three_agents)) by compute_done.
  assert (H3 : (0 < total_labor_force three_agents)%Z) by reflexivity.
  assert (H4 : 0 < total_special_need_weight three_agents) by (vm_compute; reflexivity).
  pose proof (strategies_conserve_before_integerization {["grain" := 90]} three_agents
                H1 H2) as ((_ & Hequal) & Hcontribution & Hneeds).
  destruct (Hcontribution (Some three_needs) H3 three_needs_listed three_needs_covered)
    as (_ & Hc).
  destruct (Hneeds three_agents_have_members H3 H4) as (d & Hd & _ & Ht).
  split; [exact H1|]. split; [exact H2|]. split; [exact Hequal|].
  split; [exact H3|]. split; [exact Hc|]. split; [exact H4|].
  exists d. split; [exact Hd | exact Ht].
Defined.

(** The claim as written fails for ContributionBased when the survival
    needs exceed the pool: with 10 units of grain and two needs of 10, the
    guard [max(0, ·)] leaves nothing to distribute by labor, every agent
    still receives its need, and 20 units are handed out. *)
Lemma contribution_hands_out_more_than_pool :
  two_agents ≠ []
  ∧ total_allocated (contribution_shares {["grain" := 10]} two_agents (Some two_needs))
    == 20
  ∧ pool_total {["grain" := 10]} == 10
  ∧ ¬ Qabs (total_allocated (contribution_shares {["grain" := 10]} two_agents
                               (Some two_needs))
            - pool_total {["grain" := 10]}) <= 1 # 1000000.
Proof.
  split; [discriminate|].
  split; [vm_compute; reflexivity|].
  split; [vm_compute; reflexivity|].
  vm_compute. intros H. by apply H.
Qed.

(** Altruistic: every agent takes its share of what is left at that
    moment, so a part of the pool stays undistributed: 75 of 100 units. *)
Example altruistic_leaves_grain_undistributed :
  ∃ d, altruistic_distribution {["grain" := 100]} two_agents ∅ = Ok d
       ∧ get2 d 1 "grain" == 50 ∧ get2 d 2 "grain" == 25
       ∧ total_allocated d == 75.
Proof. eexists. split; [vm_compute; reflexivity|]. repeat split. Qed.

(** Altruistic with a household without labor force: the infinite
    dependency ratio meets an infinite sum, and the amounts the code
    returns are NaN. *)
Example altruistic_without_labor_force :
  altruistic_distribution {["grain" := 100]} three_agents three_needs = Raise FloatNaN.
Proof. vm_compute. reflexivity. Qed.

(** NeedsBased without a household of low labor density: the 20%% weight
    of the special needs is given to no one, 94 of 100 units are handed
    out. *)
Example needs_based_leaves_grain_undistributed :
  ∃ d, needs_based_shares {["grain" := 100]} two_agents = Ok d
       ∧ total_allocated d == 94.
Proof. eexists. split; [vm_compute; reflexivity|]. vm_compute; reflexivity. Qed.

(** Pragmatic blends the three integerized allocations. *)
Example pragmatic_leaves_grain_undistributed :
  ∃ d, pragmatic_distribution {["grain" := 100]} two_agents two_needs = Ok d
       ∧ total_allocated d == 488 # 5.
Proof. eexists. split; [vm_compute; reflexivity|]. vm_compute; reflexivity. Qed.

(** ** The Gini coefficient (C4) *)

(** The amounts are those of an allocation: they are not negative.  On
    such a list the values sum to zero exactly when all of them are zero,
    so the guard of the code is the guard of the specification. *)

Lemma rank_weighted_sum_ranked_total (x : list Q) :
  rank_weighted_sum x == ranked_total 1 x.
Proof.
  unfold rank_weighted_sum.
  assert (G : ∀ (l : list Q) (r : Z),
             Qsum (imap (λ i v, inject_Z (Z.of_nat i + r) * v) l) == ranked_total r l).
  { induction l as [|v l IH]; intros r; [reflexivity|].
    rewrite imap_cons, Qsum_cons. simpl ranked_total.
    rewrite <- (IH (r + 1)%Z).
    assert (E : imap ((λ i v, inject_Z (Z.of_nat i + r) * v) ∘ S) l
                = imap (λ i v, inject_Z (Z.of_nat i + (r + 1)) * v) l).
    { apply imap_ext. intros i w _. simpl. do 2 f_equal. lia. }
    rewrite E. reflexivity. }
  apply G.
Qed.

Lemma gini_guard (distribution : list Q) :
  distribution = [] ∨ list_total distribution == 0 →
  calculate_gini_coefficient distribution = 0.
Proof.
  intros H. unfold calculate_gini_coefficient.
  destruct H as [->|H]; [done|].
  assert (E : Qeq_bool (Qsum distribution) 0 = true).
  { apply Qeq_bool_iff. by rewrite Qsum_list_total. }
  rewrite E. by rewrite orb_true_r.
Qed.

Lemma gini_formula_holds (distribution : list Q) :
  distribution ≠ [] → ¬ list_total distribution == 0 →
  calculate_gini_coefficient distribution == gini_formula distribution.
Proof.
  intros Hne Hsum. unfold calculate_gini_coefficient, gini_formula.
  rewrite bool_decide_eq_false_2 by done.
  rewrite Qeq_bool_false by (by rewrite Qsum_list_total). simpl orb. cbv iota.
  set (x := sorted_asc (λ v, v) distribution).
  assert (Hlen : length x = length distribution) by apply sorted_by_length.
  rewrite Hlen.
  set (n := inject_Z (Z.of_nat (length distribution))).
  assert (Hn : 0 < n) by (by apply inject_Z_length_pos).
  assert (Hx : list_total x == list_total distribution).
  { apply list_total_perm, sorted_asc_perm. }
  assert (Hden : ¬ Qsum x * n == 0).
  { rewrite Qsum_list_total, Hx. intros E.
    apply Qmult_integral in E as [E|E]; [done | lra]. }
  rewrite (Qeq_bool_false _ _ Hden).
  rewrite rank_weighted_sum_ranked_total, Qsum_list_total.
  rewrite (Qmult_comm (list_total x) n). reflexivity.
Qed.



(** ** The persuasion round (C7) *)

(** The [if]/[elif] chain of the source is a lookup in the table. *)
Lemma convinced_aligned (principle_name : string) (v : ValueType) :
  convinced principle_name v = aligned principle_name v.
Proof.
  unfold convinced, aligned, value_alignment_table. cbn [existsb fst snd].
  destruct (String.eqb principle_name "按需分配");
  destruct (String.eqb principle_name "按劳分配");
  destruct (String.eqb principle_name "平等分配");
  destruct (String.eqb principle_name "照顾弱势");
  destruct (String.eqb principle_name "效率优先");
  destruct (String.eqb principle_name "可持续发展");
  destruct v; reflexivity.
Qed.

Lemma evaluate_persuasion_effect_count (persuasion : string) (others : list agent)
    (principle_name : string) :
  _evaluate_persuasion_effect persuasion others principle_name
  = convinced_by_table principle_name others.
Proof.
  unfold _evaluate_persuasion_effect, convinced_by_table.
  assert (G : ∀ l acc,
    foldl (λ convinced_count a,
             if convinced principle_name (value_type a)
             then (convinced_count + 1)%Z else convinced_count) acc l
    = (acc + Z.of_nat (length (List.filter
                         (λ a, aligned principle_name (value_type a)) l)))%Z).
  { induction l as [|a l IH]; intros acc; simpl; [lia|].
    rewrite IH, convinced_aligned.
    destruct (aligned principle_name (value_type a)); simpl; lia. }
  rewrite G. lia.
Qed.

Lemma split_supporters_total (principle_name : string)
    (principle_preferences : gmap Z (list string)) (agents : list agent) :
  (∀ a, a ∈ agents → is_Some (principle_preferences !! id a)) →
  split_supporters principle_name principle_preferences agents
  = Ok (supporters_of principle_preferences principle_name agents,
        others_of principle_preferences principle_name agents).
Proof.
  induction agents as [|a agents IH]; intros H; simpl; [done|].
  destruct (H a) as [ps Hps]; [by left|].
  rewrite IH by (intros b Hb; apply H; by right).
  simpl. unfold supports. rewrite Hps.
  by destruct (bool_decide _).
Qed.

Lemma majority_threshold (n support : Z) :
  (0 ≤ n)%Z → (n `div` 2 + 1 ≤ support)%Z ↔ inject_Z n / 2 < inject_Z support.
Proof.
  intros Hn.
  assert (E : inject_Z n / 2 < inject_Z support ↔ (n < 2 * support)%Z).
  { rewrite Zlt_Qlt, inject_Z_mult. split; intros H.
    - apply (Qmult_lt_r _ _ 2) in H; [|lra].
      assert (inject_Z n / 2 * 2 == inject_Z n) by (field).
      change (inject_Z 2) with 2. lra.
    - change (inject_Z 2) with 2 in H. apply Qlt_shift_div_r; lra. }
  rewrite E.
  pose proof (Z.div_mod n 2 ltac:(lia)). pose proof (Z.mod_pos_bound n 2 ltac:(lia)).
  lia.
Qed.

(** C7 (amended).  When every agent has stated preferences, the persuasion
    round adopts a disputed principle if and only if it has at least two
    supporters and supporters plus convinced exceeds [n/2]; convinced is
    the number of non-supporters whose value type the fixed table aligns
    with the principle (for distribution by need: exactly the non-supporters
    that are NeedsBased or Altruistic), whatever the persuasion text. *)
Theorem persuasion_round_adoption (agents : list agent) (persuasion : agent → string)
    (principle_name : string) (principle_preferences : gmap Z (list string)) :
  (∀ a, a ∈ agents → is_Some (principle_preferences !! id a)) →
  let supporters := supporters_of principle_preferences principle_name agents in
  let others := others_of principle_preferences principle_name agents in
  let n := Z.of_nat (length agents) in
  let support := (Z.of_nat (length supporters)
                  + convinced_by_table principle_name others)%Z in
  (∃ r, _moderate_principle_discussion agents persuasion principle_name
          principle_preferences = Ok r
        ∧ (is_adopted r = true
           ↔ (2 ≤ length supporters)%nat ∧ inject_Z n / 2 < inject_Z support))
  ∧ (∀ text, _evaluate_persuasion_effect text others principle_name
             = convinced_by_table principle_name others)
  ∧ convinced_by_table "按需分配" others
    = Z.of_nat (length (List.filter
        (λ a, value_in (value_type a) [needs_based; altruistic]) others)).
Proof.
  intros Hprefs supporters others n support.
  split; [|split].
  - unfold _moderate_principle_discussion.
    rewrite split_supporters_total by done. simpl.
    fold supporters others.
    destruct (Z.leb_spec (Z.of_nat (length supporters)) 1) as [Hfew|Hmany].
    { exists insufficient_support. split; [done|]. simpl.
      split; [discriminate | intros [? _]; lia]. }
    destruct supporters as [|advocate rest] eqn:Hs; [simpl in Hmany; lia|].
    rewrite evaluate_persuasion_effect_count. fold support n.
    pose proof (majority_threshold n support ltac:(lia)) as Hth.
    destruct (Z.leb_spec (n `div` 2 + 1) support) as [Hyes|Hno].
    + eexists. split; [done|]. simpl. split; [intros _|done].
      split; [simpl in *; lia | by apply Hth].
    + eexists. split; [done|]. simpl. split; [discriminate|].
      intros [_ H]. apply Hth in H. lia.
  - intros text. apply evaluate_persuasion_effect_count.
  - unfold convinced_by_table. do 2 f_equal.
    apply filter_ext_in_iff. intros a _. unfold aligned. simpl.
    by rewrite !orb_false_r.
Qed.

Lemma persuasion_round_adoption_witness :
  (∀ a, a ∈ persuasion_agents → is_Some (persuasion_preferences !! id a))
  ∧ ∃ r, _moderate_principle_discussion persuasion_agents (λ _, "") "按需分配"
           persuasion_preferences = Ok r
         ∧ (is_adopted r = true
            ↔ (2 ≤ length (supporters_of persuasion_preferences "按需分配"
                             persuasion_agents))%nat
              ∧ inject_Z (Z.of_nat (length persuasion_agents)) / 2
                < inject_Z (Z.of_nat (length (supporters_of persuasion_preferences
                                                "按需分配" persuasion_agents))
                            + convinced_by_table "按需分配"
                                (others_of persuasion_preferences "按需分配"
                                   persuasion_agents))).
Proof.
  assert (H : ∀ a, a ∈ persuasion_agents → is_Some (persuasion_preferences !! id a)).
  { intros a Ha. unfold persuasion_agents in Ha.
    each_listed Ha ltac:(eexists; reflexivity). }
  split; [exact H|].
  exact (proj1 (persuasion_round_adoption persuasion_agents (λ _, "") "按需分配"
                  persuasion_preferences H)).
Defined.

(** The claim as written fails when a single agent supports the principle:
    with the two other agents convinced, supporters plus convinced is 3 of 3,
    yet the round gives up before any persuasion. *)
Lemma persuasion_lone_supporter_not_adopted :
  let supporters := supporters_of lone_supporter_preferences "按需分配"
                      lone_supporter_agents in
  let others := others_of lone_supporter_preferences "按需分配" lone_supporter_agents in
  let n := Z.of_nat (length lone_supporter_agents) in
  let support := (Z.of_nat (length supporters)
                  + convinced_by_table "按需分配" others)%Z in
  _moderate_principle_discussion lone_supporter_agents (λ _, "") "按需分配"
    lone_supporter_preferences = Ok insufficient_support
  ∧ inject_Z n / 2 < inject_Z support
  ∧ ¬ (is_adopted insufficient_support = true ↔ inject_Z n / 2 < inject_Z support).
Proof.
  split; [reflexivity|].
  split; [vm_compute; reflexivity|].
  intros [_ H]. simpl in H. discriminate H. vm_compute. reflexivity.
Qed.

(** ** Re-normalization in the Details stage (C8) *)

Lemma entry_scale_allocation (c : Q) (d : allocation) (k : Z) (r : string) :
  entry (scale_allocation c d) k r = (λ v, v * c) <$> entry d k r.
Proof.
  unfold entry, scale_allocation. rewrite lookup_fmap.
  destruct (d !! k) as [row|]; simpl; [|done]. by rewrite lookup_fmap.
Qed.

(** C8 (amended).  For an allocation with a positive total, when the total
    differs from the total grain by more than 0.01, [_validate_and_optimize]
    returns the allocation with every entry scaled by
    [total_grain / current total], and the grand total of the result is
    exactly the total grain; when the difference is at most 0.01 it returns
    the allocation as it is. *)
Theorem validate_and_optimize_rescales (total_grain : Q) (d : allocation) :
  0 < total_allocated d →
  let factor := total_grain / total_allocated d in
  ((1#100) < Qabs (total_allocated d - total_grain) →
   _validate_and_optimize total_grain d = Ok (scale_allocation factor d)
   ∧ (∀ k r, entry (scale_allocation factor d) k r = (λ v, v * factor) <$> entry d k r)
   ∧ total_allocated (scale_allocation factor d) == total_grain)
  ∧ (Qabs (total_allocated d - total_grain) <= (1#100) →
     _validate_and_optimize total_grain d = Ok d).
Proof.
  intros Hpos factor. unfold _validate_and_optimize. split.
  - intros Hfar. apply Qlt_bool_true in Hfar. rewrite Hfar.
    rewrite Qeq_bool_false by lra.
    split; [done|]. split; [intros; apply entry_scale_allocation|].
    rewrite total_allocated_scale. subst factor. field. lra.
  - intros Hnear. apply Qlt_bool_false in Hnear. by rewrite Hnear.
Qed.

Lemma validate_and_optimize_rescales_witness :
  0 < total_allocated (grain_allocation [(1%Z, 50); (2%Z, 30)])
  ∧ (1#100) < Qabs (total_allocated (grain_allocation [(1%Z, 50); (2%Z, 30)]) - 100)
  ∧ _validate_and_optimize 100 (grain_allocation [(1%Z, 50); (2%Z, 30)])
    = Ok (scale_allocation
            (100 / total_allocated (grain_allocation [(1%Z, 50); (2%Z, 30)]))
            (grain_allocation [(1%Z, 50); (2%Z, 30)]))
  ∧ total_allocated
      (scale_allocation (100 / total_allocated (grain_allocation [(1%Z, 50); (2%Z, 30)]))
         (grain_allocation [(1%Z, 50); (2%Z, 30)])) == 100.
Proof.
  assert (H1 : 0 < total_allocated (grain_allocation [(1%Z, 50); (2%Z, 30)])).
  { vm_compute. reflexivity. }
  assert (H2 : (1#100) < Qabs (total_allocated (grain_allocation [(1%Z, 50); (2%Z, 30)])
                               - 100)).
  { vm_compute. reflexivity. }
  split; [exact H1|]. split; [exact H2|].
  pose proof (proj1 (validate_and_optimize_rescales 100
                       (grain_allocation [(1%Z, 50); (2%Z, 30)]) H1) H2) as (E & _ & T).
  split; [exact E | exact T].
Defined.

(** The claim as written fails inside the tolerance: a total of 100.005
    against 100 units of grain is left as it is. *)
Lemma validate_and_optimize_keeps_small_imbalance :
  0 < total_allocated (grain_allocation [(1%Z, 20001 # 200)])
  ∧ _validate_and_optimize 100 (grain_allocation [(1%Z, 20001 # 200)])
    = Ok (grain_allocation [(1%Z, 20001 # 200)])
  ∧ ¬ total_allocated (grain_allocation [(1%Z, 20001 # 200)]) == 100.
Proof.
  split; [vm_compute; reflexivity|].
  split; [reflexivity|].
  vm_compute. discriminate.
Qed.

(** ** The fallback of a failed session (C9) *)

Lemma fallback_proposal_total (agents : list agent) (per_family : Q) :
  NoDup (id <$> agents) →
  total_allocated (foldl (λ d a, <[id a := {["grain" := per_family]}]> d) ∅ agents)
  == num_families agents * per_family.
Proof.
  intros Hnd.
  rewrite (total_allocated_rows (λ _, {["grain" := per_family]})) by done.
  rewrite (list_total_fmap_ext _ (λ _, per_family)).
  - apply list_total_fmap_const.
  - intros a _. apply sum_values_singleton.
Qed.

Lemma pool_total_grain_only (total_resources : resources) :
  (∀ r, r ≠ "grain" → total_resources !! r = None) →
  pool_total total_resources == total_grain total_resources.
Proof.
  intros H. unfold pool_total, total_grain.
  destruct (total_resources !! "grain") as [g|] eqn:Hg; simpl.
  - assert (E : total_resources = {["grain" := g]}).
    { apply map_eq. intros r. destruct (decide (r = "grain")) as [->|Hr].
      - by rewrite lookup_singleton_eq.
      - rewrite lookup_singleton_ne by done. by apply H. }
    rewrite E. apply sum_values_singleton.
  - assert (E : total_resources = ∅).
    { apply map_eq. intros r. rewrite lookup_empty.
      destruct (decide (r = "grain")) as [->|Hr]; [done | by apply H]. }
    rewrite E. apply sum_values_empty.
Qed.

Lemma error_fallback_ok (agents : list agent) (total_resources : resources)
    (completed : list string) (current_stage : string) :
  agents ≠ [] →
  error_fallback agents total_resources completed current_stage
  = Ok (foldl (λ d a, <[id a := {["grain" := total_grain total_resources
                                              / num_families agents]}]> d) ∅ agents,
        {| success := false; method := "error_fallback";
           stages_completed := completed; final_stage := current_stage |}).
Proof.
  intros Hne. unfold error_fallback, _create_fallback_proposal.
  rewrite bool_decide_eq_false_2; [done|].
  by destruct agents.
Qed.

(** C9 (amended).  For a non-empty list of agents with distinct ids, if a
    stage of the negotiation raises, the session still returns an
    allocation, marked as failed, in which every agent holds exactly
    [total_grain / n] units of grain and nothing else; its total is the
    grain amount of the pool, which is the pool total when grain is the
    only resource of the pool. *)
Theorem negotiation_failure_falls_back {principles framework : Type}
    (agents : list agent) (total_resources : resources)
    (establish : result principles) (negotiate : principles → result framework)
    (build : framework → result allocation) (finalize : allocation → result allocation) :
  agents ≠ [] → NoDup (id <$> agents) →
  some_stage_raises establish negotiate build finalize →
  ∃ fallback data,
    run_collaborative_negotiation agents total_resources establish negotiate build finalize
    = Ok (fallback, data)
    ∧ collaborative_negotiation_distribution agents total_resources
        establish negotiate build finalize = fallback
    ∧ success data = false
    ∧ (∀ a, a ∈ agents →
            fallback !! id a
            = Some {["grain" := total_grain total_resources / num_families agents]})
    ∧ total_allocated fallback == total_grain total_resources
    ∧ ((∀ r, r ≠ "grain" → total_resources !! r = None) →
       total_allocated fallback == pool_total total_resources).
Proof.
  intros Hne Hnd Hraise.
  set (fb := foldl (λ (d : allocation) a,
                      <[id a := {["grain" := total_grain total_resources
                                             / num_families agents]}]> d) ∅ agents).
  assert (Hrun : ∃ completed stage,
            run_collaborative_negotiation agents total_resources
              establish negotiate build finalize
            = Ok (fb, {| success := false; method := "error_fallback";
                         stages_completed := completed; final_stage := stage |})).
  { unfold run_collaborative_negotiation.
    destruct Hraise as [(e & ->) | [(p & e & -> & ->) | [(p & f & e & -> & -> & ->)
                      | (p & f & d & e & -> & -> & -> & ->)]]];
      do 2 eexists; by apply error_fallback_ok. }
  destruct Hrun as (completed & stage & Hrun).
  assert (Htot : total_allocated fb == total_grain total_resources).
  { subst fb. rewrite fallback_proposal_total by done.
    field. pose proof (inject_Z_length_pos agents Hne). unfold num_families. lra. }
  exists fb, {| success := false; method := "error_fallback";
                stages_completed := completed; final_stage := stage |}.
  split; [exact Hrun|].
  split; [unfold collaborative_negotiation_distribution; by rewrite Hrun|].
  split; [done|].
  split; [intros a Ha; subst fb;
          by apply (lookup_rows (λ _, {["grain" := _]}))|].
  split; [exact Htot|].
  intros Honly. rewrite Htot. symmetry. by apply pool_total_grain_only.
Qed.

Lemma negotiation_failure_falls_back_witness :
  three_agents ≠ []
  ∧ NoDup (id <$> three_agents)
  ∧ some_stage_raises (Ok tt) (λ _ : unit, Ok tt)
      (λ _ : unit, Raise ZeroDivisionError) (λ d : allocation, Ok d)
  ∧ ∃ fallback data,
      run_collaborative_negotiation three_agents {["grain" := 90]}
        (Ok tt) (λ _ : unit, Ok tt)
        (λ _ : unit, Raise ZeroDivisionError) (λ d : allocation, Ok d)
      = Ok (fallback, data)
      ∧ collaborative_negotiation_distribution three_agents {["grain" := 90]}
          (Ok tt) (λ _ : unit, Ok tt)
          (λ _ : unit, Raise ZeroDivisionError) (λ d : allocation, Ok d) = fallback
      ∧ success data = false
      ∧ (∀ a, a ∈ three_agents →
              fallback !! id a
              = Some {["grain" := total_grain {["grain" := 90]}
                                  / num_families three_agents]})
      ∧ total_allocated fallback == total_grain {["grain" := 90]}
      ∧ ((∀ r, r ≠ "grain" → ({["grain" := 90]} : resources) !! r = None) →
         total_allocated fallback == pool_total {["grain" := 90]}).
Proof.
  assert (H1 : three_agents ≠ []) by discriminate.
  assert (H2 : NoDup (id <$> three_agents)) by compute_done.
  assert (H3 : some_stage_raises (Ok tt) (λ _ : unit, Ok tt)
                 (λ _ : unit, Raise ZeroDivisionError) (λ d : allocation, Ok d)).
  { right. right. left. by exists tt, tt, ZeroDivisionError. }
  split; [exact H1|]. split; [exact H2|]. split; [exact H3|].
  exact (negotiation_failure_falls_back three_agents {["grain" := 90]}
           (Ok tt) (λ _ : unit, Ok tt)
           (λ _ : unit, Raise ZeroDivisionError) (λ d : allocation, Ok d) H1 H2 H3).
Defined.

(** The claim as written fails on a pool with a second resource: the
    fallback hands out the 90 units of grain and drops the 30 units of
    tools, so its total is not the pool total of 120. *)
Lemma fallback_drops_other_resources :
  three_agents ≠ []
  ∧ some_stage_raises (Raise OtherException : result unit) (λ _ : unit, Ok tt)
      (λ _ : unit, Ok ∅) (λ d : allocation, Ok d)
  ∧ ∃ fallback data,
      run_collaborative_negotiation three_agents two_resource_pool
        (Raise OtherException : result unit) (λ _ : unit, Ok tt)
        (λ _ : unit, Ok ∅) (λ d : allocation, Ok d)
      = Ok (fallback, data)
      ∧ total_allocated fallback == 90
      ∧ pool_total two_resource_pool == 120
      ∧ ¬ total_allocated fallback == pool_total two_resource_pool.
Proof.
  split; [discriminate|].
  split; [left; by exists OtherException|].
  do 2 eexists. split; [reflexivity|].
  split; [vm_compute; reflexivity|].
  split; [vm_compute; reflexivity|].
  vm_compute. discriminate.
Qed.

(** ** The Gini coefficient as a mean difference *)

Lemma list_total_id (l : list Q) : list_total ((λ x, x) <$> l) = list_total l.
Proof. by rewrite list_fmap_id. Qed.

Lemma pairwise_gap_cons (x0 : Q) (x : list Q) :
  pairwise_gap (x0 :: x)
  == pairwise_gap x + 2 * list_total ((λ b, Qabs (x0 - b)) <$> x).
Proof.
  unfold pairwise_gap. rewrite !fmap_cons, !list_total_cons.
  assert (E0 : Qabs (x0 - x0) == 0).
  { assert (E : x0 - x0 == 0) by ring. rewrite E. reflexivity. }
  rewrite E0.
  assert (E1 : list_total ((λ a, list_total ((λ b, Qabs (a - b)) <$> x0 :: x)) <$> x)
               == list_total ((λ a, Qabs (x0 - a)
                                    + list_total ((λ b, Qabs (a - b)) <$> x)) <$> x)).
  { apply list_total_fmap_ext. intros a _. rewrite fmap_cons, list_total_cons.
    assert (E : Qabs (a - x0) == Qabs (x0 - a)).
    { rewrite <- (Qabs_opp (a - x0)). apply Qabs_wd. ring. }
    rewrite E. reflexivity. }
  rewrite E1, list_total_fmap_plus. ring.
Qed.

Lemma gap_to_least (x0 : Q) (x : list Q) :
  (∀ b, b ∈ x → x0 <= b) →
  list_total ((λ b, Qabs (x0 - b)) <$> x)
  == list_total x - inject_Z (Z.of_nat (length x)) * x0.
Proof.
  intros H.
  rewrite (list_total_fmap_ext _ (λ b, b + - x0)).
  - rewrite list_total_fmap_plus, list_total_fmap_const, list_total_id. ring.
  - intros b Hb. apply H in Hb.
    rewrite <- (Qabs_opp (x0 - b)). rewrite Qabs_pos by lra. ring.
Qed.

(** On an ascending list, the rank-weighted sum is the pairwise gap up to
    a multiple of the total. *)
Lemma ranked_total_gap (x : list Q) (r : Z) :
  StronglySorted Qle x →
  4 * ranked_total r x
  == pairwise_gap x
     + 2 * (2 * inject_Z r + inject_Z (Z.of_nat (length x)) - 1) * list_total x.
Proof.
  intros Hs. revert r. induction Hs as [|x0 x Hs IH H0]; intros r.
  - unfold pairwise_gap. simpl. ring.
  - simpl ranked_total. rewrite pairwise_gap_cons, list_total_cons.
    rewrite gap_to_least by (intros b Hb; by eapply Forall_forall in H0).
    specialize (IH (r + 1)%Z).
    rewrite inject_Z_plus in IH.
    cbn [length]. rewrite Nat2Z.inj_succ, <- Z.add_1_r, inject_Z_plus.
    change (inject_Z 1) with 1 in *.
    set (n := inject_Z (Z.of_nat (length x))) in *.
    set (R := ranked_total (r + 1) x) in *.
    set (G := pairwise_gap x) in *.
    set (S := list_total x) in *.
    assert (E : 4 * (inject_Z r * x0 + R) == 4 * inject_Z r * x0 + 4 * R) by ring.
    rewrite E, IH. ring.
Qed.

Lemma sorted_asc_strongly (l : list Q) : StronglySorted Qle (sorted_asc (λ x, x) l).
Proof.
  apply Sorted_StronglySorted.
  - intros a b c. apply Qle_trans.
  - apply (sorted_asc_sorted (λ x : Q, x)).
Qed.

Lemma pairwise_gap_perm (l l' : list Q) : l ≡ₚ l' → pairwise_gap l == pairwise_gap l'.
Proof.
  intros Hp. unfold pairwise_gap.
  rewrite (list_total_perm _ ((λ a, list_total ((λ b, Qabs (a - b)) <$> l)) <$> l'))
    by (by apply fmap_Permutation).
  apply list_total_fmap_ext. intros a _.
  apply list_total_perm. by apply fmap_Permutation.
Qed.

Lemma nonneg_total_not_zero (l : list Q) :
  (∀ v, v ∈ l → 0 <= v) → ¬ Forall (λ v, v == 0) l → ¬ list_total l == 0.
Proof.
  intros Hpos Hnz Hsum. apply Hnz, Forall_forall. by apply list_total_zero_all.
Qed.

Lemma gini_gap_form (distribution : list Q) :
  ¬ list_total distribution == 0 →
  calculate_gini_coefficient distribution
  == pairwise_gap distribution
     / (2 * inject_Z (Z.of_nat (length distribution)) * list_total distribution).
Proof.
  intros Hsum.
  assert (Hne : distribution ≠ []) by (intros ->; apply Hsum; reflexivity).
  rewrite gini_formula_holds by done. unfold gini_formula.
  set (x := sorted_asc (λ v, v) distribution).
  assert (Hx : list_total x == list_total distribution)
    by apply list_total_perm, sorted_asc_perm.
  assert (Hg : pairwise_gap x == pairwise_gap distribution)
    by apply pairwise_gap_perm, sorted_asc_perm.
  pose proof (ranked_total_gap x 1 (sorted_asc_strongly distribution)) as HR.
  assert (Hlen : length x = length distribution) by apply sorted_by_length.
  rewrite Hlen, Hx, Hg in HR. rewrite Hx.
  pose proof (inject_Z_length_pos distribution Hne) as Hn.
  set (n := inject_Z (Z.of_nat (length distribution))) in *.
  change (inject_Z 1) with 1 in HR.
  set (R := ranked_total 1 x) in *.
  set (G := pairwise_gap distribution) in *.
  set (S := list_total distribution) in *.
  assert (E : R == (G + 2 * (2 * 1 + n - 1) * S) / 4) by (rewrite <- HR; field).
  rewrite E. field. split; [done | lra].
Qed.

Lemma pairwise_gap_nonneg (l : list Q) : 0 <= pairwise_gap l.
Proof.
  unfold pairwise_gap. apply list_total_nonneg. intros v Hv.
  apply list_elem_of_fmap in Hv as (a & -> & _).
  apply list_total_nonneg. intros w Hw.
  apply list_elem_of_fmap in Hw as (b & -> & _). apply Qabs_nonneg.
Qed.

Lemma pairwise_gap_zero (l : list Q) :
  pairwise_gap l == 0 ↔ ∀ a b, a ∈ l → b ∈ l → a == b.
Proof.
  split.
  - intros H a b Ha Hb. unfold pairwise_gap in H.
    assert (Ha' : list_total ((λ b, Qabs (a - b)) <$> l) == 0).
    { apply (list_total_zero_all _) with (x := list_total ((λ b, Qabs (a - b)) <$> l)) in H;
        [done | | by apply (list_elem_of_fmap_2 (λ a, list_total ((λ b, Qabs (a - b)) <$> l)))].
      intros v Hv. apply list_elem_of_fmap in Hv as (c & -> & _).
      apply list_total_nonneg. intros w Hw.
      apply list_elem_of_fmap in Hw as (d & -> & _). apply Qabs_nonneg. }
    assert (Hab : Qabs (a - b) == 0).
    { apply (list_total_zero_all _) with (x := Qabs (a - b)) in Ha';
        [done | | by apply (list_elem_of_fmap_2 (λ b, Qabs (a - b)))].
      intros v Hv. apply list_elem_of_fmap in Hv as (d & -> & _). apply Qabs_nonneg. }
    destruct (Qlt_le_dec (a - b) 0) as [Hn|Hp].
    + rewrite Qabs_neg in Hab by lra. lra.
    + rewrite Qabs_pos in Hab by lra. lra.
  - intros H. unfold pairwise_gap. apply list_total_all_zero, Forall_forall.
    intros v Hv. apply list_elem_of_fmap in Hv as (a & -> & Ha).
    apply list_total_all_zero, Forall_forall.
    intros w Hw. apply list_elem_of_fmap in Hw as (b & -> & Hb).
    assert (E : a - b == 0) by (rewrite (H a b Ha Hb); ring).
    rewrite E. reflexivity.
Qed.

Lemma ranked_total_upper (x : list Q) (r : Z) :
  (0 <= r)%Z → (∀ v, v ∈ x → 0 <= v) →
  ranked_total r x <= (inject_Z r + inject_Z (Z.of_nat (length x)) - 1) * list_total x.
Proof.
  revert r. induction x as [|x0 x IH]; intros r Hr Hpos.
  - simpl. lra.
  - simpl ranked_total. rewrite list_total_cons.
    cbn [length]. rewrite Nat2Z.inj_succ, <- Z.add_1_r, inject_Z_plus.
    change (inject_Z 1) with 1.
    assert (H0 : 0 <= x0) by (apply Hpos; left).
    assert (Hx : ∀ v, v ∈ x → 0 <= v) by (intros v Hv; apply Hpos; by right).
    specialize (IH (r + 1)%Z ltac:(lia) Hx). rewrite inject_Z_plus in IH.
    change (inject_Z 1) with 1 in IH.
    assert (Hn : 0 <= inject_Z (Z.of_nat (length x))).
    { change 0 with (inject_Z 0). rewrite <- Zle_Qle. lia. }
    pose proof (list_total_nonneg x Hx) as HS.
    set (n := inject_Z (Z.of_nat (length x))) in *.
    set (S := list_total x) in *.
    assert (0 <= n * x0) by (apply Qmult_le_0_compat; lra).
    assert (E : (inject_Z r + (n + 1) - 1) * (x0 + S)
                == inject_Z r * x0 + n * x0 + (inject_Z r + 1 + n - 1) * S) by ring.
    rewrite E. lra.
Qed.

Lemma gini_nonneg_bounds (distribution : list Q) :
  distribution ≠ [] → (∀ v, v ∈ distribution → 0 <= v) →
  0 <= calculate_gini_coefficient distribution
  ∧ calculate_gini_coefficient distribution
    <= 1 - 1 / inject_Z (Z.of_nat (length distribution)).
Proof.
  intros Hne Hpos.
  pose proof (inject_Z_length_pos distribution Hne) as Hn.
  assert (Hn1 : 1 <= inject_Z (Z.of_nat (length distribution))).
  { change 1 with (inject_Z 1). rewrite <- Zle_Qle.
    destruct distribution; [done | simpl; lia]. }
  set (n := inject_Z (Z.of_nat (length distribution))) in *.
  assert (Hinv : 1 / n <= 1) by (apply Qle_shift_div_r; lra).
  destruct (Qeq_dec (list_total distribution) 0) as [Hz|Hz].
  - rewrite gini_guard by (by right). lra.
  - pose proof (list_total_nonneg distribution Hpos) as HS.
    assert (HS' : 0 < list_total distribution) by (apply Qle_lteq in HS as [?|E]; [done|]; by symmetry in E).
    split.
    + rewrite gini_gap_form by done. fold n.
      apply Qle_shift_div_l.
      * apply Qmult_lt_0_compat; lra.
      * pose proof (pairwise_gap_nonneg distribution). lra.
    + rewrite gini_formula_holds by done. unfold gini_formula. fold n.
      set (x := sorted_asc (λ v, v) distribution).
      assert (Hx : list_total x == list_total distribution)
        by apply list_total_perm, sorted_asc_perm.
      assert (Hlen : length x = length distribution) by apply sorted_by_length.
      assert (Hxpos : ∀ v, v ∈ x → 0 <= v).
      { intros v Hv. apply Hpos. unfold x in Hv. by rewrite sorted_asc_perm in Hv. }
      pose proof (ranked_total_upper x 1 ltac:(lia) Hxpos) as HR.
      rewrite Hlen, Hx in HR. rewrite Hx. fold n in HR.
      change (inject_Z 1) with 1 in HR.
      set (R := ranked_total 1 x) in *.
      set (S := list_total distribution) in *.
      assert (HnS : 0 < n * S) by (apply Qmult_lt_0_compat; lra).
      assert (Hq : 2 * R / (n * S) <= 2).
      { apply Qle_shift_div_r; [done|]. lra. }
      assert (E : (n + 1) / n == 1 + 1 / n) by (field; lra).
      rewrite E. lra.
Qed.

Lemma gini_perm (l l' : list Q) :
  l ≡ₚ l' → calculate_gini_coefficient l == calculate_gini_coefficient l'.
Proof.
  intros Hp.
  pose proof (list_total_perm _ _ Hp) as HS.
  destruct (Qeq_dec (list_total l) 0) as [Hz|Hz].
  - rewrite !gini_guard; [reflexivity | right; by rewrite <- HS | by right].
  - rewrite !gini_gap_form by (by rewrite <- ?HS).
    rewrite (pairwise_gap_perm _ _ Hp), HS, (Permutation_length Hp). reflexivity.
Qed.

(** X1.  For every list of non-negative amounts that are not all zero,
    [calculate_gini_coefficient] is the sum of [|x_i − x_j|] over all
    ordered pairs divided by [2·n·Σx]: half the relative mean absolute
    difference. *)
Theorem gini_is_half_relative_mean_difference (distribution : list Q) :
  (∀ v, v ∈ distribution → 0 <= v) →
  ¬ Forall (λ v, v == 0) distribution →
  calculate_gini_coefficient distribution
  == pairwise_gap distribution
     / (2 * inject_Z (Z.of_nat (length distribution)) * list_total distribution).
Proof.
  intros Hpos Hnz. apply gini_gap_form. by apply nonneg_total_not_zero.
Qed.

Lemma gini_is_half_relative_mean_difference_witness :
  calculate_gini_coefficient [0; 0; 30]
  == pairwise_gap [0; 0; 30] / (2 * inject_Z (Z.of_nat 3) * list_total [0; 0; 30]).
Proof.
  apply (gini_is_half_relative_mean_difference [0; 0; 30]).
  - intros v Hv. each_listed Hv ltac:(by vm_compute).
  - intros H. apply Forall_cons in H as [_ H]. apply Forall_cons in H as [_ H].
    apply Forall_cons in H as [H _]. by vm_compute in H.
Defined.

(** X2.  On a non-empty list of non-negative amounts the Gini coefficient
    lies between 0 and [1 − 1/n]. *)
Theorem gini_between_zero_and_one (distribution : list Q) :
  distribution ≠ [] → (∀ v, v ∈ distribution → 0 <= v) →
  0 <= calculate_gini_coefficient distribution
  ∧ calculate_gini_coefficient distribution
    <= 1 - 1 / inject_Z (Z.of_nat (length distribution)).
Proof. apply gini_nonneg_bounds. Qed.

Lemma gini_between_zero_and_one_witness :
  0 <= calculate_gini_coefficient [10; 20; 30]
  ∧ calculate_gini_coefficient [10; 20; 30] <= 1 - 1 / inject_Z (Z.of_nat 3).
Proof.
  apply (gini_between_zero_and_one [10; 20; 30]); [discriminate|].
  intros v Hv. each_listed Hv ltac:(by vm_compute).
Defined.

(** X3.  On a list of non-negative amounts that are not all zero, the
    Gini coefficient is 0 exactly when all amounts are equal. *)
Theorem gini_zero_iff_all_equal (distribution : list Q) :
  (∀ v, v ∈ distribution → 0 <= v) →
  ¬ Forall (λ v, v == 0) distribution →
  (calculate_gini_coefficient distribution == 0
   ↔ ∀ a b, a ∈ distribution → b ∈ distribution → a == b).
Proof.
  intros Hpos Hnz.
  assert (Hsum : ¬ list_total distribution == 0) by (by apply nonneg_total_not_zero).
  assert (Hne : distribution ≠ []) by (intros ->; apply Hsum; reflexivity).
  pose proof (inject_Z_length_pos distribution Hne) as Hn.
  rewrite gini_gap_form by done. rewrite <- pairwise_gap_zero.
  set (n := inject_Z (Z.of_nat (length distribution))) in *.
  assert (Hd : ¬ 2 * n * list_total distribution == 0).
  { intros E. apply Qmult_integral in E as [E|E]; [lra | done]. }
  split; intros H.
  - assert (E : pairwise_gap distribution
                == pairwise_gap distribution / (2 * n * list_total distribution)
                   * (2 * n * list_total distribution)) by (field; split; [done | lra]).
    rewrite E, H. ring.
  - rewrite H. field. split; [done | lra].
Qed.

Lemma gini_zero_iff_all_equal_witness :
  calculate_gini_coefficient [30; 30; 30] == 0
  ↔ ∀ a b, a ∈ [30; 30; 30] → b ∈ [30; 30; 30] → a == b.
Proof.
  apply (gini_zero_iff_all_equal [30; 30; 30]).
  - intros v Hv. each_listed Hv ltac:(by vm_compute).
  - intros H. apply Forall_cons in H as [H _]. by vm_compute in H.
Defined.

(** X4.  On non-negative amounts, the Gini coefficient does not depend on
    the order in which the households are listed. *)
Theorem gini_order_independent (l l' : list Q) :
  (∀ v, v ∈ l → 0 <= v) → l ≡ₚ l' →
  calculate_gini_coefficient l == calculate_gini_coefficient l'.
Proof. intros _. apply gini_perm. Qed.

Lemma gini_order_independent_witness :
  calculate_gini_coefficient [30; 10; 20] == calculate_gini_coefficient [10; 20; 30].
Proof.
  apply (gini_order_independent [30; 10; 20] [10; 20; 30]).
  - intros v Hv. each_listed Hv ltac:(by vm_compute).
  - etrans; [apply perm_swap|]. apply perm_skip, perm_swap.
Defined.

(** ** The framework stage: the ratios *)

Lemma sum_values_insert_over {K} `{Countable K} (m : gmap K Q) (k : K) (old v : Q) :
  m !! k = Some old → sum_values (<[k := v]> m) == sum_values m - old + v.
Proof.
  intros Hk.
  rewrite <- (insert_delete_id m k old Hk) at 2.
  rewrite <- (insert_delete_eq m k v).
  rewrite !sum_values_insert by apply lookup_delete_eq. lra.
Qed.

Lemma sum_values_div {K} `{Countable K} (m : gmap K Q) (c : Q) :
  sum_values ((λ v, v / c) <$> m) == sum_values m / c.
Proof. apply (sum_values_scale m (/ c)). Qed.

Lemma py_max_ge_l (a b : Q) : a <= py_max a b.
Proof.
  unfold py_max. destruct (Qlt_bool a b) eqn:E; [|lra].
  apply Qlt_bool_true in E. lra.
Qed.

Lemma py_max_ge_r (a b : Q) : b <= py_max a b.
Proof.
  unfold py_max. destruct (Qlt_bool a b) eqn:E; [lra|].
  apply Qlt_bool_false in E. lra.
Qed.

Lemma py_max_cases (a b : Q) : py_max a b = a ∨ py_max a b = b.
Proof. unfold py_max. destruct (Qlt_bool a b); auto. Qed.

Lemma py_min_le_l (a b : Q) : py_min a b <= a.
Proof.
  unfold py_min. destruct (Qlt_bool b a) eqn:E; [|lra].
  apply Qlt_bool_true in E. lra.
Qed.

Lemma py_min_le_r (a b : Q) : py_min a b <= b.
Proof.
  unfold py_min. destruct (Qlt_bool b a) eqn:E; [lra|].
  apply Qlt_bool_false in E. lra.
Qed.

Lemma py_min_cases (a b : Q) : py_min a b = a ∨ py_min a b = b.
Proof. unfold py_min. destruct (Qlt_bool b a); auto. Qed.

Lemma apply_adjustment_balanced (below : bool) (threshold : Z) (r : resources)
    (item : string * Z) :
  balanced below r →
  ∃ r', apply_adjustment threshold (Ok r) item = Ok r' ∧ balanced below r'.
Proof.
  intros (Hsum & s & Hs & Hside). unfold apply_adjustment. cbn [mbind result_bind].
  destruct ((threshold <=? item.2)%Z && contains "生存保障" item.1 && contains "50%" item.1);
    [|exists r; split; [done | split; [done | by exists s]]].
  rewrite Hs. unfold _rebalance_ratios.
  set (m := py_max (5 # 10) s).
  assert (Hm : 1#2 <= m) by (pose proof (py_max_ge_l (5#10) s); fold m in H; lra).
  pose proof (sum_values_insert_over r "survival_guarantee" s m Hs) as Htot.
  set (r1 := <["survival_guarantee" := m]> r) in *.
  assert (Hr1 : r1 !! "survival_guarantee" = Some m) by apply lookup_insert_eq.
  destruct (Qeq_bool (sum_values r1) 1) eqn:E1.
  - exists r1. split; [done|]. apply Qeq_bool_iff in E1.
    split; [done|]. exists m. split; [done|].
    destruct below; [lra | done].
  - assert (Hsz : size r1 ≠ 0%nat).
    { intros E. apply map_size_empty_iff in E. by rewrite E in Hr1. }
    rewrite bool_decide_eq_false_2 by done.
    assert (Hpos : 1 <= sum_values r1).
    { rewrite Htot, Hsum. pose proof (py_max_ge_r (5#10) s). fold m in H. lra. }
    rewrite Qeq_bool_false by lra.
    exists ((λ v, v / sum_values r1) <$> r1). split; [done|]. split.
    + rewrite sum_values_div. field. lra.
    + exists (m / sum_values r1). split; [by rewrite lookup_fmap, Hr1|].
      assert (Hne : ¬ sum_values r1 == 1).
      { intros E. apply Qeq_bool_iff in E. congruence. }
      destruct below.
      * destruct (py_max_cases (5#10) s) as [E|E]; fold m in E.
        -- apply Qlt_shift_div_r; [lra|]. rewrite E. lra.
        -- exfalso. apply Hne. rewrite Htot, Hsum, E. lra.
      * exfalso. apply Hne. rewrite Htot, Hsum.
        destruct (py_max_cases (5#10) s) as [E|E]; fold m in E; [|rewrite E; lra].
        unfold m, py_max in *. destruct (Qlt_bool (5#10) s) eqn:E'; [|apply Qlt_bool_false in E'; lra].
        rewrite E in Hm |- *. apply Qlt_bool_true in E'. lra.
Qed.

Lemma apply_consensus_balanced (below : bool) (agents : list agent) (r : resources)
    (suggestions : odict Z ratio_suggestion) :
  balanced below r →
  ∃ r', _apply_consensus_adjustments agents r suggestions = Ok r' ∧ balanced below r'.
Proof.
  unfold _apply_consensus_adjustments.
  generalize (foldl (λ counts (s : Z * ratio_suggestion),
                       if has_adjustment s.2 then od_count counts (suggestion s.2) else counts)
                    [] suggestions).
  intros counts. revert r. induction counts as [|item counts IH]; intros r Hr.
  - by exists r.
  - cbn [foldl]. destruct (apply_adjustment_balanced below (majority agents) r item Hr)
      as (r1 & -> & Hr1). by apply IH.
Qed.

Lemma base_ratios_balanced (strategy : base_method) :
  balanced (match strategy with
            | needs_first | equality_based => false
            | _ => true
            end) (_get_base_ratios strategy).
Proof.
  destruct strategy; (split; [by vm_compute|]); eexists; (split; [by vm_compute|]);
    by vm_compute.
Qed.

Lemma negotiate_framework_balanced {V} (agents : list agent) (principles : odict string V) :
  ∃ fw, _negotiate_framework agents principles = Ok fw
        ∧ strategy fw = _determine_allocation_strategy principles
        ∧ balanced (match strategy fw with
                    | needs_first | equality_based => false
                    | _ => true
                    end) (ratios fw).
Proof.
  unfold _negotiate_framework, _negotiate_allocation_ratios, _discuss_ratio_adjustments.
  set (st := _determine_allocation_strategy principles).
  destruct (apply_consensus_balanced _ agents (_get_base_ratios st)
              (foldl (λ suggestions a,
                        od_set suggestions (id a)
                          (_get_ratio_adjustment_suggestion a (_get_base_ratios st)))
                     [] agents) (base_ratios_balanced st)) as (r' & -> & Hr').
  eexists. split; [reflexivity|]. by split.
Qed.

(** X5.  The framework stage never raises, and the ratios of its framework
    add up to 1, whatever the principles and whatever the households
    suggest. *)
Theorem framework_ratios_sum_to_one {V} (agents : list agent) (principles : odict string V) :
  ∃ fw, _negotiate_framework agents principles = Ok fw ∧ sum_values (ratios fw) == 1.
Proof.
  destruct (negotiate_framework_balanced agents principles) as (fw & Hfw & _ & Hsum & _).
  by exists fw.
Qed.

(** X6.  The survival guarantee of the framework is at least one half
    exactly under the strategies [needs_first] and [equality_based].
    Under the two others it stays below one half, also after the
    consensus adjustment that asks for 50% or more: the adjustment sets it
    to 0.5 and the re-balancing then divides it by a total above 1. *)
Theorem framework_survival_guarantee_side {V} (agents : list agent)
    (principles : odict string V) (fw : framework) :
  _negotiate_framework agents principles = Ok fw →
  ∃ s, ratios fw !! "survival_guarantee" = Some s
       ∧ (1#2 <= s ↔ strategy fw = needs_first ∨ strategy fw = equality_based).
Proof.
  intros Hfw.
  destruct (negotiate_framework_balanced agents principles) as (fw' & Hfw' & _ & _ & s & Hs & Hside).
  assert (fw' = fw) as -> by congruence.
  exists s. split; [done|].
  destruct (strategy fw); split; intros H; try lra; auto;
    destruct H as [H|H]; discriminate.
Qed.

Lemma framework_survival_guarantee_side_witness :
  ∃ fw, _negotiate_framework altruistic_majority labor_principles = Ok fw
        ∧ ∃ s, ratios fw !! "survival_guarantee" = Some s
               ∧ (1#2 <= s ↔ strategy fw = needs_first ∨ strategy fw = equality_based).
Proof.
  eexists. split; [reflexivity|].
  apply (framework_survival_guarantee_side altruistic_majority labor_principles).
  reflexivity.
Defined.

(** With two altruistic households out of three under the strategy
    [contribution_based], the adjustment is applied and the survival
    guarantee ends at 5/11. *)
Example consensus_adjustment_ends_below_half :
  ∃ fw, _negotiate_framework altruistic_majority labor_principles = Ok fw
        ∧ strategy fw = contribution_based
        ∧ default 0 (ratios fw !! "survival_guarantee") == 5#11.
Proof. eexists. split; [reflexivity|]. split; by vm_compute. Qed.

(** ** The details stage: redistribution for survival *)

Lemma entry_add_cell_eq (d : allocation) (k : Z) (r : string) (x c : Q) :
  entry d k r = Some c → entry (add_cell d k r x) k r = Some (c + x).
Proof.
  intros H. rewrite entry_add_cell, decide_True by done. by rewrite H.
Qed.

Lemma entry_add_cell_ne (d : allocation) (k : Z) (r : string) (x : Q) (k' : Z) (r' : string) :
  k ≠ k' ∨ r ≠ r' → entry (add_cell d k r x) k' r' = entry d k' r'.
Proof.
  intros H. rewrite entry_add_cell, decide_False; [done|]. intros [-> ->]. by destruct H.
Qed.

Lemma transfer_loop_spec (needy : Z) (l : list (Z * Q)) (δ : Q) (d out : allocation) :
  NoDup l.*1 → needy ∉ l.*1 →
  (∀ k s, (k, s) ∈ l → is_Some (entry d k "grain") ∧ 0 <= s) →
  transfer_loop needy l δ d = Ok out →
  total_allocated out == total_allocated d
  ∧ (∀ k r, r ≠ "grain" ∨ (k ≠ needy ∧ k ∉ l.*1) → entry out k r = entry d k r)
  ∧ (∀ k s c, (k, s) ∈ l → entry d k "grain" = Some c →
       ∃ c', entry out k "grain" = Some c' ∧ c - s * (1#2) <= c' ∧ c' <= c)
  ∧ (∀ n, entry d needy "grain" = Some n →
       ∃ n', entry out needy "grain" = Some n' ∧ n <= n' ∧ (0 <= δ → n' <= n + δ)).
Proof.
  revert δ d. induction l as [|[k s] l IH]; intros δ d Hnd Hneedy Hl Hrun.
  - simpl in Hrun. injection Hrun as <-. split; [reflexivity|]. split; [done|].
    split; [intros k s c Hin; by apply elem_of_nil in Hin|].
    intros n Hn. exists n. split; [done | split; lra].
  - cbn [fmap list_fmap] in Hnd, Hneedy. simpl in Hnd, Hneedy.
    apply NoDup_cons in Hnd as [Hk Hnd].
    apply not_elem_of_cons in Hneedy as [Hnk Hneedy].
    destruct (Hl k s (list_elem_of_here _ _)) as [[c Hc] Hs].
    cbn [transfer_loop] in Hrun.
    destruct (Qle_bool δ 0) eqn:Hδ.
    { injection Hrun as <-. split; [reflexivity|]. split; [done|]. split.
      - intros k' s' c' Hin Hc'. exists c'. split; [done|].
        destruct (Hl k' s' Hin) as [_ Hs']. lra.
      - intros n Hn. exists n. split; [done | split; lra]. }
    apply Qle_bool_false in Hδ.
    set (t := py_min (s * (5 # 10)) δ) in *.
    assert (Ht : 0 <= t ∧ t <= s * (1#2) ∧ t <= δ).
    { pose proof (py_min_le_l (s * (5#10)) δ) as H1.
      pose proof (py_min_le_r (s * (5#10)) δ) as H2. fold t in H1, H2.
      split; [|split; lra].
      destruct (py_min_cases (s * (5#10)) δ) as [E|E]; fold t in E; rewrite E; lra. }
    set (d1 := add_cell d k "grain" (- t)) in *.
    destruct (entry d1 needy "grain") as [n1|] eqn:Hn1; [|discriminate].
    set (d2 := add_cell d1 needy "grain" t) in *.
    assert (Hd1k : entry d1 k "grain" = Some (c + - t)) by by apply entry_add_cell_eq.
    assert (Hd2k : entry d2 k "grain" = Some (c + - t)).
    { unfold d2. rewrite entry_add_cell_ne by (left; congruence). done. }
    assert (Hd2n : entry d2 needy "grain" = Some (n1 + t)) by by apply entry_add_cell_eq.
    assert (Hdn : entry d needy "grain" = Some n1).
    { rewrite <- Hn1. unfold d1. symmetry. apply entry_add_cell_ne. left; congruence. }
    assert (Hother : ∀ k' r, r ≠ "grain" ∨ (k' ≠ needy ∧ k' ≠ k) →
                     entry d2 k' r = entry d k' r).
    { intros k' r H. unfold d2, d1.
      rewrite !entry_add_cell_ne; [done | |]; destruct H as [?|[? ?]]; auto. }
    assert (Htot : total_allocated d2 == total_allocated d).
    { unfold d2. rewrite total_allocated_add_cell by (by rewrite Hn1).
      unfold d1. rewrite total_allocated_add_cell by (by rewrite Hc). lra. }
    destruct (IH (δ - t) d2 Hnd Hneedy) as (T & O & D & N); [|done|].
    { intros k' s' Hin. destruct (Hl k' s' (list_elem_of_further _ _ _ Hin)) as [Hsome Hs'].
      split; [|done]. rewrite Hother; [done|]. right. split.
      - intros ->. apply Hneedy. by apply (list_elem_of_fmap_2 fst _ (needy, s')).
      - intros ->. apply Hk. by apply (list_elem_of_fmap_2 fst _ (k, s')). }
    split; [by rewrite T|]. split; [|split].
    + intros k' r H. rewrite O, Hother; [done| |].
      * destruct H as [?|[? H]]; [by left|]. right. split; [done|].
        intros ->. apply H. left.
      * destruct H as [?|[? H]]; [by left|]. right. split; [done|].
        intros Hin. apply H. by right.
    + intros k' s' c' Hin Hc'. apply elem_of_cons in Hin as [E|Hin].
      * injection E as -> ->. assert (c' = c) as -> by congruence.
        exists (c + - t). split; [|lra].
        rewrite O; [done|]. right. split; [congruence | done].
      * apply (D k' s' c' Hin). rewrite Hother; [done|]. right. split.
        -- intros ->. apply Hneedy. by apply (list_elem_of_fmap_2 fst _ (needy, s')).
        -- intros ->. apply Hk. by apply (list_elem_of_fmap_2 fst _ (k, s')).
    + intros n Hn. assert (n = n1) as -> by congruence.
      destruct (N _ Hd2n) as (n' & Hn' & Hle & Hup). exists n'.
      split; [done|]. split; [lra|]. intros _. assert (n' <= n1 + t + (δ - t)) by (apply Hup; lra).
      lra.
Qed.

Lemma foldl_raise {A B} (step : result B → A → result B) (l : list A) (e : exn) :
  (∀ x, step (Raise e) x = Raise e) → foldl step (Raise e) l = Raise e.
Proof. intros H. induction l as [|x l IH]; [done|]. cbn [foldl]. by rewrite H. Qed.

Lemma surplus_agents_spec (agents : list agent) (needs d : allocation) (needy : Z)
    (l : list (Z * Q)) :
  surplus_agents agents needs d needy = Ok l →
  sublist (l.*1) (id <$> agents)
  ∧ (needy ∉ l.*1)
  ∧ (∀ k s, (k, s) ∈ l →
       ∃ c, entry d k "grain" = Some c ∧ s = c - need_of needs k ∧ need_of needs k < c)
  ∧ (∀ a, a ∈ agents → id a ≠ needy → is_Some (entry d (id a) "grain")).
Proof.
  unfold surplus_agents.
  set (step := λ (acc : result (list (Z * Q))) (a : agent), _).
  assert (G : ∀ agents acc l, foldl step (Ok acc) agents = Ok l →
            ∃ l', l = acc ++ l'
                  ∧ sublist (l'.*1) (id <$> agents)
                  ∧ (needy ∉ l'.*1)
                  ∧ (∀ k s, (k, s) ∈ l' →
                       ∃ c, entry d k "grain" = Some c ∧ s = c - need_of needs k
                            ∧ need_of needs k < c)
                  ∧ (∀ a, a ∈ agents → id a ≠ needy → is_Some (entry d (id a) "grain"))).
  { clear agents l. induction agents as [|a agents IH]; intros acc l Hrun.
    - simpl in Hrun. injection Hrun as <-. exists []. rewrite app_nil_r.
      split; [done|]. split; [constructor|]. split; [apply not_elem_of_nil|].
      split; [intros k s H; by apply elem_of_nil in H | intros a H; by apply elem_of_nil in H].
    - cbn [foldl] in Hrun. unfold step at 2 in Hrun. cbn [mbind result_bind] in Hrun.
      case_bool_decide as Hid.
      + destruct (IH _ _ Hrun) as (l' & -> & Hsub & Hn & Hl & Hsome).
        exists l'. split; [done|]. split; [by apply sublist_cons|]. split; [done|].
        split; [done|]. intros b Hb Hne. apply elem_of_cons in Hb as [->|Hb]; [done|].
        by apply Hsome.
      + destruct (entry d (id a) "grain") as [c|] eqn:Hc.
        2:{ rewrite foldl_raise in Hrun by done. discriminate. }
        destruct (Qlt_bool (need_of needs (id a)) c) eqn:Hlt.
        * destruct (IH _ _ Hrun) as (l' & -> & Hsub & Hn & Hl & Hsome).
          exists ((id a, c - need_of needs (id a)) :: l').
          split; [by rewrite <- app_assoc|]. split; [by apply sublist_skip|].
          split; [by apply not_elem_of_cons|]. split.
          -- intros k s Hin. apply elem_of_cons in Hin as [E|Hin]; [|by apply Hl].
             injection E as -> ->. exists c. apply Qlt_bool_true in Hlt. done.
          -- intros b Hb Hne. apply elem_of_cons in Hb as [->|Hb]; [by rewrite Hc|].
             by apply Hsome.
        * destruct (IH _ _ Hrun) as (l' & -> & Hsub & Hn & Hl & Hsome).
          exists l'. split; [done|]. split; [by apply sublist_cons|]. split; [done|].
          split; [done|]. intros b Hb Hne.
          apply elem_of_cons in Hb as [->|Hb]; [by rewrite Hc|]. by apply Hsome. }
  intros Hrun. destruct (G _ _ _ Hrun) as (l' & -> & H). done.
Qed.

Lemma entry_add_cell_None (d : allocation) (k : Z) (r : string) (x : Q) (k' : Z) (r' : string) :
  entry d k' r' = None → entry (add_cell d k r x) k' r' = None.
Proof. intros H. rewrite entry_add_cell. case_decide; by rewrite H. Qed.

Lemma transfer_loop_absent (needy : Z) (l : list (Z * Q)) (δ : Q) (d out : allocation)
    (k : Z) (r : string) :
  transfer_loop needy l δ d = Ok out → entry d k r = None → entry out k r = None.
Proof.
  revert δ d. induction l as [|[k' s] l IH]; intros δ d Hrun Hk.
  - simpl in Hrun. by injection Hrun as <-.
  - cbn [transfer_loop] in Hrun. destruct (Qle_bool δ 0); [by injection Hrun as <-|].
    destruct (entry (add_cell d k' "grain" _) needy "grain"); [|discriminate].
    apply (IH _ _ Hrun). by do 2 apply entry_add_cell_None.
Qed.

Lemma redistribute_absent (agents : list agent) (needs d out : allocation) (needy : Z)
    (δ : Q) (k : Z) (r : string) :
  _redistribute_for_survival agents needs d needy δ = Ok out →
  entry d k r = None → entry out k r = None.
Proof.
  unfold _redistribute_for_survival.
  destruct (surplus_agents agents needs d needy); [|discriminate].
  cbn [mbind result_bind]. apply transfer_loop_absent.
Qed.

(** What one redistribution does: it moves grain, between listed agents
    only; it takes at most half of what a donor holds above its need; it
    gives to the agent in need, at most the deficit. *)
Lemma redistribute_spec (agents : list agent) (needs d out : allocation) (needy : Z) (δ : Q) :
  NoDup (id <$> agents) →
  _redistribute_for_survival agents needs d needy δ = Ok out →
  total_allocated out == total_allocated d
  ∧ (∀ k r, r ≠ "grain" ∨ (k ≠ needy ∧ k ∉ id <$> agents) → entry out k r = entry d k r)
  ∧ (∀ a c, a ∈ agents → id a ≠ needy → entry d (id a) "grain" = Some c →
       ∃ c', entry out (id a) "grain" = Some c' ∧ c' <= c
             ∧ (need_of needs (id a) <= c → c - (c - need_of needs (id a)) * (1#2) <= c')
             ∧ (c <= need_of needs (id a) → c' = c))
  ∧ (∀ n, entry d needy "grain" = Some n →
       ∃ n', entry out needy "grain" = Some n' ∧ n <= n' ∧ (0 <= δ → n' <= n + δ)).
Proof.
  intros Hnd. unfold _redistribute_for_survival.
  destruct (surplus_agents agents needs d needy) as [l|e] eqn:Hl; [|discriminate].
  cbn [mbind result_bind]. intros Hrun.
  apply surplus_agents_spec in Hl as (Hsub & Hneedy & Hl & Hsome).
  set (sl := sorted_desc (λ x : Z * Q, x.2) l) in *.
  assert (Hp : sl ≡ₚ l) by apply sorted_by_perm.
  assert (Hnd' : NoDup (sl.*1)).
  { rewrite Hp. eapply sublist_NoDup; [|done]. done. }
  assert (Hneedy' : needy ∉ sl.*1) by (by rewrite Hp).
  destruct (transfer_loop_spec needy sl δ d out Hnd' Hneedy') as (T & O & D & N); [|done|].
  { intros k s Hin. rewrite Hp in Hin. destruct (Hl k s Hin) as (c & Hc & -> & Hlt).
    split; [by rewrite Hc | lra]. }
  split; [done|]. split; [|split; [|done]].
  - intros k r H. apply O. destruct H as [?|[? H]]; [by left|]. right. split; [done|].
    intros Hin. apply H. rewrite Hp in Hin. eapply elem_of_sublist; done.
  - intros a c Ha Hne Hc.
    destruct (decide (id a ∈ sl.*1)) as [Hin|Hout].
    + apply list_elem_of_fmap in Hin as ([k s] & Hk & Hin). simpl in Hk. subst k.
      destruct (D _ _ _ Hin Hc) as (c' & Hc' & Hlo & Hhi).
      rewrite Hp in Hin. destruct (Hl _ _ Hin) as (c0 & Hc0 & -> & Hlt).
      assert (c0 = c) as -> by congruence.
      exists c'. split; [done|]. split; [done|]. split; intros; lra.
    + exists c. rewrite O by (right; done). split; [done|]. split; [lra|].
      split; [intros; lra | done].
Qed.

(** The invariant of the loop of [_handle_special_cases]. *)
Lemma handle_special_cases_spec (agents : list agent) (needs base out : allocation) :
  NoDup (id <$> agents) →
  _handle_special_cases agents needs base = Ok out →
  total_allocated out == total_allocated base
  ∧ (∀ k r, r ≠ "grain" ∨ k ∉ id <$> agents → entry out k r = entry base k r)
  ∧ (∀ a, a ∈ agents →
       ∃ c c', entry base (id a) "grain" = Some c ∧ entry out (id a) "grain" = Some c'
               ∧ (need_of needs (id a) <= c → need_of needs (id a) <= c')
               ∧ (c <= need_of needs (id a) → c <= c' ∧ c' <= need_of needs (id a))).
Proof.
  intros Hnd. unfold _handle_special_cases.
  set (step := λ (acc : result allocation) (a : agent), _).
  assert (G : ∀ l d out, l ⊆ agents → foldl step (Ok d) l = Ok out →
            total_allocated out == total_allocated d
            ∧ (∀ k r, r ≠ "grain" ∨ k ∉ id <$> agents → entry out k r = entry d k r)
            ∧ (∀ a, a ∈ l → is_Some (entry d (id a) "grain"))
            ∧ (∀ a c, a ∈ agents → entry d (id a) "grain" = Some c →
                 ∃ c', entry out (id a) "grain" = Some c'
                       ∧ (need_of needs (id a) <= c → need_of needs (id a) <= c')
                       ∧ (c <= need_of needs (id a) →
                            c <= c' ∧ c' <= need_of needs (id a)))).
  { induction l as [|a l IH]; intros d out' Hsub Hrun.
    - simpl in Hrun. injection Hrun as <-. split; [reflexivity|]. split; [done|].
      split; [intros a H; by apply elem_of_nil in H|].
      intros a c _ Hc. exists c. split; [done|]. split; [done | lra].
    - cbn [foldl] in Hrun. unfold step at 2 in Hrun. cbn [mbind result_bind] in Hrun.
      assert (Ha : a ∈ agents) by (apply Hsub; left).
      assert (Hsub' : l ⊆ agents) by (intros b Hb; apply Hsub; by right).
      destruct (entry d (id a) "grain") as [c|] eqn:Hc.
      2:{ rewrite foldl_raise in Hrun by done. discriminate. }
      destruct (Qlt_bool c (need_of needs (id a))) eqn:Hlt.
      + apply Qlt_bool_true in Hlt.
        destruct (_redistribute_for_survival agents needs d (id a)
                    (need_of needs (id a) - c)) as [d1|e] eqn:Hd1.
        2:{ rewrite foldl_raise in Hrun by done. discriminate. }
        destruct (redistribute_spec _ _ _ _ _ _ Hnd Hd1) as (T1 & O1 & D1 & N1).
        destruct (IH _ _ Hsub' Hrun) as (T & O & S & D).
        destruct (N1 _ Hc) as (n' & Hn' & Hge & Hup).
        assert (Hstep : ∀ b cb, b ∈ agents → entry d (id b) "grain" = Some cb →
                  ∃ cb', entry d1 (id b) "grain" = Some cb'
                         ∧ (need_of needs (id b) <= cb → need_of needs (id b) <= cb')
                         ∧ (cb <= need_of needs (id b) →
                              cb <= cb' ∧ cb' <= need_of needs (id b))).
        { intros b cb Hb Hcb. destruct (decide (id b = id a)) as [E|E].
          - rewrite E in *. assert (cb = c) as -> by congruence.
            exists n'. split; [done|]. split; intros; [lra|].
            split; [done|]. assert (n' <= c + (need_of needs (id a) - c)) by (apply Hup; lra).
            lra.
          - destruct (D1 b cb Hb E Hcb) as (cb' & Hcb' & Hk0 & Hk1 & Hk2).
            exists cb'. split; [done|]. split; [intros H; specialize (Hk1 H); lra|].
            intros H. rewrite (Hk2 H). lra. }
        split; [by rewrite T, T1|]. split; [|split].
        * intros k r H. rewrite O by done. apply O1.
          destruct H as [?|H]; [by left|]. right. split; [|done].
          intros ->. apply H. by apply list_elem_of_fmap_2.
        * intros b Hb. apply elem_of_cons in Hb as [->|Hb]; [by rewrite Hc|].
          destruct (S b Hb) as [cb1 Hcb1].
          destruct (entry d (id b) "grain") as [cb|] eqn:Hcb; [done|].
          exfalso. rewrite (redistribute_absent _ _ _ _ _ _ _ _ Hd1 Hcb) in Hcb1. discriminate.
        * intros b cb Hb Hcb.
          destruct (Hstep b cb Hb Hcb) as (cb1 & Hcb1 & K1 & K2).
          destruct (D b cb1 Hb Hcb1) as (cb' & Hcb' & L1 & L2).
          exists cb'. split; [done|]. split.
          -- intros H. apply L1, K1, H.
          -- intros H. destruct (K2 H) as [? ?]. destruct (L2 ltac:(done)) as [? ?].
             split; lra.
      + apply Qlt_bool_false in Hlt.
        destruct (IH _ _ Hsub' Hrun) as (T & O & S & D).
        split; [done|]. split; [done|]. split; [|done].
        intros b Hb. apply elem_of_cons in Hb as [->|Hb]; [by rewrite Hc | by apply S]. }
  intros Hrun. destruct (G agents base out ltac:(done) Hrun) as (T & O & S & D).
  split; [done|]. split; [done|].
  intros a Ha. destruct (S a Ha) as [c Hc].
  destruct (D a c Ha Hc) as (c' & Hc' & H1 & H2). by exists c, c'.
Qed.

(** X7.  [_redistribute_for_survival], the agent ids being distinct: the
    total stays the same; a listed donor gives up at most half of what it
    holds above its own need, and a household at or below its need gives
    nothing; the household in need receives at most the deficit. *)
Theorem redistribution_takes_half_the_surplus (agents : list agent)
    (survival_needs alloc out : allocation) (needy_agent_id : Z) (deficit : Q) :
  NoDup (id <$> agents) → 0 <= deficit →
  _redistribute_for_survival agents survival_needs alloc needy_agent_id deficit = Ok out →
  total_allocated out == total_allocated alloc
  ∧ (∀ a c, a ∈ agents → id a ≠ needy_agent_id → entry alloc (id a) "grain" = Some c →
       ∃ c', entry out (id a) "grain" = Some c' ∧ c' <= c
             ∧ (need_of survival_needs (id a) <= c →
                  c - (c - need_of survival_needs (id a)) * (1#2) <= c')
             ∧ (c <= need_of survival_needs (id a) → c' = c))
  ∧ (∀ n, entry alloc needy_agent_id "grain" = Some n →
       ∃ n', entry out needy_agent_id "grain" = Some n' ∧ n <= n' ∧ n' <= n + deficit).
Proof.
  intros Hnd Hδ Hrun.
  destruct (redistribute_spec _ _ _ _ _ _ Hnd Hrun) as (T & _ & D & N).
  split; [done|]. split; [done|].
  intros n Hn. destruct (N n Hn) as (n' & Hn' & Hge & Hup).
  exists n'. split; [done|]. split; [done | by apply Hup].
Qed.

Lemma redistribution_takes_half_the_surplus_witness :
  ∃ out, _redistribute_for_survival three_agents three_needs uneven_allocation 2 4 = Ok out
  ∧ total_allocated out == total_allocated uneven_allocation
  ∧ (∀ a c, a ∈ three_agents → id a ≠ 2%Z → entry uneven_allocation (id a) "grain" = Some c →
       ∃ c', entry out (id a) "grain" = Some c' ∧ c' <= c
             ∧ (need_of three_needs (id a) <= c →
                  c - (c - need_of three_needs (id a)) * (1#2) <= c')
             ∧ (c <= need_of three_needs (id a) → c' = c))
  ∧ (∀ n, entry uneven_allocation 2 "grain" = Some n →
       ∃ n', entry out 2 "grain" = Some n' ∧ n <= n' ∧ n' <= n + 4).
Proof.
  eexists. split; [reflexivity|].
  apply (redistribution_takes_half_the_surplus three_agents three_needs uneven_allocation
           _ 2 4); [compute_done | by vm_compute | reflexivity].
Defined.

(** X8.  [_handle_special_cases], the agent ids being distinct: the total
    stays the same; a household that held its survival need still holds
    it; a household under its need loses nothing and is not raised above
    its need. *)
Theorem special_cases_keep_total_and_floors (agents : list agent)
    (survival_needs base_allocation out : allocation) :
  NoDup (id <$> agents) →
  _handle_special_cases agents survival_needs base_allocation = Ok out →
  total_allocated out == total_allocated base_allocation
  ∧ (∀ a, a ∈ agents →
       ∃ c c', entry base_allocation (id a) "grain" = Some c
               ∧ entry out (id a) "grain" = Some c'
               ∧ (need_of survival_needs (id a) <= c → need_of survival_needs (id a) <= c')
               ∧ (c <= need_of survival_needs (id a) →
                    c <= c' ∧ c' <= need_of survival_needs (id a))).
Proof.
  intros Hnd Hrun.
  destruct (handle_special_cases_spec _ _ _ _ Hnd Hrun) as (T & _ & D). by split.
Qed.

Lemma special_cases_keep_total_and_floors_witness :
  ∃ out, _handle_special_cases three_agents three_needs uneven_allocation = Ok out
  ∧ total_allocated out == total_allocated uneven_allocation
  ∧ (∀ a, a ∈ three_agents →
       ∃ c c', entry uneven_allocation (id a) "grain" = Some c
               ∧ entry out (id a) "grain" = Some c'
               ∧ (need_of three_needs (id a) <= c → need_of three_needs (id a) <= c')
               ∧ (c <= need_of three_needs (id a) →
                    c <= c' ∧ c' <= need_of three_needs (id a))).
Proof.
  eexists. split; [reflexivity|].
  apply (special_cases_keep_total_and_floors three_agents three_needs uneven_allocation);
    [compute_done | reflexivity].
Defined.

(** On [uneven_allocation] the first household gives half of its surplus
    of 5; the second, 4 under its need, ends 1.5 under it. *)
Example special_cases_leave_a_deficit :
  ∃ out, _handle_special_cases three_agents three_needs uneven_allocation = Ok out
         ∧ Forall2 (λ g v, ∃ x, g = Some x ∧ x == v)
                   (grain_column three_agents out) [75#10; 35#10; 2].
Proof.
  eexists. split; [reflexivity|].
  repeat constructor; eexists; (split; [by vm_compute|]); by vm_compute.
Qed.

(** ** The details stage: the base allocations *)

Lemma total_allocated_set_cell_over (d : allocation) (k : Z) (r : string) (old v : Q) :
  entry d k r = Some old →
  total_allocated (set_cell d k r v) == total_allocated d - old + v.
Proof.
  unfold entry, set_cell. intros Hv.
  destruct (d !! k) as [row|] eqn:Hrow; simpl in Hv; [|done]. simpl.
  rewrite <- (insert_delete_id d k row) at 2 by done.
  rewrite <- (insert_delete_eq d k).
  rewrite !total_allocated_insert by apply lookup_delete_eq.
  rewrite (sum_values_insert_over row r old v Hv). lra.
Qed.

Lemma foldl_set_cell_over (v old : agent → Q) (r : string) (l : list agent) (d : allocation) :
  NoDup (id <$> l) → (∀ a, a ∈ l → entry d (id a) r = Some (old a)) →
  total_allocated (foldl (λ d a, set_cell d (id a) r (v a)) d l)
  == total_allocated d - list_total (old <$> l) + list_total (v <$> l).
Proof.
  revert d. induction l as [|a l IH]; intros d Hnd Hold.
  - simpl. lra.
  - rewrite fmap_cons in Hnd. apply NoDup_cons in Hnd as [Ha Hnd].
    cbn [foldl]. rewrite IH; [|done|].
    + rewrite (total_allocated_set_cell_over d (id a) r (old a)) by (apply Hold; left).
      rewrite !fmap_cons, !list_total_cons. lra.
    + intros b Hb. rewrite entry_set_cell, decide_False; [apply Hold; by right|].
      intros [E _]. apply Ha. rewrite E. by apply list_elem_of_fmap_2.
Qed.

Lemma foldl_set_cell_is_Some_in (v : agent → Q) (r : string) (l : list agent)
    (d : allocation) (k : Z) :
  is_Some (entry d k r) → is_Some (entry (foldl (λ d a, set_cell d (id a) r (v a)) d l) k r).
Proof. apply foldl_set_cell_is_Some. Qed.

Lemma initial_proposal_entry (agents : list agent) (k : Z) (r : string) :
  entry (_initialize_empty_proposal agents) k r
  = if decide (k ∈ id <$> agents) then ({["grain" := 0]} : resources) !! r else None.
Proof.
  unfold entry, _initialize_empty_proposal. rewrite lookup_rows_const.
  by case_decide.
Qed.

Lemma initial_proposal_grain (agents : list agent) (a : agent) :
  a ∈ agents → entry (_initialize_empty_proposal agents) (id a) "grain" = Some 0.
Proof.
  intros Ha. rewrite initial_proposal_entry, decide_True by (by apply list_elem_of_fmap_2).
  apply lookup_singleton_eq.
Qed.

Lemma initial_proposal_total (agents : list agent) :
  total_allocated (_initialize_empty_proposal agents) == 0.
Proof.
  rewrite total_allocated_list. apply list_total_all_zero, Forall_forall.
  intros x Hx. apply list_elem_of_fmap in Hx as ([k row] & -> & Hin). simpl.
  apply elem_of_map_to_list in Hin. unfold _initialize_empty_proposal in Hin.
  rewrite lookup_rows_const in Hin. case_decide; [|done].
  injection Hin as <-. apply sum_values_singleton.
Qed.

Lemma foldl_keep {A B} (l : list A) (d : B) : foldl (λ d _, d) d l = d.
Proof. by induction l. Qed.

Lemma need_of_from_option (needs : allocation) (k : Z) :
  need_of needs k == from_option sum_values 0 (needs !! k).
Proof.
  unfold need_of. destruct (needs !! k); [reflexivity|]. apply sum_values_empty.
Qed.

(** The needs of the listed agents are all the needs there are, when the
    need map lists no one else. *)
Lemma need_of_total (needs : allocation) (agents : list agent) :
  NoDup (id <$> agents) → (∀ k, is_Some (needs !! k) → k ∈ id <$> agents) →
  list_total ((λ a, need_of needs (id a)) <$> agents) == total_allocated needs.
Proof.
  intros Hnd Hdom. rewrite total_allocated_list.
  rewrite <- (listed_needs_total sum_values needs agents Hnd Hdom).
  apply list_total_fmap_ext. intros a _. apply need_of_from_option.
Qed.

Lemma lookup_foldl_insert_by {A B} (key : A → Z) (val : A → B) (l : list A) (x : A) :
  NoDup (key <$> l) → x ∈ l →
  foldl (λ (m : gmap Z B) a, <[key a := val a]> m) ∅ l !! key x = Some (val x).
Proof.
  intros Hnd Hx.
  assert (F : ∀ l' (m : gmap Z B) k, k ∉ key <$> l' →
            foldl (λ m a, <[key a := val a]> m) m l' !! k = m !! k).
  { induction l' as [|c l' IH']; intros m k Hc; simpl; [done|].
    rewrite fmap_cons in Hc. apply not_elem_of_cons in Hc as [Hc1 Hc2].
    rewrite IH' by done. by rewrite lookup_insert_ne. }
  assert (G : ∀ l (m : gmap Z B), NoDup (key <$> l) → x ∈ l →
            foldl (λ m a, <[key a := val a]> m) m l !! key x = Some (val x)).
  { clear l Hnd Hx. induction l as [|b l IH]; intros m Hl Hin; [by apply elem_of_nil in Hin|].
    rewrite fmap_cons in Hl. apply NoDup_cons in Hl as [Hb Hl]. cbn [foldl].
    apply elem_of_cons in Hin as [->|Hin]; [|by apply IH].
    rewrite F by done. by rewrite lookup_insert_eq. }
  by apply G.
Qed.

Lemma needs_first_total (agents : list agent) (needs : allocation) (total_grain g : Q)
    (ratios : resources) :
  NoDup (id <$> agents) → (∀ k, is_Some (needs !! k) → k ∈ id <$> agents) →
  ratios !! "survival_guarantee" = Some g →
  ∃ out, _calculate_needs_first_allocation agents needs total_grain ratios = Ok out
    ∧ total_allocated out
      == (if Qlt_bool 0 (total_allocated needs) then total_grain * g else 0)
         + (if Qlt_bool 0 (total_grain - total_grain * g)
               && Qlt_bool 0 (list_total (need_weight <$> agents))
            then total_grain - total_grain * g else 0).
Proof.
  intros Hnd Hdom Hg. unfold _calculate_needs_first_allocation. rewrite Hg.
  set (tsn := total_allocated needs).
  set (d0 := _initialize_empty_proposal agents).
  set (d1 := foldl _ d0 agents).
  assert (Hd1some : ∀ a, a ∈ agents → is_Some (entry d1 (id a) "grain")).
  { intros a Ha. unfold d1. destruct (Qlt_bool 0 tsn).
    - apply foldl_set_cell_is_Some. unfold d0. by rewrite initial_proposal_grain.
    - rewrite foldl_keep. unfold d0. by rewrite initial_proposal_grain. }
  assert (Hd1 : total_allocated d1 == if Qlt_bool 0 tsn then total_grain * g else 0).
  { unfold d1. destruct (Qlt_bool 0 tsn) eqn:Htsn.
    - rewrite (foldl_set_cell_over _ (λ _, 0)); [|done|].
      2:{ intros a Ha. by apply initial_proposal_grain. }
      unfold d0. rewrite initial_proposal_total.
      rewrite (list_total_fmap_const 0).
      rewrite (list_total_fmap_ext _ (λ a, need_of needs (id a) * (/ tsn * (total_grain * g)))).
      2:{ intros a _. unfold Qdiv. ring. }
      rewrite (list_total_fmap_scale (λ a, need_of needs (id a))).
      rewrite need_of_total by done. fold tsn. apply Qlt_bool_true in Htsn.
      field. lra.
    - rewrite foldl_keep. apply initial_proposal_total. }
  destruct (Qlt_bool 0 (total_grain - total_grain * g)) eqn:Hrem;
    [|exists d1; split; [done|]; rewrite Hd1; simpl; lra].
  eexists. split; [reflexivity|].
  set (tw := foldl (λ acc a, acc + need_weight a) 0 agents).
  assert (Htw : tw == list_total (need_weight <$> agents)).
  { unfold tw. rewrite (foldl_plus_list_total need_weight). lra. }
  rewrite <- (Qlt_bool_proper 0 0 ltac:(reflexivity) _ _ Htw).
  destruct (Qlt_bool 0 tw) eqn:Hw.
  - rewrite foldl_add_cell_total by done. rewrite Hd1. simpl andb. cbv iota.
    rewrite (list_total_fmap_ext _
               (λ a, need_weight a * (/ tw * (total_grain - total_grain * g)))).
    2:{ intros a Ha. rewrite (lookup_foldl_insert_by id need_weight) by done.
        simpl. unfold Qdiv. ring. }
    rewrite (list_total_fmap_scale need_weight), <- Htw.
    apply Qlt_bool_true in Hw. field. lra.
  - rewrite foldl_keep, Hd1. simpl. lra.
Qed.

Lemma need_weight_pos (a : agent) :
  (0 < members a)%Z → 0 < need_weight a.
Proof.
  intros Hm. unfold need_weight.
  assert (Hq : 0 < inject_Z (members a)).
  { change 0 with (inject_Z 0). rewrite <- Zlt_Qlt. lia. }
  destruct (Z.ltb_spec 0 (labor_force a)) as [Hl|Hl].
  - assert (Hq' : 0 < inject_Z (labor_force a)).
    { change 0 with (inject_Z 0). rewrite <- Zlt_Qlt. lia. }
    apply Qmult_lt_0_compat; [done|]. apply Qlt_shift_div_l; [done | lra].
  - apply Qmult_lt_0_compat; [done | lra].
Qed.

(** X9.  [_calculate_needs_first_allocation] hands out the whole grain:
    with distinct agent ids, a need map that lists the agents only and
    holds a positive total, households that all have members, a positive
    amount of grain and a survival guarantee below 1, the amounts add up
    to [total_grain]. *)
Theorem needs_first_allocation_hands_out_all (agents : list agent)
    (survival_needs : allocation) (total_grain survival_guarantee : Q) (ratios : resources) :
  NoDup (id <$> agents) →
  (∀ k, is_Some (survival_needs !! k) → k ∈ id <$> agents) →
  0 < total_allocated survival_needs →
  (∀ a, a ∈ agents → (0 < members a)%Z) →
  ratios !! "survival_guarantee" = Some survival_guarantee →
  survival_guarantee < 1 → 0 < total_grain →
  ∃ out, _calculate_needs_first_allocation agents survival_needs total_grain ratios = Ok out
         ∧ total_allocated out == total_grain.
Proof.
  intros Hnd Hdom Hneeds Hmem Hg Hg1 Hgrain.
  destruct (needs_first_total agents survival_needs total_grain survival_guarantee ratios
              Hnd Hdom Hg) as (out & Hout & Htot).
  exists out. split; [done|]. rewrite Htot.
  assert (Hne : agents ≠ []).
  { intros ->. assert (E : survival_needs = ∅).
    { apply map_eq. intros k. rewrite lookup_empty.
      destruct (survival_needs !! k) eqn:Hk; [|done].
      exfalso. assert (Hin : k ∈ id <$> []) by (apply Hdom; by rewrite Hk).
      by apply elem_of_nil in Hin. }
    rewrite E, total_allocated_empty in Hneeds. lra. }
  assert (Hw : 0 < list_total (need_weight <$> agents)).
  { apply list_total_pos; [by destruct agents|].
    intros x Hx. apply list_elem_of_fmap in Hx as (a & -> & Ha).
    by apply need_weight_pos, Hmem. }
  assert (Hrem : 0 < total_grain - total_grain * survival_guarantee).
  { assert (E : total_grain - total_grain * survival_guarantee
                == total_grain * (1 - survival_guarantee)) by ring.
    rewrite E. apply Qmult_lt_0_compat; lra. }
  apply Qlt_bool_true in Hneeds, Hw, Hrem. rewrite Hneeds, Hw, Hrem. simpl. ring.
Qed.

Lemma needs_first_allocation_hands_out_all_witness :
  ∃ out, _calculate_needs_first_allocation three_agents three_needs 100
           (_get_base_ratios needs_first) = Ok out
         ∧ total_allocated out == 100.
Proof.
  apply (needs_first_allocation_hands_out_all three_agents three_needs 100 (6#10)).
  - compute_done.
  - apply three_needs_listed.
  - by vm_compute.
  - apply three_agents_have_members.
  - by vm_compute.
  - by vm_compute.
  - by vm_compute.
Defined.

(** X10.  [_calculate_contribution_allocation], the agent ids being
    distinct, gives every household its full survival need and, when
    someone works, shares out the contribution budget on top: the amounts
    add up to the needs of the listed households plus
    [total_grain × contribution_reward], whatever [total_grain] and the
    survival guarantee are. *)
Theorem contribution_allocation_total (agents : list agent) (survival_needs : allocation)
    (total_grain survival_guarantee contribution_reward : Q) (ratios : resources) :
  NoDup (id <$> agents) →
  ratios !! "survival_guarantee" = Some survival_guarantee →
  ratios !! "contribution_reward" = Some contribution_reward →
  ∃ out, _calculate_contribution_allocation agents survival_needs total_grain ratios = Ok out
         ∧ total_allocated out
           == list_total ((λ a, need_of survival_needs (id a)) <$> agents)
              + (if (0 <? total_labor_force agents)%Z
                 then total_grain * contribution_reward else 0).
Proof.
  intros Hnd Hg Hc. unfold _calculate_contribution_allocation. rewrite Hg, Hc.
  set (d1 := foldl _ (_initialize_empty_proposal agents) agents).
  assert (Hd1some : ∀ a, a ∈ agents → is_Some (entry d1 (id a) "grain")).
  { intros a Ha. apply foldl_set_cell_is_Some. by rewrite initial_proposal_grain. }
  assert (Hd1 : total_allocated d1
                == list_total ((λ a, need_of survival_needs (id a)) <$> agents)).
  { unfold d1. rewrite (foldl_set_cell_over _ (λ _, 0)); [|done|].
    2:{ intros a Ha. by apply initial_proposal_grain. }
    rewrite initial_proposal_total, (list_total_fmap_const 0). lra. }
  destruct (Z.ltb_spec 0 (total_labor_force agents)) as [Hl|Hl].
  - eexists. split; [reflexivity|].
    rewrite foldl_add_cell_total by done. rewrite Hd1.
    rewrite (list_total_fmap_ext
               (λ a, inject_Z (labor_force a) / inject_Z (total_labor_force agents)
                     * (total_grain * contribution_reward))
               (λ a, inject_Z (labor_force a)
                     * (/ inject_Z (total_labor_force agents)
                        * (total_grain * contribution_reward)))).
    2:{ intros a _. cbv beta. unfold Qdiv. ring. }
    rewrite (list_total_fmap_scale (λ a, inject_Z (labor_force a))), list_total_labor.
    field. change 0 with (inject_Z 0). rewrite inject_Z_injective. lia.
  - exists d1. split; [done|]. rewrite Hd1. lra.
Qed.

Lemma contribution_allocation_total_witness :
  ∃ out, _calculate_contribution_allocation three_agents three_needs 10
           (_get_base_ratios contribution_based) = Ok out
         ∧ total_allocated out
           == list_total ((λ a, need_of three_needs (id a)) <$> three_agents)
              + (if (0 <? total_labor_force three_agents)%Z then 10 * (5#10) else 0).
Proof.
  apply (contribution_allocation_total three_agents three_needs 10 (4#10) (5#10));
    [compute_done | by vm_compute | by vm_compute].
Defined.

(** With 10 units of grain and needs of 12, the contribution-based
    allocation hands out 17. *)
Example contribution_allocation_exceeds_grain :
  ∃ out, _calculate_contribution_allocation three_agents three_needs 10
           (_get_base_ratios contribution_based) = Ok out
         ∧ total_allocated out == 17.
Proof. eexists. split; [reflexivity | by vm_compute]. Qed.

(** ** The details stage: mediation, and the vote on adjustments *)

Lemma foldl_add_grain_if_total {A} (cond : A → bool) (key : A → Z) (amount : A → Q)
    (l : list A) (d out : allocation) :
  foldl (λ acc x, acc ≫= λ adjusted : allocation,
           if cond x then add_grain adjusted (key x) (amount x) else Ok adjusted)
        (Ok d) l = Ok out →
  total_allocated out
  == total_allocated d + list_total ((λ x, if cond x then amount x else 0) <$> l).
Proof.
  revert d. induction l as [|x l IH]; intros d Hrun.
  - simpl in Hrun. injection Hrun as <-. simpl. lra.
  - cbn [foldl mbind result_bind] in Hrun. rewrite fmap_cons, list_total_cons.
    destruct (cond x).
    + unfold add_grain in Hrun at 2.
      destruct (entry d (key x) "grain") as [c|] eqn:Hc.
      2:{ rewrite foldl_raise in Hrun by done. discriminate. }
      rewrite (IH _ Hrun), total_allocated_add_cell by (by rewrite Hc). lra.
    + rewrite (IH _ Hrun). lra.
Qed.

Lemma foldl_add_grain_total {A} (key : A → Z) (amount : A → Q)
    (l : list A) (d out : allocation) :
  foldl (λ acc x, acc ≫= λ adjusted : allocation, add_grain adjusted (key x) (amount x))
        (Ok d) l = Ok out →
  total_allocated out == total_allocated d + list_total (amount <$> l).
Proof.
  intros Hrun.
  rewrite (foldl_add_grain_if_total (λ _, true) key amount l d out Hrun).
  reflexivity.
Qed.

Lemma mediation_donors_spec (needs adjusted : allocation) (satisfied : list agent)
    (donors : list (Z * Q)) :
  mediation_donors needs adjusted satisfied = Ok donors →
  ∀ k s, (k, s) ∈ donors → 1 < s.
Proof.
  unfold mediation_donors.
  set (step := λ (acc : result (list (Z * Q))) (a : agent), _).
  assert (G : ∀ l acc donors, foldl step (Ok acc) l = Ok donors →
            (∀ k s, (k, s) ∈ acc → 1 < s) → ∀ k s, (k, s) ∈ donors → 1 < s).
  { induction l as [|a l IH]; intros acc ds Hrun Hacc.
    - simpl in Hrun. by injection Hrun as <-.
    - cbn [foldl] in Hrun. unfold step at 2 in Hrun. cbn [mbind result_bind] in Hrun.
      destruct (adjusted !! id a) as [row|].
      2:{ rewrite foldl_raise in Hrun by done. discriminate. }
      destruct (Qlt_bool 1 (sum_values row - need_of needs (id a))) eqn:E.
      + apply (IH _ _ Hrun). intros k s Hin.
        apply elem_of_app in Hin as [Hin|Hin]; [by eapply Hacc|].
        apply list_elem_of_singleton in Hin. injection Hin as -> ->.
        by apply Qlt_bool_true in E.
      + by apply (IH _ _ Hrun). }
  intros Hrun. apply (G _ _ _ Hrun). intros k s H. by apply elem_of_nil in H.
Qed.

Lemma list_total_gt_one (l : list Q) :
  l ≠ [] → (∀ x, x ∈ l → 1 < x) → 1 < list_total l.
Proof.
  intros Hne H. destruct l as [|x l]; [done|]. rewrite list_total_cons.
  assert (1 < x) by (apply H; left).
  assert (0 <= list_total l).
  { apply list_total_nonneg. intros y Hy. assert (1 < y) by (apply H; by right). lra. }
  lra.
Qed.

(** A transfer shared out in proportion to positive parts is handed out
    in full. *)
Lemma shares_of_transfer {A} (part : A → Q) (total transfer : Q) (l : list A) :
  ¬ total == 0 → list_total (part <$> l) == total →
  list_total ((λ x, part x / total * transfer) <$> l) == transfer.
Proof.
  intros Hne Hsum.
  rewrite (list_total_fmap_ext _ (λ x, part x * (/ total * transfer)))
    by (intros x _; cbv beta; unfold Qdiv; ring).
  rewrite (list_total_fmap_scale part), Hsum. field. done.
Qed.

Lemma negotiate_disputed_total (agents : list agent) (needs : allocation) (total_grain : Q)
    (alloc out : allocation) (opinions : odict Z opinion) :
  (∀ k op, (k, op) ∈ opinions → has_objection op = true → 0 <= requested_increase op) →
  _negotiate_disputed_allocations agents needs total_grain alloc opinions = Ok out →
  total_allocated out == total_allocated alloc.
Proof.
  intros Hreq. unfold _negotiate_disputed_allocations.
  set (disputed := List.filter _ opinions).
  assert (Hd : ∀ d, d ∈ disputed → 0 <= requested_increase d.2).
  { intros [k op] Hin. apply list_elem_of_In, filter_In in Hin as [Hin Hobj].
    apply (Hreq k op); [by apply list_elem_of_In | done]. }
  clearbody disputed.
  case_bool_decide; [by intros [= <-]|].
  set (tn := Qsum _).
  destruct (Qlt_bool (Qabs tn) (5#10)); [by intros [= <-]|].
  unfold _mediate_allocation_adjustment.
  destruct (Qlt_bool 0 tn) eqn:Htn; [|by intros [= <-]].
  apply Qlt_bool_true in Htn.
  case_bool_decide; [by intros [= <-]|].
  destruct (mediation_donors needs alloc _) as [donors|] eqn:Hdonors; [|discriminate].
  cbn [mbind result_bind].
  case_bool_decide as Hne; [by intros [= <-]|].
  set (ta := Qsum (donors.*2)).
  set (at_ := py_min _ (ta * (3#10))).
  destruct (foldl _ (Ok alloc) donors) as [d1|] eqn:Hd1; [|discriminate].
  cbn [mbind result_bind]. intros Hout.
  apply (foldl_add_grain_total fst (λ donor, - (donor.2 / ta * at_))) in Hd1.
  apply (foldl_add_grain_if_total (λ d : Z * opinion, Qlt_bool 0 (requested_increase d.2))
           fst (λ d, requested_increase d.2 / tn * at_)) in Hout.
  rewrite Hout, Hd1.
  assert (Hta : 1 < ta).
  { unfold ta. rewrite Qsum_list_total. apply list_total_gt_one.
    - by destruct donors.
    - intros s Hs. apply list_elem_of_fmap in Hs as ([k s'] & -> & Hin).
      by apply (mediation_donors_spec _ _ _ _ Hdonors k). }
  assert (E1 : list_total ((λ donor : Z * Q, - (donor.2 / ta * at_)) <$> donors) == - at_).
  { rewrite (list_total_fmap_ext _ (λ donor, donor.2 / ta * at_ * (-1)))
      by (intros x _; cbv beta; ring).
    rewrite (list_total_fmap_scale (λ donor : Z * Q, donor.2 / ta * at_)).
    rewrite (shares_of_transfer snd ta at_); [ring | lra |].
    unfold ta. by rewrite Qsum_list_total. }
  assert (E2 : list_total ((λ d : Z * opinion,
                              if Qlt_bool 0 (requested_increase d.2)
                              then requested_increase d.2 / tn * at_ else 0) <$> disputed)
               == at_).
  { rewrite (list_total_fmap_ext _ (λ d, requested_increase d.2 / tn * at_)).
    - apply shares_of_transfer; [lra|]. unfold tn. by rewrite Qsum_list_total.
    - intros d Hin. cbv beta. destruct (Qlt_bool 0 (requested_increase d.2)) eqn:E;
        [reflexivity|].
      apply Qlt_bool_false in E. pose proof (Hd d Hin) as Hge.
      assert (E0 : requested_increase d.2 == 0) by lra. rewrite E0.
      unfold Qdiv. ring. }
  rewrite E1, E2. ring.
Qed.

(** X11.  [_negotiate_disputed_allocations] moves grain from donors to
    the households that object and creates none, provided no objecting
    household expects less than it was allocated. *)
Theorem mediation_conserves_grain (agents : list agent) (survival_needs : allocation)
    (total_grain : Q) (alloc out : allocation) (opinions : odict Z opinion) :
  (∀ k op, (k, op) ∈ opinions → has_objection op = true →
     allocated_amount op <= expected_amount op) →
  _negotiate_disputed_allocations agents survival_needs total_grain alloc opinions = Ok out →
  total_allocated out == total_allocated alloc.
Proof.
  intros Hreq. apply negotiate_disputed_total.
  intros k op Hin Hobj. specialize (Hreq k op Hin Hobj). unfold requested_increase. lra.
Qed.

Lemma mediation_conserves_grain_witness :
  ∃ out, _negotiate_disputed_allocations three_agents three_needs 30 uneven_allocation
           (_collect_allocation_opinions three_agents second_objects uneven_allocation)
         = Ok out
         ∧ total_allocated out == total_allocated uneven_allocation.
Proof.
  eexists. split; [reflexivity|].
  apply (mediation_conserves_grain three_agents three_needs 30 uneven_allocation _
           (_collect_allocation_opinions three_agents second_objects uneven_allocation));
    [|reflexivity].
  intros k op Hin Hobj. apply list_elem_of_In in Hin. vm_compute in Hin.
  destruct Hin as [E|[E|[E|[]]]]; injection E as <- <-; by vm_compute.
Defined.

(** When an objecting household expects less than it holds, the shares
    of the others are still computed against the net request: here 1.5
    units leave the donor and 1.8 reach the second household. *)
Example mediation_creates_grain :
  ∃ out, _negotiate_disputed_allocations three_agents three_needs 30 uneven_allocation
           (_collect_allocation_opinions three_agents third_asks_less uneven_allocation)
         = Ok out
         ∧ total_allocated out == total_allocated uneven_allocation + (3#10).
Proof. eexists. split; [reflexivity | by vm_compute]. Qed.

Lemma increase_needed_nonneg (p : adjustment_proposal) : 0 <= increase_needed p.
Proof. apply py_max_ge_l. Qed.

Lemma vote_total (agents : list agent) (total_grain : Q) (alloc out : allocation)
    (proposals : list adjustment_proposal) :
  _vote_on_adjustments agents total_grain alloc proposals = Ok out →
  total_allocated out == total_allocated alloc.
Proof.
  unfold _vote_on_adjustments.
  case_bool_decide; [by intros [= <-]|].
  case_bool_decide; [discriminate|].
  set (tin := Qsum (increase_needed <$> proposals)).
  destruct (potential_donors agents alloc proposals _) as [donors|]; [|discriminate].
  cbn [mbind result_bind].
  case_bool_decide; [by intros [= <-]|].
  set (ta := Qsum (donors.*2)).
  set (at_ := py_min tin (ta * (5#10))).
  destruct (Qlt_bool (5#10) at_) eqn:Hat; [|by intros [= <-]].
  apply Qlt_bool_true in Hat.
  pose proof (py_min_le_l tin (ta * (5#10))) as Hm1.
  pose proof (py_min_le_r tin (ta * (5#10))) as Hm2. fold at_ in Hm1, Hm2.
  destruct (foldl _ (Ok alloc) donors) as [d1|] eqn:Hd1; [|discriminate].
  cbn [mbind result_bind]. intros Hout.
  apply (foldl_add_grain_total fst (λ donor, - (donor.2 / ta * at_))) in Hd1.
  apply (foldl_add_grain_if_total (λ p, Qlt_bool 0 (increase_needed p))
           proposer_id (λ p, increase_needed p / tin * at_)) in Hout.
  rewrite Hout, Hd1.
  assert (E1 : list_total ((λ donor : Z * Q, - (donor.2 / ta * at_)) <$> donors) == - at_).
  { rewrite (list_total_fmap_ext _ (λ donor, donor.2 / ta * at_ * (-1)))
      by (intros x _; cbv beta; ring).
    rewrite (list_total_fmap_scale (λ donor : Z * Q, donor.2 / ta * at_)).
    rewrite (shares_of_transfer snd ta at_); [ring | lra |].
    unfold ta. by rewrite Qsum_list_total. }
  assert (E2 : list_total ((λ p, if Qlt_bool 0 (increase_needed p)
                                 then increase_needed p / tin * at_ else 0) <$> proposals)
               == at_).
  { rewrite (list_total_fmap_ext _ (λ p, increase_needed p / tin * at_)).
    - apply shares_of_transfer; [lra|]. unfold tin. by rewrite Qsum_list_total.
    - intros p _. cbv beta. destruct (Qlt_bool 0 (increase_needed p)) eqn:E; [reflexivity|].
      apply Qlt_bool_false in E. pose proof (increase_needed_nonneg p) as Hge.
      assert (E0 : increase_needed p == 0) by lra. rewrite E0.
      unfold Qdiv. ring. }
  rewrite E1, E2. ring.
Qed.

(** X12.  [_vote_on_adjustments] only moves grain: whatever the
    proposals, the allocation it returns holds the total it was given. *)
Theorem vote_on_adjustments_conserves_grain (agents : list agent) (total_grain : Q)
    (current_allocation out : allocation) (proposals : list adjustment_proposal) :
  _vote_on_adjustments agents total_grain current_allocation proposals = Ok out →
  total_allocated out == total_allocated current_allocation.
Proof. apply vote_total. Qed.

Lemma vote_on_adjustments_conserves_grain_witness :
  ∃ out, _vote_on_adjustments three_agents 13 uneven_allocation second_proposes = Ok out
         ∧ total_allocated out == total_allocated uneven_allocation.
Proof.
  eexists. split; [reflexivity|].
  apply (vote_on_adjustments_conserves_grain three_agents 13 uneven_allocation _
           second_proposes).
  reflexivity.
Defined.

(** In that vote the first household gives 2 + 5/6 units to the second. *)
Example vote_moves_grain :
  ∃ out, _vote_on_adjustments three_agents 13 uneven_allocation second_proposes = Ok out
         ∧ Forall2 (λ g v, ∃ x, g = Some x ∧ x == v)
                   (grain_column three_agents out) [10 - (17#6); 1 + (17#6); 2].
Proof.
  eexists. split; [reflexivity|].
  do 3 (constructor; [eexists; split; by vm_compute|]). constructor.
Qed.

Lemma validate_total (total_grain : Q) (d out : allocation) :
  _validate_and_optimize total_grain d = Ok out →
  Qabs (total_allocated out - total_grain) <= 1#100.
Proof.
  unfold _validate_and_optimize.
  destruct (Qlt_bool (1#100) (Qabs (total_allocated d - total_grain))) eqn:E.
  - destruct (Qeq_bool (total_allocated d) 0) eqn:E0; [discriminate|].
    intros [= <-]. rewrite total_allocated_scale.
    assert (Hne : ¬ total_allocated d == 0).
    { intros H. apply Qeq_bool_iff in H. congruence. }
    assert (Ez : total_allocated d * (total_grain / total_allocated d) - total_grain == 0)
      by (field; done).
    rewrite Ez. by vm_compute.
  - intros [= <-]. by apply Qlt_bool_false in E.
Qed.

(** X13.  Whatever the framework and whatever the households answer, an
    allocation returned by the details stage holds [total_grain] up to
    0.01: the stage ends with a re-normalization, so the share that the
    ratios call community reserve is handed out as well. *)
Theorem details_stage_hands_out_total_grain (agents : list agent)
    (survival_needs : allocation) (total_grain : Q) (answer : agent → bool * option Q)
    (framework : framework) (out : allocation) :
  _build_detailed_proposal agents survival_needs total_grain answer framework = Ok out →
  Qabs (total_allocated out - total_grain) <= 1#100.
Proof.
  unfold _build_detailed_proposal.
  destruct (_calculate_base_allocation _ _ _ _) as [d0|]; [|discriminate].
  cbn [mbind result_bind].
  destruct (_handle_special_cases _ _ _) as [d1|]; [|discriminate].
  cbn [mbind result_bind].
  destruct (_validate_and_optimize total_grain d1) as [d2|]; [|discriminate].
  cbn [mbind result_bind].
  match goal with |- (?x ≫= _) = _ → _ => destruct x as [d3|]; [|discriminate] end.
  cbn [mbind result_bind]. apply validate_total.
Qed.

Lemma details_stage_hands_out_total_grain_witness :
  ∃ out, _build_detailed_proposal three_agents three_needs 100 second_objects
           contribution_framework = Ok out
         ∧ Qabs (total_allocated out - 100) <= 1#100.
Proof.
  destruct (_build_detailed_proposal three_agents three_needs 100 second_objects
              contribution_framework) as [out|e] eqn:E.
  - exists out. split; [done|].
    apply (details_stage_hands_out_total_grain three_agents three_needs 100 second_objects
             contribution_framework out E).
  - by vm_compute in E.
Defined.

(** There the ratios keep a community reserve of one tenth, and the
    households receive the whole 100 all the same. *)
Example details_stage_hands_out_the_reserve :
  ratios contribution_framework !! "community_reserve" = Some (1#10)
  ∧ ∃ out, _build_detailed_proposal three_agents three_needs 100 second_objects
             contribution_framework = Ok out
           ∧ total_allocated out == 100.
Proof.
  split; [by vm_compute|].
  destruct (_build_detailed_proposal three_agents three_needs 100 second_objects
              contribution_framework) as [out|e] eqn:E; vm_compute in E; [|discriminate].
  exists out. split; [done|]. injection E as <-. by vm_compute.
Qed.

(** ** The two integerizations *)

Lemma sum_values_grain_only (row : resources) :
  (∀ r, r ≠ "grain" → row !! r = None) → sum_values row == default 0 (row !! "grain").
Proof.
  intros H. destruct (row !! "grain") as [v|] eqn:Hv.
  - assert (E : row = {["grain" := v]}).
    { apply map_eq. intros r. destruct (decide (r = "grain")) as [->|Hr].
      - by rewrite lookup_singleton_eq.
      - rewrite lookup_singleton_ne by done. by apply H. }
    rewrite E. apply sum_values_singleton.
  - assert (E : row = ∅).
    { apply map_eq. intros r. rewrite lookup_empty.
      destruct (decide (r = "grain")) as [->|Hr]; [done | by apply H]. }
    rewrite E. apply sum_values_empty.
Qed.

Lemma need_of_grain_only (needs : allocation) (k : Z) :
  (∀ k row, needs !! k = Some row → ∀ r, r ≠ "grain" → row !! r = None) →
  need_of needs k == get2 needs k "grain".
Proof.
  intros H. unfold need_of, get2. destruct (needs !! k) as [row|] eqn:Hk; simpl.
  - apply sum_values_grain_only. by apply (H k).
  - rewrite lookup_empty. apply sum_values_empty.
Qed.

Lemma split_steps_agree (real : gmap Z Q) (needs : allocation) (st : int_state) (aid : Z) :
  (∀ k row, needs !! k = Some row → ∀ r, r ≠ "grain" → row !! r = None) →
  split_step_all_needs real needs true st aid = split_step real (Some needs) true st aid.
Proof.
  intros H. unfold split_step_all_needs, split_step. f_equal. f_equal.
  pose proof (need_of_grain_only needs aid H) as E.
  cbn [andb]. unfold need_floor. cbn [default].
  rewrite (Qlt_bool_proper 0 0 ltac:(reflexivity) _ _ E).
  rewrite (Qceiling_comp _ _ E).
  destruct (truthy (Some needs)) eqn:Ht; [done|].
  destruct (Qlt_bool 0 (get2 needs aid "grain")) eqn:Hpos; [|done].
  exfalso. unfold truthy in Ht. apply negb_false_iff, bool_decide_eq_true in Ht.
  apply map_size_empty_iff in Ht. subst needs.
  unfold get2 in Hpos. rewrite lookup_empty in Hpos. simpl in Hpos.
  rewrite lookup_empty in Hpos. simpl in Hpos. discriminate.
Qed.

Lemma foldl_pointwise {A B} (f g : B → A → B) (l : list A) (b : B) :
  (∀ b a, f b a = g b a) → foldl f b l = foldl g b l.
Proof.
  intros H. revert b. induction l as [|a l IH]; intros b; [done|].
  cbn [foldl]. by rewrite H, IH.
Qed.

Lemma integerize_allocation_lookup (agents : list agent) (needs alloc : allocation) (k : Z) :
  (∀ k row, needs !! k = Some row → ∀ r, r ≠ "grain" → row !! r = None) →
  _integerize_allocation agents needs alloc true !! k
  = if decide (k ∈ id <$> agents)
    then Some {["grain" := inject_Z (default 0%Z
                 (integer_grain (id <$> agents) alloc (Some needs) true !! k))]}
    else None.
Proof.
  intros H. unfold _integerize_allocation. rewrite lookup_dict_comp.
  case_decide; [|done]. do 4 f_equal.
  unfold integer_grain, prepared.
  assert (E : foldl (split_step_all_needs
                       (dict_comp (λ aid, get2 alloc aid "grain") (id <$> agents)) needs true)
                    {| base := ∅; frac := ∅; min_need := ∅ |} (id <$> agents)
              = foldl (split_step
                         (dict_comp (λ aid, get2 alloc aid "grain") (id <$> agents))
                         (Some needs) true)
                      {| base := ∅; frac := ∅; min_need := ∅ |} (id <$> agents)).
  { apply foldl_pointwise. intros st aid. by apply split_steps_agree. }
  by rewrite E.
Qed.

(** X14.  The integerization of the negotiation and the one of the
    strategies give the listed households the same grain, when the needs
    are needs of grain and the strategies' function does not return
    early; the rows of the negotiation's function hold nothing but
    grain. *)
Theorem integerizations_agree_on_grain (total_resources : resources) (agents : list agent)
    (survival_needs alloc : allocation) :
  agents ≠ [] → size alloc ≠ 0%nat →
  (∀ k row, survival_needs !! k = Some row → ∀ r, r ≠ "grain" → row !! r = None) →
  ∀ k r,
    entry (_integerize_allocation agents survival_needs alloc true) k r
    = if decide (r = "grain")
      then entry (integerize_distribution total_resources agents alloc
                    (Some survival_needs) true) k "grain"
      else None.
Proof.
  intros Ha Hd Hneeds k r. unfold entry at 1.
  rewrite integerize_allocation_lookup by done.
  destruct (decide (k ∈ id <$> agents)) as [Hk|Hk]; simpl.
  - case_decide as Hr.
    + subst r. rewrite lookup_singleton_eq.
      by rewrite integerize_distribution_grain.
    + by rewrite lookup_singleton_ne.
  - case_decide; [|done]. unfold entry, integerize_distribution.
    rewrite bool_decide_eq_false_2 by done.
    rewrite bool_decide_eq_false_2 by done. simpl.
    rewrite assemble_lookup, decide_False by done.
    by rewrite lookup_dict_comp, decide_False by done.
Qed.

Lemma three_needs_grain_only (k : Z) (row : resources) :
  three_needs !! k = Some row → ∀ r, r ≠ "grain" → row !! r = None.
Proof.
  unfold three_needs. intros Hrow r Hr.
  destruct (decide (k = 1%Z)) as [->|H1];
    [rewrite lookup_insert_eq in Hrow; injection Hrow as <-; by rewrite lookup_singleton_ne|].
  rewrite lookup_insert_ne in Hrow by done.
  destruct (decide (k = 2%Z)) as [->|H2];
    [rewrite lookup_insert_eq in Hrow; injection Hrow as <-; by rewrite lookup_singleton_ne|].
  rewrite lookup_insert_ne in Hrow by done.
  destruct (decide (k = 3%Z)) as [->|H3];
    [rewrite lookup_insert_eq in Hrow; injection Hrow as <-; by rewrite lookup_singleton_ne|].
  by rewrite lookup_insert_ne, lookup_empty in Hrow.
Qed.

Lemma integerizations_agree_on_grain_witness :
  entry (_integerize_allocation three_agents three_needs uneven_allocation true) 2 "grain"
  = if decide ("grain" = "grain")
    then entry (integerize_distribution {["grain" := 13]} three_agents uneven_allocation
                  (Some three_needs) true) 2 "grain"
    else None.
Proof.
  apply (integerizations_agree_on_grain {["grain" := 13]} three_agents three_needs
           uneven_allocation); [done | by vm_compute | apply three_needs_grain_only].
Defined.

(** ** Ordered dictionaries *)

Lemma od_get_set {K V} `{EqDecision K} (d : odict K V) (k k' : K) (v : V) :
  od_get (od_set d k v) k' = if decide (k = k') then Some v else od_get d k'.
Proof.
  induction d as [|[k0 v0] d IH]; simpl.
  - destruct (decide (k = k')); [done|]. done.
  - destruct (decide (k0 = k)) as [->|Hk0]; simpl.
    + destruct (decide (k = k')); [done|]. done.
    + destruct (decide (k0 = k')) as [->|Hk0'].
      * by rewrite decide_False by done.
      * apply IH.
Qed.

Lemma od_set_keys {K V} `{EqDecision K} (d : odict K V) (k : K) (v : V) :
  (od_set d k v).*1 = if decide (k ∈ d.*1) then d.*1 else d.*1 ++ [k].
Proof.
  induction d as [|[k0 v0] d IH].
  - destruct (decide (k ∈ ([] : odict K V).*1)) as [H|H]; [by apply elem_of_nil in H | done].
  - cbn [od_set]. rewrite (fmap_cons fst (k0, v0) d). cbn [fst].
    destruct (decide (k0 = k)) as [->|Hk0].
    + rewrite fmap_cons. cbn [fst].
      rewrite (decide_True (P := k ∈ k :: d.*1)); [done | left].
    + rewrite fmap_cons, IH. cbn [fst]. destruct (decide (k ∈ d.*1)) as [Hin|Hout].
      * rewrite (decide_True (P := k ∈ k0 :: d.*1)); [done | by right].
      * rewrite (decide_False (P := k ∈ k0 :: d.*1)); [done|].
        by intros [?|?]%elem_of_cons.
Qed.

Lemma od_set_NoDup {K V} `{EqDecision K} (d : odict K V) (k : K) (v : V) :
  NoDup (d.*1) → NoDup ((od_set d k v).*1).
Proof.
  intros H. rewrite od_set_keys. case_decide as Hk; [done|].
  apply NoDup_app. split; [done|]. split; [|apply NoDup_singleton].
  intros x Hx ->%list_elem_of_singleton. done.
Qed.

Lemma od_get_None {K V} `{EqDecision K} (d : odict K V) (k : K) :
  od_get d k = None ↔ k ∉ d.*1.
Proof.
  induction d as [|[k0 v0] d IH]; simpl.
  - split; [intros _; apply not_elem_of_nil | done].
  - destruct (decide (k0 = k)) as [->|Hk0].
    + split; [done|]. intros H. exfalso. apply H. left.
    + rewrite IH. split; [intros H [?|?]%elem_of_cons; done|].
      intros H Hin. apply H. by right.
Qed.

Lemma od_get_elem_of {K V} `{EqDecision K} (d : odict K V) (k : K) (v : V) :
  NoDup (d.*1) → (k, v) ∈ d ↔ od_get d k = Some v.
Proof.
  induction d as [|[k0 v0] d IH]; intros Hnd; simpl.
  - split; [intros H; by apply elem_of_nil in H | done].
  - simpl in Hnd. apply NoDup_cons in Hnd as [Hk0 Hnd].
    destruct (decide (k0 = k)) as [->|Hne].
    + split.
      * intros [E|Hin]%elem_of_cons; [by injection E as -> |].
        exfalso. apply Hk0. by apply (list_elem_of_fmap_2 fst _ (k, v)).
      * intros [= ->]. left.
    + rewrite <- (IH Hnd). split.
      * intros [E|Hin]%elem_of_cons; [congruence | done].
      * intros Hin. by right.
Qed.

(** A filter that keeps the keys commutes with the lookup, the keys being
    distinct. *)
Lemma od_get_omap {K V W} `{EqDecision K} (f : V → option W) (d : odict K V) (k : K) :
  NoDup (d.*1) →
  od_get (omap (λ kv : K * V, (λ w, (kv.1, w)) <$> f kv.2) d) k = od_get d k ≫= f.
Proof.
  induction d as [|[k0 v0] d IH]; intros Hnd; [done|].
  simpl in Hnd. apply NoDup_cons in Hnd as [Hk0 Hnd].
  cbn [omap list_omap od_get fst snd]. destruct (decide (k0 = k)) as [->|Hne].
  - destruct (f v0) as [w|] eqn:Hf; simpl.
    + by rewrite decide_True.
    + rewrite IH by done. apply od_get_None in Hk0. by rewrite Hk0.
  - destruct (f v0) as [w|]; simpl; [rewrite decide_False by done|]; by apply IH.
Qed.

(** ** The principles stage *)

Lemma od_count_NoDup {K} `{EqDecision K} (d : odict K Z) (k : K) :
  NoDup (d.*1) → NoDup ((od_count d k).*1).
Proof. apply od_set_NoDup. Qed.

Lemma foldl_od_count_NoDup {K} `{EqDecision K} (l : list K) (d : odict K Z) :
  NoDup (d.*1) → NoDup ((foldl od_count d l).*1).
Proof.
  revert d. induction l as [|x l IH]; intros d Hd; [done|].
  cbn [foldl]. by apply IH, od_count_NoDup.
Qed.

(** Counting with [d[k] = d.get(k, 0) + 1] counts. *)
Lemma foldl_od_count_get (names : list string) (acc : odict string Z) (p : string) :
  od_get (foldl od_count acc names) p
  = let c := Z.of_nat (length (List.filter (λ q, bool_decide (q = p)) names)) in
    match od_get acc p with
    | Some v => Some (v + c)%Z
    | None => if decide (c = 0%Z) then None else Some c
    end.
Proof.
  revert acc. induction names as [|x names IH]; intros acc.
  - simpl. destruct (od_get acc p); [f_equal; lia | done].
  - cbn [foldl]. rewrite IH. unfold od_count. rewrite od_get_set.
    cbn [List.filter]. destruct (decide (x = p)) as [->|Hx].
    + rewrite bool_decide_eq_true_2 by done. cbn [length].
      destruct (od_get acc p) as [v|]; cbn [default from_option]; unfold Datatypes.id.
      * f_equal. lia.
      * rewrite decide_False by lia. f_equal. lia.
    + rewrite bool_decide_eq_false_2 by done. done.
Qed.

Lemma principle_counts_flat (prefs : odict Z (list string)) :
  principle_counts prefs
  = foldl od_count [] (_normalize_principle_name <$> mjoin (prefs.*2)).
Proof.
  unfold principle_counts. generalize ([] : odict string Z).
  induction prefs as [|[k l] prefs IH]; intros acc; [done|].
  cbn [foldl fmap list_fmap snd mjoin list_join]. rewrite IH.
  rewrite fmap_app, foldl_app. f_equal.
  clear. revert acc. induction l as [|x l IH]; intros acc; [done|].
  cbn [foldl fmap list_fmap]. apply IH.
Qed.

Lemma length_filter_fmap {A B} (f : A → B) (P : B → bool) (l : list A) :
  length (List.filter P (f <$> l)) = length (List.filter (λ x, P (f x)) l).
Proof.
  induction l as [|x l IH]; [done|]. cbn [fmap list_fmap List.filter].
  destruct (P (f x)); simpl; by rewrite IH.
Qed.

Lemma principle_counts_get (prefs : odict Z (list string)) (p : string) :
  od_get (principle_counts prefs) p
  = if decide (mentions prefs p = 0%Z) then None else Some (mentions prefs p).
Proof.
  rewrite principle_counts_flat, foldl_od_count_get. cbn [od_get].
  unfold mentions. by rewrite length_filter_fmap.
Qed.

Lemma majority_pos (agents : list agent) : (1 ≤ majority agents)%Z.
Proof.
  unfold majority. assert (0 ≤ Z.of_nat (length agents) `div` 2)%Z; [|lia].
  apply Z.div_pos; lia.
Qed.

Lemma find_common_principles_get (agents : list agent) (prefs : odict Z (list string))
    (p : string) :
  od_get (_find_common_principles agents prefs) p
  = if decide (majority agents ≤ mentions prefs p)%Z
    then Some (mentions prefs p, Z.of_nat (length agents)) else None.
Proof.
  unfold _find_common_principles.
  rewrite (list_omap_ext _
             (λ kv : string * Z,
                (λ w, (kv.1, w))
                  <$> (if (majority agents <=? kv.2)%Z
                       then Some (kv.2, Z.of_nat (length agents)) else None))
             _ (principle_counts prefs)).
  2:{ apply Forall2_same_length_lookup_2; [done|]. intros i x y Hx Hy.
      assert (x = y) as -> by congruence. by destruct (majority agents <=? y.2)%Z. }
  rewrite (od_get_omap (λ c : Z, if (majority agents <=? c)%Z
                                 then Some (c, Z.of_nat (length agents)) else None)).
  2:{ rewrite principle_counts_flat. apply foldl_od_count_NoDup. constructor. }
  rewrite principle_counts_get. pose proof (majority_pos agents).
  destruct (decide (mentions prefs p = 0%Z)) as [E|E]; cbn [mbind option_bind].
  - rewrite decide_False by lia. done.
  - destruct (Z.leb_spec (majority agents) (mentions prefs p)).
    + by rewrite decide_True.
    + by rewrite decide_False by lia.
Qed.

(** X15.  [_find_common_principles] lists a principle exactly when the
    households' entries, taken under their normalized names, mention it at
    least [n // 2 + 1] times, and reports that number of mentions.
    Entries are counted, not households: two wordings of one principle
    in the same answer count twice. *)
Theorem common_principles_by_mentions (agents : list agent)
    (principle_preferences : odict Z (list string)) (principle : string) :
  od_get (_find_common_principles agents principle_preferences) principle
  = if decide (majority agents ≤ mentions principle_preferences principle)%Z
    then Some (mentions principle_preferences principle, Z.of_nat (length agents))
    else None.
Proof. apply find_common_principles_get. Qed.

(** One household out of three makes equal shares a common principle by
    naming it in two wordings. *)
Example common_principle_of_one_household :
  od_get (_find_common_principles three_agents
            (collected_preferences three_agents lone_equality_preference)) "平等分配"
  = Some (2%Z, 3%Z).
Proof. by vm_compute. Qed.

Lemma od_get_fmap {K V W} `{EqDecision K} (g : K * V → W) (d : odict K V) (k : K) :
  od_get ((λ kv : K * V, (kv.1, g kv)) <$> d) k
  = (λ v, g (k, v)) <$> od_get d k.
Proof.
  induction d as [|[k0 v0] d IH]; [done|].
  cbn [fmap list_fmap od_get fst]. destruct (decide (k0 = k)) as [->|Hne]; [done|].
  apply IH.
Qed.

Lemma merge_principles_get (common : odict string (Z * Z))
    (discussed_principles : odict string discussion_result) (p : string) :
  NoDup (discussed_principles.*1) →
  od_get (merge_principles common discussed_principles) p
  = match od_get discussed_principles p with
    | Some r => Some (discussed r)
    | None => (λ cn : Z * Z, supported_by cn.1 cn.2) <$> od_get common p
    end.
Proof.
  unfold merge_principles.
  rewrite <- (od_get_fmap (λ kv : string * (Z * Z), supported_by kv.2.1 kv.2.2) common p).
  generalize ((λ kv : string * (Z * Z), (kv.1, supported_by kv.2.1 kv.2.2)) <$> common).
  induction discussed_principles as [|[k v] l IH]; intros acc Hnd; [done|].
  simpl in Hnd. apply NoDup_cons in Hnd as [Hk Hnd].
  cbn [foldl od_get fst snd]. rewrite IH by done. rewrite od_get_set.
  destruct (decide (k = p)) as [->|Hne]; [|done].
  apply od_get_None in Hk. by rewrite Hk.
Qed.

Lemma discuss_disputed_get (agents : list agent) (persuasion : string → agent → string)
    (prefs : odict Z (list string)) (common : odict string (Z * Z))
    (discussed_principles : odict string discussion_result) :
  _discuss_disputed_principles agents persuasion prefs common = Ok discussed_principles →
  NoDup (discussed_principles.*1)
  ∧ ∀ p, p ∈ (disputed prefs common).*1 →
         ∃ r, _moderate_principle_discussion agents (persuasion p) p (list_to_map prefs)
              = Ok r
              ∧ od_get discussed_principles p = Some r.
Proof.
  unfold _discuss_disputed_principles.
  set (step := λ (acc : result (odict string discussion_result)) (d : string * Z), _).
  assert (G : ∀ l acc out, foldl step (Ok acc) l = Ok out → NoDup (acc.*1) →
            NoDup (out.*1)
            ∧ ∀ p, (p ∈ l.*1 →
                      ∃ r, _moderate_principle_discussion agents (persuasion p) p
                             (list_to_map prefs) = Ok r
                           ∧ od_get out p = Some r)
                   ∧ (p ∉ l.*1 → od_get out p = od_get acc p)).
  { induction l as [|[k c] l IH]; intros acc out Hrun Hacc.
    - simpl in Hrun. injection Hrun as <-. split; [done|]. intros p.
      split; [intros H; by apply elem_of_nil in H | done].
    - cbn [foldl] in Hrun. unfold step at 2 in Hrun. cbn [mbind result_bind fst] in Hrun.
      destruct (_moderate_principle_discussion agents (persuasion k) k (list_to_map prefs))
        as [r|] eqn:Hr; cbn [mbind result_bind] in Hrun.
      2:{ rewrite foldl_raise in Hrun by done. discriminate. }
      destruct (IH _ _ Hrun (od_set_NoDup _ _ _ Hacc)) as [Hnd Hget].
      split; [done|]. intros p. destruct (Hget p) as [Hin Hout].
      rewrite fmap_cons. cbn [fst]. split.
      + intros Hp. destruct (decide (p ∈ l.*1)) as [Hl|Hl]; [by apply Hin|].
        apply elem_of_cons in Hp as [->|Hp]; [|done].
        exists r. split; [done|]. rewrite Hout by done. rewrite od_get_set.
        by rewrite decide_True.
      + intros Hp. apply not_elem_of_cons in Hp as [Hne Hl].
        rewrite Hout by done. rewrite od_get_set. by rewrite decide_False. }
  intros Hrun. destruct (G _ _ _ Hrun) as [Hnd Hget]; [constructor|].
  split; [done|]. intros p Hp. by apply Hget.
Qed.

Lemma establish_principles_discussed (agents : list agent)
    (oracle : agent → list string) (persuasion : string → agent → string)
    (final : odict string principle_note) (p : string) :
  _establish_principles agents oracle persuasion = Ok final →
  p ∈ (disputed (collected_preferences agents oracle)
         (_find_common_principles agents (collected_preferences agents oracle))).*1 →
  ∃ r, _moderate_principle_discussion agents (persuasion p) p
         (list_to_map (collected_preferences agents oracle)) = Ok r
       ∧ od_get final p = Some (discussed r).
Proof.
  unfold _establish_principles.
  destruct (_discuss_disputed_principles _ _ _ _) as [dp|] eqn:Hdp; [|discriminate].
  cbn [mbind result_bind]. intros [= <-] Hp.
  apply discuss_disputed_get in Hdp as [Hnd Hget].
  destruct (Hget p Hp) as (r & Hr & Hgetp). exists r. split; [done|].
  by rewrite merge_principles_get, Hgetp.
Qed.

(** X16.  Every principle put to discussion (the two most mentioned
    principles that are not common) is among the final principles of
    [_establish_principles], with the message its discussion ended with,
    whether that message says adopted or not adopted. *)
Theorem discussed_principles_are_final (agents : list agent)
    (_get_principle_preference : agent → list string)
    (persuasion : string → agent → string)
    (final_principles : odict string principle_note) (principle : string) :
  _establish_principles agents _get_principle_preference persuasion = Ok final_principles →
  principle ∈ (disputed (collected_preferences agents _get_principle_preference)
                 (_find_common_principles agents
                    (collected_preferences agents _get_principle_preference))).*1 →
  ∃ r, _moderate_principle_discussion agents (persuasion principle) principle
         (list_to_map (collected_preferences agents _get_principle_preference)) = Ok r
       ∧ od_get final_principles principle = Some (discussed r).
Proof. apply establish_principles_discussed. Qed.

Lemma discussed_principles_are_final_witness :
  ∃ final, _establish_principles three_agents single_mention_preference (λ _ _, "") = Ok final
  ∧ ∃ r, _moderate_principle_discussion three_agents (λ _, "") "平等分配"
           (list_to_map (collected_preferences three_agents single_mention_preference))
         = Ok r
         ∧ od_get final "平等分配" = Some (discussed r).
Proof.
  eexists. split; [by vm_compute|].
  apply (discussed_principles_are_final three_agents single_mention_preference (λ _ _, "")
           _ "平等分配"); [by vm_compute | compute_done].
Defined.

(** Equal shares, named by one household out of three and turned down
    for insufficient support, is a final principle nonetheless, and it
    decides the strategy. *)
Example rejected_principle_decides_strategy :
  _establish_principles three_agents single_mention_preference (λ _ _, "")
  = Ok [("公平合理", supported_by 2 3); ("平等分配", discussed insufficient_support)]
  ∧ _determine_allocation_strategy
      [("公平合理", supported_by 2 3); ("平等分配", discussed insufficient_support)]
    = equality_based
  ∧ _determine_allocation_strategy [("公平合理", supported_by 2 3)] = balanced_hybrid.
Proof. split; [|split]; by vm_compute. Qed.

(** ** Integerization without floors: every share is rounded down or up *)

Lemma list_total_fmap_le {A} (g h : A → Q) (l : list A) :
  (∀ x, x ∈ l → g x <= h x) → list_total (g <$> l) <= list_total (h <$> l).
Proof.
  induction l as [|x l IH]; intros H; [simpl; lra|].
  rewrite !fmap_cons, !list_total_cons.
  assert (g x <= h x) by (apply H; left).
  assert (list_total (g <$> l) <= list_total (h <$> l))
    by (apply IH; intros y Hy; apply H; by right).
  lra.
Qed.

Lemma Qfloor_nonneg (x : Q) : 0 <= x → (0 ≤ Qfloor x)%Z.
Proof. intros H. apply (Qfloor_resp_le 0 x) in H. exact H. Qed.

Lemma integer_grain_share (agent_ids : list Z) (d : allocation)
    (survival_needs : option allocation) (k : Z) :
  NoDup agent_ids → (∀ j, j ∈ agent_ids → 0 <= get2 d j "grain") → k ∈ agent_ids →
  ∃ b, integer_grain agent_ids d survival_needs false !! k = Some b
       ∧ (Qfloor (get2 d k "grain") ≤ b ≤ Qfloor (get2 d k "grain") + 1)%Z.
Proof.
  intros Hnd Hpos Hk. unfold integer_grain.
  set (value := λ j, get2 d j "grain").
  set (real := dict_comp value agent_ids).
  set (st := prepared agent_ids real survival_needs false).
  assert (Hreal : ∀ j, j ∈ agent_ids → default 0 (real !! j) = value j).
  { intros j Hj. subst real. by rewrite lookup_dict_comp, decide_True. }
  assert (Hb : ∀ j, j ∈ agent_ids → base st !! j = Some (Qfloor (value j))).
  { intros j Hj. subst st. rewrite prepared_base by done. cbn [andb]. rewrite Hreal by done.
    f_equal. pose proof (Qfloor_nonneg _ (Hpos j Hj)). unfold value. lia. }
  assert (Hbase : sum_values_Z (base st)
                  = foldr Z.add 0%Z ((λ j, Qfloor (value j)) <$> agent_ids)).
  { subst st. rewrite prepared_base_dict, sum_values_Z_dict_comp by done.
    f_equal. apply list_fmap_ext. intros i j Hij.
    apply list_elem_of_lookup_2 in Hij. cbn [andb]. rewrite Hreal by done.
    pose proof (Qfloor_nonneg _ (Hpos j Hij)). unfold value. lia. }
  assert (Htarget : (sum_values_Z (base st) ≤ py_round (sum_values real))%Z).
  { apply py_round_ge. rewrite Hbase, inject_Z_foldr_add.
    subst real. rewrite sum_values_dict_comp by done.
    apply list_total_fmap_le. intros j _. apply Qfloor_le. }
  destruct (Z.ltb_spec (sum_values_Z (base st)) (py_round (sum_values real))) as [Hlt|Hge].
  - set (order := sorted_desc (λ a, default 0 (frac st !! a)) agent_ids).
    assert (Hperm : order ≡ₚ agent_ids) by apply sorted_by_perm.
    assert (Hin : k ∈ order) by (by rewrite Hperm).
    apply list_elem_of_lookup_1 in Hin as [i Hi].
    rewrite (increment_loop_lookup order _ (base st) i k (Qfloor (value k)));
      [| by rewrite Hperm | done | by apply Hb].
    eexists. split; [reflexivity|]. fold (value k).
    destruct (Z.of_nat i <? _)%Z; lia.
  - destruct (Z.ltb_spec (py_round (sum_values real)) (sum_values_Z (base st))); [lia|].
    exists (Qfloor (value k)). split; [by apply Hb|]. fold (value k). lia.
Qed.

(** X17.  Without survival floors, [integerize_distribution] gives every
    listed household its share of grain rounded down or rounded up, the
    agent ids being distinct and the shares non-negative. *)
Theorem integerize_rounds_each_share (total_resources : resources) (agents : list agent)
    (distribution_result : allocation) (survival_needs : option allocation) (a : agent) :
  NoDup (id <$> agents) → size distribution_result ≠ 0%nat →
  (∀ b, b ∈ agents → 0 <= get2 distribution_result (id b) "grain") →
  a ∈ agents →
  ∃ g : Z,
    entry (integerize_distribution total_resources agents distribution_result
             survival_needs false) (id a) "grain" = Some (inject_Z g)
    ∧ (Qfloor (get2 distribution_result (id a) "grain") ≤ g
       ≤ Qfloor (get2 distribution_result (id a) "grain") + 1)%Z.
Proof.
  intros Hnd Hd Hpos Ha.
  assert (Hne : agents ≠ []) by (intros ->; by apply elem_of_nil in Ha).
  assert (Hk : id a ∈ id <$> agents) by (by apply list_elem_of_fmap_2).
  destruct (integer_grain_share (id <$> agents) distribution_result survival_needs (id a))
    as (g & Hg & Hbounds); [done | | done |].
  { intros j Hj. apply list_elem_of_fmap in Hj as (b & -> & Hb). by apply Hpos. }
  exists g. split; [|done].
  rewrite integerize_distribution_grain by done. by rewrite Hg.
Qed.

Lemma integerize_rounds_each_share_witness :
  ∃ g : Z,
    entry (integerize_distribution {["grain" := 13]} three_agents uneven_allocation
             None false) 2 "grain" = Some (inject_Z g)
    ∧ (Qfloor (get2 uneven_allocation 2 "grain") ≤ g
       ≤ Qfloor (get2 uneven_allocation 2 "grain") + 1)%Z.
Proof.
  apply (integerize_rounds_each_share {["grain" := 13]} three_agents uneven_allocation None
           (household 2 needs_based 4 1)).
  - compute_done.
  - by vm_compute.
  - intros b Hb. each_listed Hb ltac:(by vm_compute).
  - apply list_elem_of_further, list_elem_of_here.
Defined.

(** ** Allocation by declared needs *)

Lemma validate_and_fix_report_spec (report : raw_report) (members labor_force : Z)
    (survival_amount total_resources : Q) (total_members : Z) (fixed : need_report) :
  validate_and_fix_report report members labor_force survival_amount total_resources
    total_members = Ok fixed →
  minimum_acceptable fixed <= requested_amount fixed
  ∧ requested_amount fixed <= max_reasonable members total_resources total_members
  ∧ (minimum_acceptable fixed = requested_amount fixed
     ∨ survival_amount * (8#10) <= minimum_acceptable fixed).
Proof.
  unfold validate_and_fix_report.
  destruct (read_float (raw_requested_amount report)) as [requested|]; [|discriminate].
  destruct (read_float (raw_minimum_acceptable report)) as [minimum|]; [|discriminate].
  cbn [mbind result_bind]. destruct (total_members =? 0)%Z; [discriminate|].
  set (mr := max_reasonable members total_resources total_members).
  set (req := if Qle_bool requested 0 || Qlt_bool mr requested then _ else requested).
  set (m1 := if Qlt_bool minimum (survival_amount * (8#10)) then _ else minimum).
  intros [= <-]. cbn [requested_amount minimum_acceptable].
  assert (Hreq : req <= mr).
  { unfold req. destruct (Qle_bool requested 0); cbn [orb]; [apply py_min_le_r|].
    destruct (Qlt_bool mr requested) eqn:E; [apply py_min_le_r|].
    by apply Qlt_bool_false in E. }
  assert (Hm1 : survival_amount * (8#10) <= m1).
  { unfold m1. destruct (Qlt_bool minimum _) eqn:E; [lra|]. by apply Qlt_bool_false in E. }
  destruct (Qlt_bool req m1) eqn:E.
  - split; [lra|]. split; [done|]. by left.
  - apply Qlt_bool_false in E. split; [done|]. split; [done|]. by right.
Qed.

(** X18.  A report that comes out of [validate_and_fix_report] asks for
    at most three times the household's share by head count, and its
    minimum is at most what it asks for; the minimum is 80% of the
    survival amount or more, unless the request itself is lower. *)
Theorem validated_report_is_consistent (report : raw_report) (members labor_force : Z)
    (survival_amount total_resources : Q) (total_members : Z) (fixed : need_report) :
  validate_and_fix_report report members labor_force survival_amount total_resources
    total_members = Ok fixed →
  minimum_acceptable fixed <= requested_amount fixed
  ∧ requested_amount fixed <= max_reasonable members total_resources total_members
  ∧ (minimum_acceptable fixed = requested_amount fixed
     ∨ survival_amount * (8#10) <= minimum_acceptable fixed).
Proof. apply validate_and_fix_report_spec. Qed.

Lemma validated_report_is_consistent_witness :
  ∃ fixed,
    validate_and_fix_report
      {| raw_requested_amount := number 1000; raw_minimum_acceptable := absent |}
      3 2 5 100 9 = Ok fixed
    ∧ minimum_acceptable fixed <= requested_amount fixed
    ∧ requested_amount fixed <= max_reasonable 3 100 9
    ∧ (minimum_acceptable fixed = requested_amount fixed
       ∨ 5 * (8#10) <= minimum_acceptable fixed).
Proof.
  eexists. split; [reflexivity|].
  apply (validated_report_is_consistent
           {| raw_requested_amount := number 1000; raw_minimum_acceptable := absent |}
           3 2 5 100 9).
  reflexivity.
Defined.

Lemma sum_reports_list (field : need_report → Q) (m : gmap Z need_report) :
  sum_reports field m == list_total (field ∘ snd <$> map_to_list m).
Proof. unfold sum_reports. rewrite map_fold_foldr. apply foldr_sum_values. Qed.

Lemma sum_values_fmap_reports (field : need_report → Q) (m : gmap Z need_report) :
  sum_values (field <$> m) == sum_reports field m.
Proof.
  rewrite sum_values_list, sum_reports_list, map_to_list_fmap.
  rewrite <- !list_fmap_compose. reflexivity.
Qed.

Lemma sum_reports_ext (f g : need_report → Q) (m : gmap Z need_report) :
  (∀ r, f r == g r) → sum_reports f m == sum_reports g m.
Proof.
  intros H. rewrite !sum_reports_list. apply list_total_fmap_ext. intros x _. apply H.
Qed.

Lemma sum_reports_plus (f g : need_report → Q) (m : gmap Z need_report) :
  sum_reports (λ r, f r + g r) m == sum_reports f m + sum_reports g m.
Proof.
  rewrite !sum_reports_list.
  apply (list_total_fmap_plus (f ∘ snd) (g ∘ snd)).
Qed.

Lemma sum_reports_scale (f : need_report → Q) (c : Q) (m : gmap Z need_report) :
  sum_reports (λ r, f r * c) m == sum_reports f m * c.
Proof.
  rewrite !sum_reports_list.
  apply (list_total_fmap_scale (f ∘ snd)).
Qed.

Lemma sum_reports_range (m : gmap Z need_report) :
  sum_reports (λ r, requested_amount r - minimum_acceptable r) m
  == sum_reports requested_amount m - sum_reports minimum_acceptable m.
Proof.
  rewrite (sum_reports_ext _ (λ r, requested_amount r + minimum_acceptable r * (-1)))
    by (intros r; ring).
  rewrite sum_reports_plus, sum_reports_scale. ring.
Qed.

Lemma declared_shares_spec (family_reports : gmap Z need_report) (total_amount : Q)
    (shares : gmap Z Q) :
  declared_shares family_reports total_amount = Ok shares →
  (sum_reports requested_amount family_reports <= total_amount →
   shares = requested_amount <$> family_reports)
  ∧ (total_amount < sum_reports requested_amount family_reports →
     sum_values shares == total_amount).
Proof.
  unfold declared_shares.
  set (treq := sum_reports requested_amount family_reports).
  set (tmin := sum_reports minimum_acceptable family_reports).
  destruct (Qle_bool treq total_amount) eqn:E1.
  - apply Qle_bool_iff in E1. destruct (Qeq_bool total_amount 0); [discriminate|].
    intros [= <-]. split; [done | lra].
  - apply Qle_bool_false in E1.
    destruct (Qeq_bool treq 0) eqn:E0; [discriminate|].
    assert (Hreq : ¬ treq == 0) by (intros H; apply Qeq_bool_iff in H; congruence).
    assert (Hprop : sum_values ((λ report, requested_amount report / treq * total_amount)
                                  <$> family_reports) == total_amount).
    { rewrite sum_values_fmap_reports.
      rewrite (sum_reports_ext _ (λ r, requested_amount r * (/ treq * total_amount)))
        by (intros r; unfold Qdiv; ring).
      rewrite sum_reports_scale. fold treq. field. done. }
    destruct (Qle_bool tmin total_amount) eqn:E2.
    + intros [= <-]. split; [lra|]. intros _.
      set (trange := sum_reports _ family_reports).
      assert (Hrange : trange == treq - tmin) by apply sum_reports_range.
      destruct (Qlt_bool 0 trange) eqn:E3; [|done].
      apply Qlt_bool_true in E3.
      rewrite sum_values_fmap_reports.
      rewrite (sum_reports_ext _
                 (λ r, minimum_acceptable r
                       + (requested_amount r - minimum_acceptable r)
                         * (/ trange * (total_amount - tmin))))
        by (intros r; unfold Qdiv; ring).
      rewrite sum_reports_plus, sum_reports_scale. fold tmin trange. field. lra.
    + intros [= <-]. split; [lra | done].
Qed.

(** X19.  The amounts decided from the households' reports: when the pool
    covers the total requested, every household gets what it requested;
    when it does not, the amounts add up to the pool exactly. *)
Theorem declared_shares_fill_the_pool (family_reports : gmap Z need_report)
    (total_amount : Q) (shares : gmap Z Q) :
  declared_shares family_reports total_amount = Ok shares →
  (sum_reports requested_amount family_reports <= total_amount →
   shares = requested_amount <$> family_reports)
  ∧ (total_amount < sum_reports requested_amount family_reports →
     sum_values shares == total_amount).
Proof. apply declared_shares_spec. Qed.

Lemma declared_shares_fill_the_pool_witness :
  ∃ shares, declared_shares two_reports 80 = Ok shares
  ∧ (sum_reports requested_amount two_reports <= 80 →
     shares = requested_amount <$> two_reports)
  ∧ (80 < sum_reports requested_amount two_reports → sum_values shares == 80).
Proof.
  eexists. split; [reflexivity|].
  apply (declared_shares_fill_the_pool two_reports 80). reflexivity.
Defined.

Lemma declared_shares_between (family_reports : gmap Z need_report) (total_amount : Q)
    (shares : gmap Z Q) :
  declared_shares family_reports total_amount = Ok shares →
  (∀ k r, family_reports !! k = Some r → minimum_acceptable r <= requested_amount r) →
  sum_reports minimum_acceptable family_reports <= total_amount →
  ∀ k r, family_reports !! k = Some r →
    ∃ s, shares !! k = Some s ∧ minimum_acceptable r <= s ∧ s <= requested_amount r.
Proof.
  unfold declared_shares.
  set (treq := sum_reports requested_amount family_reports).
  set (tmin := sum_reports minimum_acceptable family_reports).
  intros Hrun Hcons Hmin k r Hk. pose proof (Hcons k r Hk) as Hr.
  destruct (Qle_bool treq total_amount) eqn:E1.
  - destruct (Qeq_bool total_amount 0); [discriminate|]. injection Hrun as <-.
    exists (requested_amount r). rewrite lookup_fmap, Hk. split; [done|]. lra.
  - apply Qle_bool_false in E1.
    destruct (Qeq_bool treq 0); [discriminate|].
    assert (E2 : Qle_bool tmin total_amount = true) by (by apply Qle_bool_iff).
    rewrite E2 in Hrun. injection Hrun as <-.
    set (trange := sum_reports _ family_reports).
    assert (Hrange : trange == treq - tmin) by apply sum_reports_range.
    assert (E3 : Qlt_bool 0 trange = true) by (apply Qlt_bool_true; lra).
    rewrite lookup_fmap, Hk. cbn [fmap option_fmap option_map]. rewrite E3.
    eexists. split; [reflexivity|].
    set (range := requested_amount r - minimum_acceptable r).
    set (q := (total_amount - tmin) / trange).
    assert (Hq : 0 <= q ∧ q <= 1).
    { unfold q. split.
      - apply Qle_shift_div_l; lra.
      - apply Qle_shift_div_r; lra. }
    assert (Hrq : 0 <= range * q ∧ range * q <= range).
    { assert (0 <= range) by (unfold range; lra). split.
      - apply Qmult_le_0_compat; lra.
      - assert (E : range - range * q == range * (1 - q)) by ring.
        assert (0 <= range * (1 - q)) by (apply Qmult_le_0_compat; lra). lra. }
    assert (E : range / trange * (total_amount - tmin) == range * q).
    { unfold q. field. lra. }
    rewrite E. unfold range in *. lra.
Qed.

(** X20.  When the pool covers the minima of the households and no
    report has its minimum above its request, every household is given at
    least its minimum and at most its request. *)
Theorem declared_shares_between_minimum_and_request (family_reports : gmap Z need_report)
    (total_amount : Q) (shares : gmap Z Q) (agent_id : Z) (report : need_report) :
  declared_shares family_reports total_amount = Ok shares →
  (∀ k r, family_reports !! k = Some r → minimum_acceptable r <= requested_amount r) →
  sum_reports minimum_acceptable family_reports <= total_amount →
  family_reports !! agent_id = Some report →
  ∃ s, shares !! agent_id = Some s
       ∧ minimum_acceptable report <= s ∧ s <= requested_amount report.
Proof.
  intros H1 H2 H3 H4. exact (declared_shares_between _ _ _ H1 H2 H3 _ _ H4).
Qed.

Lemma two_reports_lookup (k : Z) (r : need_report) :
  two_reports !! k = Some r →
  r = {| requested_amount := 60; minimum_acceptable := 30 |}
  ∨ r = {| requested_amount := 40; minimum_acceptable := 20 |}.
Proof.
  unfold two_reports. intros H.
  destruct (decide (k = 1%Z)) as [->|H1];
    [rewrite lookup_insert_eq in H; injection H as <-; by left|].
  rewrite lookup_insert_ne in H by done.
  destruct (decide (k = 2%Z)) as [->|H2];
    [rewrite lookup_singleton_eq in H; injection H as <-; by right|].
  by rewrite lookup_singleton_ne in H.
Qed.

Lemma declared_shares_between_minimum_and_request_witness :
  ∃ shares, declared_shares two_reports 80 = Ok shares
  ∧ ∃ s, shares !! 1%Z = Some s ∧ 30 <= s ∧ s <= 60.
Proof.
  eexists. split; [reflexivity|].
  apply (declared_shares_between_minimum_and_request two_reports 80 _ 1
           {| requested_amount := 60; minimum_acceptable := 30 |}).
  - reflexivity.
  - intros k r Hk. destruct (two_reports_lookup k r Hk) as [-> | ->]; by vm_compute.
  - by vm_compute.
  - reflexivity.
Defined.

(** With a pool of 80 for requests of 60 and 40 and minima of 30 and 20,
    the households get 48 and 32. *)
Example declared_shares_of_80 :
  ∃ shares, declared_shares two_reports 80 = Ok shares
  ∧ default 0 (shares !! 1%Z) == 48 ∧ default 0 (shares !! 2%Z) == 32.
Proof. eexists. split; [reflexivity|]. split; by vm_compute. Qed.

Lemma need_report_only_zero_division (llm : nat → option raw_report)
    (members labor_force : Z) (value_type : ValueType)
    (survival_amount total_resources : Q) (total_members : Z) :
  only_zero_division
    (get_family_need_report_via_llm llm members labor_force value_type survival_amount
       total_resources total_members)
  ∧ (members = 0%Z →
     get_family_need_report_via_llm llm members labor_force value_type survival_amount
       total_resources total_members = Raise ZeroDivisionError).
Proof.
  unfold get_family_need_report_via_llm. split.
  - destruct ((members =? 0)%Z || (total_members =? 0)%Z); [done|].
    destruct (first_valid_report _ _ _ _ _ _ _); [done|].
    unfold get_default_need_report. by destruct (total_members =? 0)%Z.
  - intros ->. done.
Qed.

Lemma collect_reports_no_members (agents : list agent) (survival_needs : allocation)
    (llm : string → agent → nat → option raw_report) (resource_name : string)
    (total_amount : Q) (a : agent) :
  a ∈ agents → members a = 0%Z →
  collect_reports agents survival_needs llm resource_name total_amount
  = Raise ZeroDivisionError.
Proof.
  intros Ha Hm. unfold collect_reports.
  set (step := λ (acc : result (gmap Z need_report)) (a : agent), _).
  assert (Hstep : ∀ acc b, only_zero_division acc → only_zero_division (step acc b)).
  { intros [m|e] b Hacc; [|by rewrite Hacc]. unfold step. cbn [mbind result_bind].
    destruct (need_report_only_zero_division (llm resource_name b) (members b)
                (labor_force b) (value_type b) (get2 survival_needs (id b) resource_name)
                total_amount (total_members agents)) as [H _].
    by destruct (get_family_need_report_via_llm _ _ _ _ _ _ _). }
  assert (G : ∀ l acc, only_zero_division acc → a ∈ l →
            foldl step acc l = Raise ZeroDivisionError).
  { induction l as [|b l IH]; intros acc Hacc Hin; [by apply elem_of_nil in Hin|].
    cbn [foldl]. apply elem_of_cons in Hin as [<-|Hin]; [|apply IH; [by apply Hstep | done]].
    assert (E : step acc a = Raise ZeroDivisionError).
    { destruct acc as [m|e]; [|by rewrite Hacc]. unfold step. cbn [mbind result_bind].
      destruct (need_report_only_zero_division (llm resource_name a) (members a)
                  (labor_force a) (value_type a) (get2 survival_needs (id a) resource_name)
                  total_amount (total_members agents)) as [_ H].
      by rewrite (H Hm). }
    rewrite E. by apply foldl_raise. }
  by apply G.
Qed.

Lemma declared_needs_no_members (total_resources : resources) (agents : list agent)
    (survival_needs : allocation) (llm : string → agent → nat → option raw_report)
    (a : agent) :
  a ∈ agents → members a = 0%Z →
  size survival_needs ≠ 0%nat → size total_resources ≠ 0%nat →
  llm_driven_needs_based_distribution total_resources agents survival_needs llm
  = Raise ZeroDivisionError.
Proof.
  intros Ha Hm Hneeds Hpool. unfold llm_driven_needs_based_distribution.
  rewrite bool_decide_eq_false_2 by (intros ->; by apply elem_of_nil in Ha).
  rewrite bool_decide_eq_false_2 by done. cbn [orb].
  assert (G : map_fold (declared_resource_step agents survival_needs llm) (Ok ∅)
                total_resources = Raise ZeroDivisionError).
  { assert (H : (size total_resources = 0%nat →
                 map_fold (declared_resource_step agents survival_needs llm) (Ok ∅)
                   total_resources = Ok ∅)
                ∧ (size total_resources ≠ 0%nat →
                   map_fold (declared_resource_step agents survival_needs llm) (Ok ∅)
                     total_resources = Raise ZeroDivisionError)); [|by apply H].
    apply (map_fold_weak_ind
             (λ r (m : resources),
                (size m = 0%nat → r = Ok ∅)
                ∧ (size m ≠ 0%nat → r = Raise ZeroDivisionError))).
    - split; [done|]. intros H. by rewrite map_size_empty in H.
    - intros r amount m acc Hfresh [IH0 IH1]. split.
      { intros H. apply map_size_empty_iff in H.
        by apply insert_non_empty in H. }
      intros _. unfold declared_resource_step.
      destruct (decide (size m = 0%nat)) as [E|E].
      + rewrite (IH0 E). cbn [mbind result_bind].
        by rewrite (collect_reports_no_members agents survival_needs llm r amount a).
      + by rewrite (IH1 E). }
  by rewrite G.
Qed.

(** X21.  A listed household without members makes
    [llm_driven_needs_based_distribution] raise [ZeroDivisionError] as
    soon as there are needs and a resource to distribute, whatever the
    oracle would answer: the prompt divides by the number of members. *)
Theorem declared_needs_raise_without_members (total_resources : resources)
    (agents : list agent) (survival_needs : allocation)
    (llm : string → agent → nat → option raw_report) (a : agent) :
  a ∈ agents → members a = 0%Z →
  size survival_needs ≠ 0%nat → size total_resources ≠ 0%nat →
  llm_driven_needs_based_distribution total_resources agents survival_needs llm
  = Raise ZeroDivisionError.
Proof. apply declared_needs_no_members. Qed.

Lemma declared_needs_raise_without_members_witness :
  llm_driven_needs_based_distribution {["grain" := 100]} with_empty_household three_needs
    (λ _ _ _, None)
  = Raise ZeroDivisionError.
Proof.
  apply (declared_needs_raise_without_members {["grain" := 100]} with_empty_household
           three_needs (λ _ _ _, None) (household 2 needs_based 0 0)).
  - apply list_elem_of_further, list_elem_of_here.
  - reflexivity.
  - by vm_compute.
  - by vm_compute.
Defined.

(** ** Production *)

Lemma clamp_bounds (x : Q) : 8#10 <= py_max (8#10) (py_min x (12#10)) <= 12#10.
Proof.
  split; [apply py_max_ge_l|].
  destruct (py_max_cases (8#10) (py_min x (12#10))) as [-> | ->];
    [lra | apply py_min_le_r].
Qed.

Lemma clamp_mono (x y : Q) :
  x <= y → py_max (8#10) (py_min x (12#10)) <= py_max (8#10) (py_min y (12#10)).
Proof.
  intros H.
  assert (Hm : py_min x (12#10) <= py_min y (12#10)).
  { pose proof (py_min_le_l x (12#10)). pose proof (py_min_le_r x (12#10)).
    destruct (py_min_cases y (12#10)) as [-> | ->]; lra. }
  pose proof (py_max_ge_l (8#10) (py_min y (12#10))).
  pose proof (py_max_ge_r (8#10) (py_min y (12#10))).
  destruct (py_max_cases (8#10) (py_min x (12#10))) as [-> | ->]; lra.
Qed.

(** The efficiency before it is cut to [0.8, 1.2]. *)
Lemma raw_efficiency_mono (s s' : Q) :
  s <= s' →
  (let n := (s - (25#10)) / (25#10) in
   if Qle_bool 0 n then 1 + n * (4#10) else 1 - Qabs n * (3#10))
  <= (let n := (s' - (25#10)) / (25#10) in
      if Qle_bool 0 n then 1 + n * (4#10) else 1 - Qabs n * (3#10)).
Proof.
  intros H. cbv zeta.
  set (n := (s - (25#10)) / (25#10)). set (n' := (s' - (25#10)) / (25#10)).
  assert (En : n == (s - (25#10)) * (10#25)) by (unfold n; field).
  assert (En' : n' == (s' - (25#10)) * (10#25)) by (unfold n'; field).
  assert (Hn : n <= n') by lra.
  destruct (Qle_bool 0 n) eqn:E; destruct (Qle_bool 0 n') eqn:E'.
  - lra.
  - apply Qle_bool_iff in E. apply Qle_bool_false in E'. lra.
  - apply Qle_bool_false in E. apply Qle_bool_iff in E'.
    rewrite Qabs_neg by lra. lra.
  - apply Qle_bool_false in E. apply Qle_bool_false in E'.
    rewrite !Qabs_neg by lra. lra.
Qed.

(** X22.  [calculate_satisfaction_efficiency] stays between 0.8 and 1.2
    and does not decrease when the satisfaction score rises. *)
Theorem satisfaction_efficiency_bounded_and_monotone (score score' : Q)
    (distribution_method : option string) :
  score <= score' →
  8#10 <= calculate_satisfaction_efficiency (Some score) distribution_method
  ∧ calculate_satisfaction_efficiency (Some score) distribution_method
    <= calculate_satisfaction_efficiency (Some score') distribution_method
  ∧ calculate_satisfaction_efficiency (Some score') distribution_method <= 12#10.
Proof.
  intros H. unfold calculate_satisfaction_efficiency. split; [apply clamp_bounds|].
  split; [|apply clamp_bounds]. by apply clamp_mono, raw_efficiency_mono.
Qed.

Lemma satisfaction_efficiency_bounded_and_monotone_witness :
  8#10 <= calculate_satisfaction_efficiency (Some 1) None
  ∧ calculate_satisfaction_efficiency (Some 1) None
    <= calculate_satisfaction_efficiency (Some 4) None
  ∧ calculate_satisfaction_efficiency (Some 4) None <= 12#10.
Proof.
  apply (satisfaction_efficiency_bounded_and_monotone 1 4 None). by vm_compute.
Defined.

Lemma satisfaction_efficiency_bounds (score : option Q) (method : option string) :
  8#10 <= calculate_satisfaction_efficiency score method <= 12#10.
Proof.
  destruct score as [s|]; [apply clamp_bounds|]. simpl. lra.
Qed.

Lemma resource_output_bounds (labor_force : Z) (se available : Q) :
  (0 ≤ labor_force)%Z → 8#10 <= se <= 12#10 → 0 <= available →
  5 <= resource_output labor_force se available
  ∧ resource_output labor_force se available <= 5 + 12 * inject_Z labor_force.
Proof.
  intros HL Hse Hav. unfold resource_output.
  assert (HLq : 0 <= inject_Z labor_force).
  { change 0 with (inject_Z 0). rewrite <- Zle_Qle. lia. }
  set (ap := py_min available (inject_Z labor_force * 5)).
  assert (Hap : 0 <= ap ∧ ap <= inject_Z labor_force * 5).
  { split; [|apply py_min_le_r].
    destruct (py_min_cases available (inject_Z labor_force * 5)) as [E|E];
      fold ap in E; rewrite E; lra. }
  destruct (Qeq_bool ap 0 || (labor_force =? 0)%Z); [lra|].
  set (dens := py_min (inject_Z labor_force / ap) 1).
  assert (Hd : dens <= 1) by apply py_min_le_r.
  assert (Hd0 : 0 <= dens).
  { destruct (py_min_cases (inject_Z labor_force / ap) 1) as [E|E];
      fold dens in E; rewrite E; [|lra].
    unfold Qdiv. apply Qmult_le_0_compat; [done|]. apply Qinv_le_0_compat. lra. }
  set (eff := (1 + dens * 1) * se).
  assert (Heff : 0 <= eff ∧ eff <= 24#10).
  { unfold eff. split.
    - apply Qmult_le_0_compat; lra.
    - assert (E : (24#10) - (1 + dens * 1) * se
                  == (1 + dens) * ((12#10) - se) + (12#10) * (1 - dens)) by ring.
      assert (0 <= (1 + dens) * ((12#10) - se)) by (apply Qmult_le_0_compat; lra).
      lra. }
  assert (H1 : 0 <= ap * eff) by (apply Qmult_le_0_compat; lra).
  assert (H2 : ap * eff <= inject_Z labor_force * 5 * (24#10)).
  { assert (E : inject_Z labor_force * 5 * (24#10) - ap * eff
                == (inject_Z labor_force * 5 - ap) * (24#10) + ap * ((24#10) - eff)) by ring.
    assert (0 <= ap * ((24#10) - eff)) by (apply Qmult_le_0_compat; lra).
    lra. }
  lra.
Qed.

Lemma calculate_production_lookup (family_resources survival_needs : resources)
    (labor_force : Z) (score : option Q) (method : option string) (r : string) :
  calculate_production family_resources survival_needs labor_force score method !! r
  = (λ amount, resource_output labor_force
                 (calculate_satisfaction_efficiency score method)
                 (py_max 0 (amount - default 0 (survival_needs !! r))))
      <$> family_resources !! r.
Proof.
  unfold calculate_production. rewrite lookup_fmap, map_lookup_imap.
  by destruct (family_resources !! r).
Qed.

(** X23.  [calculate_production], for a household with a non-negative
    labor force: every resource the household holds, and no other, yields
    an output, which is at least the base output of 5 and at most
    [5 + 12 × labor_force]. *)
Theorem production_between_base_and_capacity (family_resources survival_needs : resources)
    (labor_force : Z) (satisfaction_score : option Q) (distribution_method : option string)
    (resource_name : string) :
  (0 ≤ labor_force)%Z →
  match calculate_production family_resources survival_needs labor_force
          satisfaction_score distribution_method !! resource_name with
  | Some output =>
      is_Some (family_resources !! resource_name)
      ∧ 5 <= output ∧ output <= 5 + 12 * inject_Z labor_force
  | None => family_resources !! resource_name = None
  end.
Proof.
  intros HL. rewrite calculate_production_lookup.
  destruct (family_resources !! resource_name) as [amount|]; [|done].
  cbn [fmap option_fmap option_map]. split; [done|].
  apply resource_output_bounds; [done | apply satisfaction_efficiency_bounds |].
  apply py_max_ge_l.
Qed.

Lemma production_between_base_and_capacity_witness :
  match calculate_production {["grain" := 12]} {["grain" := 5]} 2 (Some 4) None
          !! "grain" with
  | Some output =>
      is_Some (({["grain" := 12]} : resources) !! "grain")
      ∧ 5 <= output ∧ output <= 5 + 12 * inject_Z 2
  | None => ({["grain" := 12]} : resources) !! "grain" = None
  end.
Proof.
  apply (production_between_base_and_capacity {["grain" := 12]} {["grain" := 5]} 2
           (Some 4) None "grain").
  lia.
Defined.

(** ** The resources of the next round *)

Lemma add_production_lookup (production total : resources) (r : string) :
  default 0 (map_fold (λ resource_name amount (total : resources),
                         <[resource_name := default 0 (total !! resource_name) + amount]>
                           total)
                      total production !! r)
  == default 0 (total !! r) + default 0 (production !! r).
Proof.
  apply (map_fold_weak_ind
           (λ (res : resources) (m : resources),
              default 0 (res !! r) == default 0 (total !! r) + default 0 (m !! r))).
  - rewrite lookup_empty. simpl. lra.
  - intros i x m res Hfresh IH. destruct (decide (i = r)) as [->|Hne].
    + rewrite !lookup_insert_eq.
      change (default 0 (res !! r) + x == default 0 (total !! r) + x).
      rewrite IH, Hfresh. change (default 0 (@None Q)) with 0. lra.
    + by rewrite !lookup_insert_ne.
Qed.

Lemma total_production_lookup (family_productions : allocation) (r : string) :
  default 0 (total_production family_productions !! r)
  == column_total family_productions r.
Proof.
  unfold total_production, column_total. rewrite map_fold_foldr.
  induction (map_to_list family_productions) as [|[k row] l IH].
  - simpl. rewrite lookup_empty. reflexivity.
  - rewrite fmap_cons, list_total_cons. cbn [foldr uncurry snd].
    rewrite add_production_lookup, IH. simpl. lra.
Qed.

Lemma next_round_lookup (self : ResourceGenerator) (family_productions : allocation)
    (r : string) :
  (generate_next_round_resources self family_productions).1 !! r
  = (λ _, default 0 (total_production family_productions !! r))
      <$> current_resources self !! r.
Proof.
  unfold generate_next_round_resources. cbn [fst].
  rewrite map_lookup_imap. by destruct (current_resources self !! r).
Qed.

(** X24.  [generate_next_round_resources]: the next pool has exactly the
    resources of the current pool, each with the sum of what the families
    produced of it, so a resource outside the current pool never enters
    it; the generator keeps that pool as its current one, and it warns of
    overuse exactly when the new total is under 90% of a positive previous
    total. *)
Theorem next_round_is_what_was_produced (self : ResourceGenerator)
    (family_productions : allocation) :
  let next := (generate_next_round_resources self family_productions).1 in
  let self' := (generate_next_round_resources self family_productions).2 in
  (∀ r, match next !! r with
        | Some amount =>
            is_Some (current_resources self !! r)
            ∧ amount == column_total family_productions r
        | None => current_resources self !! r = None
        end)
  ∧ current_resources self' = next
  ∧ previous_total self' = sum_values next
  ∧ (0 < previous_total self →
     (overuse_warning self' = true ↔ sum_values next < (9#10) * previous_total self)).
Proof.
  intros next self'. split; [|split; [done|split; [done|]]].
  - intros r. unfold next. rewrite next_round_lookup.
    destruct (current_resources self !! r); [|done].
    cbn [fmap option_fmap option_map]. split; [done|]. apply total_production_lookup.
  - intros Hprev. unfold self', next, generate_next_round_resources.
    cbn [snd fst overuse_warning].
    set (nt := sum_values _).
    assert (E : Qlt_bool 0 (previous_total self) = true) by (by apply Qlt_bool_true).
    rewrite E, Qlt_bool_true. split; intros H.
    + assert (Ent : nt == nt / previous_total self * previous_total self) by (field; lra).
      rewrite Ent. by apply Qmult_lt_compat_r.
    + apply Qlt_shift_div_r; [done | lra].
Qed.

Lemma next_round_is_what_was_produced_witness :
  overuse_warning
    (generate_next_round_resources (new_ResourceGenerator 3 100) uneven_allocation).2
  = true.
Proof.
  destruct (next_round_is_what_was_produced (new_ResourceGenerator 3 100) uneven_allocation)
    as (_ & _ & _ & H).
  apply H; by vm_compute.
Defined.

(** ** Scoring of proposals *)

Lemma Qsquare (x : Q) : x ^ 2 == x * x.
Proof. reflexivity. Qed.

Lemma Qsquare_nonneg (x : Q) : 0 <= x ^ 2.
Proof.
  rewrite Qsquare. destruct (Qlt_le_dec x 0) as [H|H].
  - assert (E : x * x == (- x) * (- x)) by ring. rewrite E.
    apply Qmult_le_0_compat; lra.
  - by apply Qmult_le_0_compat.
Qed.

Lemma Qsquare_zero (x : Q) : x ^ 2 == 0 → x == 0.
Proof. rewrite Qsquare. intros H. apply Qmult_integral in H. by destruct H. Qed.

(** X25.  [calculate_allocation_variance] is never negative, and it is 0
    exactly when all rows have the same total. *)
Theorem variance_zero_iff_equal_totals (allocations : list resources) :
  0 <= calculate_allocation_variance allocations
  ∧ (calculate_allocation_variance allocations == 0
     ↔ ∀ a b, a ∈ allocations → b ∈ allocations → sum_values a == sum_values b).
Proof.
  unfold calculate_allocation_variance. case_bool_decide as Hne.
  { subst. split; [lra|]. split; [|reflexivity].
    intros _ a b Ha. by apply elem_of_nil in Ha. }
  set (totals := sum_values <$> allocations).
  assert (Hlen : totals ≠ []) by (unfold totals; by destruct allocations).
  pose proof (inject_Z_length_pos totals Hlen) as Hn.
  set (n := inject_Z (Z.of_nat (length totals))) in *.
  set (m := Qsum totals / n).
  rewrite Qsum_list_total.
  set (S2 := list_total ((λ total, (total - m) ^ 2) <$> totals)).
  assert (Hsq : ∀ x, x ∈ (λ total, (total - m) ^ 2) <$> totals → 0 <= x).
  { intros x Hx. apply list_elem_of_fmap in Hx as (t & -> & _). apply Qsquare_nonneg. }
  assert (HS2 : 0 <= S2) by (by apply list_total_nonneg).
  split; [apply Qle_shift_div_l; lra|].
  assert (Hz : S2 / n == 0 ↔ S2 == 0).
  { split; intros H.
    - assert (E : S2 == S2 / n * n) by (field; lra). rewrite E, H. ring.
    - rewrite H. field. lra. }
  rewrite Hz. split.
  - intros H a b Ha Hb.
    assert (Hall : ∀ t, t ∈ totals → t == m).
    { intros t Ht.
      assert (E : (t - m) ^ 2 == 0).
      { apply (list_total_zero_all _ Hsq H).
        by apply (list_elem_of_fmap_2 (λ total, (total - m) ^ 2)). }
      apply Qsquare_zero in E. lra. }
    rewrite (Hall (sum_values a)), (Hall (sum_values b));
      [reflexivity | |]; unfold totals; by apply list_elem_of_fmap_2.
  - intros H. destruct allocations as [|a0 l]; [done|].
    assert (Ha0 : a0 ∈ a0 :: l) by left.
    assert (Hall : ∀ t, t ∈ totals → t == sum_values a0).
    { intros t Ht. apply list_elem_of_fmap in Ht as (a & -> & Ha). by apply H. }
    assert (Hm : m == sum_values a0).
    { unfold m. rewrite Qsum_list_total. rewrite <- (list_fmap_id totals) at 1.
      rewrite (list_total_fmap_ext _ (λ _, sum_values a0)) by (intros t Ht; by apply Hall).
      rewrite list_total_fmap_const. fold n. field. lra. }
    unfold S2. apply list_total_all_zero, Forall_forall.
    intros x Hx. apply list_elem_of_fmap in Hx as (t & -> & Ht).
    rewrite Qsquare, (Hall t Ht), Hm. ring.
Qed.

Lemma need_satisfaction_bounds (alloc needs : resources) :
  size needs ≠ 0%nat →
  need_satisfaction alloc needs <= 1
  ∧ ((∀ r v, alloc !! r = Some v → 0 <= v) → 0 <= need_satisfaction alloc needs).
Proof.
  intros Hsize. unfold need_satisfaction.
  assert (Hn : 0 < inject_Z (Z.of_nat (size needs))).
  { change 0 with (inject_Z 0). rewrite <- Zlt_Qlt. lia. }
  assert (G : map_fold (λ resource need acc,
                          if Qlt_bool 0 need
                          then acc + py_min (default 0 (alloc !! resource) / need) 1
                          else acc) 0 needs
              <= inject_Z (Z.of_nat (size needs))
              ∧ ((∀ r v, alloc !! r = Some v → 0 <= v) →
                 0 <= map_fold (λ resource need acc,
                                  if Qlt_bool 0 need
                                  then acc + py_min (default 0 (alloc !! resource) / need) 1
                                  else acc) 0 needs)).
  { clear Hsize Hn.
    apply (map_fold_weak_ind
             (λ (acc : Q) (m : resources),
                acc <= inject_Z (Z.of_nat (size m))
                ∧ ((∀ r v, alloc !! r = Some v → 0 <= v) → 0 <= acc))).
    - rewrite map_size_empty. split; [apply Qle_refl | intros _; lra].
    - intros r need m acc Hfresh [IH1 IH2].
      rewrite map_size_insert_None by done.
      rewrite Nat2Z.inj_succ, <- Z.add_1_r, inject_Z_plus. change (inject_Z 1) with 1.
      destruct (Qlt_bool 0 need) eqn:E.
      + apply Qlt_bool_true in E.
        pose proof (py_min_le_r (default 0 (alloc !! r) / need) 1). split; [lra|].
        intros Hpos. specialize (IH2 Hpos).
        assert (0 <= py_min (default 0 (alloc !! r) / need) 1); [|lra].
        destruct (py_min_cases (default 0 (alloc !! r) / need) 1) as [-> | ->]; [|lra].
        apply Qle_shift_div_l; [done|].
        destruct (alloc !! r) as [v|] eqn:Hv; simpl; [specialize (Hpos r v Hv)|]; lra.
      + split; [lra | done]. }
  destruct G as [G1 G2]. split.
  - apply Qle_shift_div_r; lra.
  - intros Hpos. apply Qle_shift_div_l; [done|]. specialize (G2 Hpos). lra.
Qed.

Lemma overall_satisfaction_bounds (proposal survival_needs : allocation) :
  calculate_overall_survival_satisfaction proposal survival_needs <= 1
  ∧ ((∀ k row r v, proposal !! k = Some row → row !! r = Some v → 0 <= v) →
     0 <= calculate_overall_survival_satisfaction proposal survival_needs).
Proof.
  unfold calculate_overall_survival_satisfaction.
  case_bool_decide; [split; [lra | intros _; lra]|].
  assert (G : let st := map_fold (satisfaction_step proposal) (0, 0%Z) survival_needs in
              st.1 <= inject_Z st.2 ∧ (0 ≤ st.2)%Z
              ∧ ((∀ k row r v, proposal !! k = Some row → row !! r = Some v → 0 <= v) →
                 0 <= st.1)).
  { apply (map_fold_weak_ind
             (λ (st : Q * Z) (_ : allocation),
                st.1 <= inject_Z st.2 ∧ (0 ≤ st.2)%Z
                ∧ ((∀ k row r v, proposal !! k = Some row → row !! r = Some v → 0 <= v) →
                   0 <= st.1))).
    - simpl. split; [apply Qle_refl|]. split; [lia | intros _; lra].
    - intros k needs m [tot cnt] _ (IH1 & IH2 & IH3). unfold satisfaction_step.
      simpl in IH1, IH2, IH3. case_bool_decide as Hs; [done|]. cbn [fst snd].
      destruct (need_satisfaction_bounds (default ∅ (proposal !! k)) needs Hs) as [B1 B2].
      rewrite inject_Z_plus. change (inject_Z 1) with 1.
      split; [lra|]. split; [lia|]. intros Hpos. specialize (IH3 Hpos).
      assert (0 <= need_satisfaction (default ∅ (proposal !! k)) needs); [|lra].
      apply B2. intros r v Hv. destruct (proposal !! k) as [row|] eqn:Hrow; simpl in Hv.
      + by apply (Hpos k row r v).
      + by rewrite lookup_empty in Hv. }
  cbv zeta in G. destruct (map_fold _ _ _) as [tot cnt]. simpl in *.
  destruct G as (G1 & G2 & G3).
  destruct (Z.ltb_spec 0 cnt) as [Hc|Hc]; [|split; [lra | intros _; lra]].
  assert (Hq : 0 < inject_Z cnt).
  { change 0 with (inject_Z 0). by rewrite <- Zlt_Qlt. }
  split.
  - apply Qle_shift_div_r; lra.
  - intros Hpos. apply Qle_shift_div_l; [done|]. specialize (G3 Hpos). lra.
Qed.

(** X26.  For a proposal that holds no negative amount,
    [calculate_overall_survival_satisfaction] lies between 0 and 1. *)
Theorem overall_satisfaction_between_zero_and_one (proposal survival_needs : allocation) :
  (∀ k row r v, proposal !! k = Some row → row !! r = Some v → 0 <= v) →
  0 <= calculate_overall_survival_satisfaction proposal survival_needs
  ∧ calculate_overall_survival_satisfaction proposal survival_needs <= 1.
Proof.
  intros Hpos. destruct (overall_satisfaction_bounds proposal survival_needs) as [H1 H2].
  split; [by apply H2 | done].
Qed.

Lemma grain_allocation_nonneg (l : list (Z * Q)) :
  (∀ p, p ∈ l → 0 <= p.2) →
  ∀ k row r v, grain_allocation l !! k = Some row → row !! r = Some v → 0 <= v.
Proof.
  intros Hl k row r v Hk Hr. unfold grain_allocation in Hk.
  apply elem_of_list_to_map_2 in Hk.
  apply list_elem_of_fmap in Hk as (p & E & Hp). injection E as -> ->.
  apply lookup_singleton_Some in Hr as [_ <-]. by apply Hl.
Qed.

Lemma overall_satisfaction_between_zero_and_one_witness :
  0 <= calculate_overall_survival_satisfaction uneven_allocation three_needs
  ∧ calculate_overall_survival_satisfaction uneven_allocation three_needs <= 1.
Proof.
  apply (overall_satisfaction_between_zero_and_one uneven_allocation three_needs).
  apply grain_allocation_nonneg. intros p Hp. each_listed Hp ltac:(by vm_compute).
Defined.

(** A household whose needs list a resource with a need of zero is never
    counted as fully satisfied: the resource enters the divisor and not
    the sum. *)
Example zero_need_lowers_satisfaction :
  need_satisfaction {["grain" := 10]} (<["grain" := 5]> {["tools" := 0]}) == 1#2.
Proof. by vm_compute. Qed.

(** ** The production of a round *)

Lemma column_total_empty (r : string) : column_total ∅ r == 0.
Proof. unfold column_total. by rewrite map_to_list_empty. Qed.

Lemma column_total_insert (d : allocation) (k : Z) (row : resources) (r : string) :
  d !! k = None →
  column_total (<[k := row]> d) r == default 0 (row !! r) + column_total d r.
Proof.
  intros Hk. unfold column_total.
  rewrite (list_total_perm _
             (default 0 (row !! r)
              :: ((λ item : Z * resources, default 0 (item.2 !! r)) <$> map_to_list d)));
    [reflexivity|].
  by rewrite map_to_list_insert.
Qed.

Lemma column_total_rows (row : agent → resources) (agents : list agent) (r : string) :
  NoDup (id <$> agents) →
  column_total (foldl (λ (d : allocation) a, <[id a := row a]> d) ∅ agents) r
  == list_total ((λ a, default 0 (row a !! r)) <$> agents).
Proof.
  intros Hnd.
  assert (G : ∀ l (d : allocation), NoDup (id <$> l) →
            (∀ a, a ∈ l → d !! id a = None) →
            column_total (foldl (λ (d : allocation) a, <[id a := row a]> d) d l) r
            == list_total ((λ a, default 0 (row a !! r)) <$> l) + column_total d r).
  { induction l as [|a l IH]; intros d Hl Hfresh; [simpl; lra|].
    rewrite !fmap_cons in *. rewrite list_total_cons. cbn [foldl].
    apply NoDup_cons in Hl as [Ha Hl].
    rewrite IH; [|done|].
    - rewrite column_total_insert by (apply Hfresh; by left). lra.
    - intros b Hb. rewrite lookup_insert_ne; [apply Hfresh; by right|].
      intros E. apply Ha. rewrite E. by apply list_elem_of_fmap_2. }
  rewrite G by done. rewrite column_total_empty. lra.
Qed.

(** X27.  A round of production, the agent ids being distinct and no
    labor force negative: when every household holds an entry for a
    resource of the pool, the next pool has at least 5 units of it per
    household, whatever was distributed and whatever the scores are, and
    at most [5 + 12 × labor_force] units per household. *)
Theorem next_pool_between_base_and_capacity (self : ResourceGenerator)
    (agents : list agent) (family_resources family_needs : allocation)
    (fairness_score : Z → option Q) (distribution_method : option string)
    (resource_name : string) :
  NoDup (id <$> agents) →
  (∀ a, a ∈ agents → (0 ≤ labor_force a)%Z) →
  (∀ a, a ∈ agents → is_Some (default ∅ (family_resources !! id a) !! resource_name)) →
  is_Some (current_resources self !! resource_name) →
  ∃ amount,
    (generate_next_round_resources self
       (round_productions agents family_resources family_needs fairness_score
          distribution_method)).1 !! resource_name = Some amount
    ∧ 5 * inject_Z (Z.of_nat (length agents)) <= amount
    ∧ amount <= list_total ((λ a, 5 + 12 * inject_Z (labor_force a)) <$> agents).
Proof.
  intros Hnd HL Hheld [current Hcur].
  rewrite next_round_lookup, Hcur. cbn [fmap option_fmap option_map].
  eexists. split; [done|].
  rewrite total_production_lookup. unfold round_productions. cbv zeta.
  rewrite (column_total_rows
             (λ a, calculate_production (default ∅ (family_resources !! id a))
                     (default ∅ (family_needs !! id a)) (labor_force a)
                     (fairness_score (id a)) distribution_method)) by done.
  assert (B : ∀ a, a ∈ agents →
            5 <= default 0 (calculate_production (default ∅ (family_resources !! id a))
                              (default ∅ (family_needs !! id a)) (labor_force a)
                              (fairness_score (id a)) distribution_method !! resource_name)
            ∧ default 0 (calculate_production (default ∅ (family_resources !! id a))
                           (default ∅ (family_needs !! id a)) (labor_force a)
                           (fairness_score (id a)) distribution_method !! resource_name)
              <= 5 + 12 * inject_Z (labor_force a)).
  { intros a Ha. rewrite calculate_production_lookup.
    destruct (Hheld a Ha) as [amount ->]. cbn [fmap option_fmap option_map default from_option].
    unfold Datatypes.id.
    apply resource_output_bounds;
      [by apply HL | apply satisfaction_efficiency_bounds | apply py_max_ge_l]. }
  split.
  - pose proof (list_total_fmap_const 5 agents) as E.
    assert (list_total ((λ _ : agent, 5) <$> agents)
            <= list_total
                 ((λ a, default 0
                          (calculate_production (default ∅ (family_resources !! id a))
                             (default ∅ (family_needs !! id a)) (labor_force a)
                             (fairness_score (id a)) distribution_method !! resource_name))
                    <$> agents)); [|lra].
    apply list_total_fmap_le. intros a Ha. by apply B.
  - apply list_total_fmap_le. intros a Ha. by apply B.
Qed.

Lemma next_pool_between_base_and_capacity_witness :
  ∃ amount,
    (generate_next_round_resources (new_ResourceGenerator 3 100)
       (round_productions three_agents uneven_allocation three_needs (λ _, Some 4)
          (Some "equal"))).1 !! "grain" = Some amount
    ∧ 5 * inject_Z (Z.of_nat (length three_agents)) <= amount
    ∧ amount <= list_total ((λ a, 5 + 12 * inject_Z (labor_force a)) <$> three_agents).
Proof.
  apply (next_pool_between_base_and_capacity (new_ResourceGenerator 3 100) three_agents
           uneven_allocation three_needs (λ _, Some 4) (Some "equal") "grain").
  - compute_done.
  - intros a Ha. each_listed Ha ltac:(cbn; lia).
  - intros a Ha. each_listed Ha ltac:(vm_compute; by eexists).
  - vm_compute. by eexists.
Defined.

(** Three households that were given nothing at all still find 15 units
    of grain in the next pool. *)
Example empty_handed_households_still_produce :
  (generate_next_round_resources (new_ResourceGenerator 3 100)
     (round_productions three_agents (grain_allocation [(1%Z, 0); (2%Z, 0); (3%Z, 0)])
        three_needs (λ _, None) (Some "equal"))).1 !! "grain"
  = Some 15.
Proof. by vm_compute. Qed.

(** ** The altruistic strategy and the pool *)

Lemma sum_values_imap (F : string → Q → Q) (m : resources) :
  sum_values (map_imap (λ k v, Some (F k v)) m)
  == list_total ((λ kv : string * Q, F kv.1 kv.2) <$> map_to_list m).
Proof.
  induction m as [|i x m Hi IH] using map_ind.
  - rewrite map_imap_empty, map_to_list_empty, sum_values_empty. reflexivity.
  - rewrite (map_imap_insert_Some _ _ _ _ (F i x)) by done.
    rewrite sum_values_insert by (by rewrite map_lookup_imap, Hi).
    rewrite IH.
    rewrite (list_total_perm ((λ kv : string * Q, F kv.1 kv.2) <$> map_to_list (<[i:=x]> m))
               (F i x :: ((λ kv : string * Q, F kv.1 kv.2) <$> map_to_list m)));
      [reflexivity|].
    by rewrite map_to_list_insert.
Qed.

Lemma sum_values_nonneg (m : resources) :
  (∀ r v, m !! r = Some v → 0 <= v) → 0 <= sum_values m.
Proof.
  intros H. rewrite sum_values_list. apply list_total_nonneg.
  intros x Hx. apply list_elem_of_fmap in Hx as ([r v] & -> & Hrv).
  apply elem_of_map_to_list in Hrv. by apply (H r v).
Qed.

Lemma total_allocated_replace (d : allocation) (k : Z) (row row' : resources) :
  d !! k = Some row →
  total_allocated (<[k := row']> d) == total_allocated d - sum_values row + sum_values row'.
Proof.
  intros Hrow. rewrite <- (insert_delete_id d k row) at 2 by done.
  rewrite <- (insert_delete_eq d).
  rewrite !total_allocated_insert by apply lookup_delete_eq. lra.
Qed.

Lemma survival_step_within_pool (pool : Q) (survival_needs d : allocation)
    (rem : resources) (a : agent) :
  d !! id a = None → within_pool pool (d, rem) →
  within_pool pool (altruistic_survival_step survival_needs (d, rem) a).
Proof.
  intros Hfresh (Htot & Hpos & Hdom). unfold within_pool, altruistic_survival_step.
  cbn [fst snd] in *. split; [|split].
  - rewrite total_allocated_insert by done.
    rewrite (sum_values_imap (λ r rem, py_min (get2 survival_needs (id a) r) rem)).
    rewrite (sum_values_imap (λ r rem, rem - py_min (get2 survival_needs (id a) r) rem)).
    rewrite <- Htot, (sum_values_list rem).
    assert (E : list_total ((map_to_list rem).*2)
                == list_total ((λ kv : string * Q,
                                  py_min (get2 survival_needs (id a) kv.1) kv.2)
                                 <$> map_to_list rem)
                   + list_total ((λ kv : string * Q,
                                    kv.2 - py_min (get2 survival_needs (id a) kv.1) kv.2)
                                   <$> map_to_list rem)).
    { rewrite <- list_total_fmap_plus. apply list_total_fmap_ext.
      intros kv _. cbv beta. ring. }
    rewrite E. ring.
  - intros r v. rewrite map_lookup_imap.
    destruct (rem !! r) as [x|] eqn:Hx; [|done]. cbn. intros [= <-].
    pose proof (py_min_le_r (get2 survival_needs (id a) r) x). lra.
  - intros k row Hk r. rewrite map_lookup_imap.
    assert (Hrem : is_Some (rem !! r ≫= λ rem0, Some (rem0 - py_min (get2 survival_needs (id a) r) rem0))
                   ↔ is_Some (rem !! r)).
    { destruct (rem !! r); cbn; split; intros [? ?]; by eauto. }
    rewrite Hrem. destruct (decide (k = id a)) as [->|Hne].
    + rewrite lookup_insert_eq in Hk. injection Hk as <-. rewrite map_lookup_imap.
      destruct (rem !! r); cbn; split; intros [? ?]; by eauto.
    + rewrite lookup_insert_ne in Hk by done. by apply (Hdom k row).
Qed.

Lemma survival_step_keys (survival_needs d : allocation) (rem : resources) (a : agent)
    (k : Z) :
  is_Some ((altruistic_survival_step survival_needs (d, rem) a).1 !! k)
  ↔ k = id a ∨ is_Some (d !! k).
Proof.
  unfold altruistic_survival_step. cbn [fst].
  destruct (decide (k = id a)) as [->|Hne].
  - rewrite lookup_insert_eq. split; [by left | by eauto].
  - rewrite lookup_insert_ne by done. split; [by right | by intros [?|?]].
Qed.

Lemma survival_loop_within_pool (pool : Q) (survival_needs : allocation) (l : list agent) :
  ∀ st, NoDup (id <$> l) → (∀ a, a ∈ l → st.1 !! id a = None) →
  within_pool pool st →
  within_pool pool (foldl (altruistic_survival_step survival_needs) st l)
  ∧ (∀ a, a ∈ l →
       is_Some ((foldl (altruistic_survival_step survival_needs) st l).1 !! id a))
  ∧ (∀ k, is_Some (st.1 !! k) →
       is_Some ((foldl (altruistic_survival_step survival_needs) st l).1 !! k)).
Proof.
  induction l as [|a l IH]; intros [d rem] Hnd Hfresh Hinv; cbn [foldl].
  { split; [done|]. split; [|done]. intros a Ha. by apply elem_of_nil in Ha. }
  rewrite fmap_cons in Hnd. apply NoDup_cons in Hnd as [Ha Hnd].
  destruct (altruistic_survival_step survival_needs (d, rem) a) as [d1 rem1] eqn:E.
  assert (Hk : ∀ k, is_Some (d1 !! k) ↔ k = id a ∨ is_Some (d !! k)).
  { intros k. pose proof (survival_step_keys survival_needs d rem a k) as H.
    by rewrite E in H. }
  destruct (IH (d1, rem1)) as (I1 & I2 & I3); [done | |..].
  - intros b Hb. cbn [fst]. apply eq_None_not_Some. rewrite Hk.
    intros [Hid|Hs].
    + apply Ha. rewrite <- Hid. by apply list_elem_of_fmap_2.
    + assert (Hn : (d, rem).1 !! id b = None) by (apply Hfresh; by right).
      cbn [fst] in Hn. rewrite Hn in Hs. by destruct Hs.
  - rewrite <- E. apply survival_step_within_pool; [|done].
    apply (Hfresh a). by left.
  - split; [done|]. split.
    + intros b Hb. apply elem_of_cons in Hb as [->|Hb]; [|by apply I2].
      apply I3. cbn [fst]. apply Hk. by left.
    + intros k Hs. apply I3. cbn [fst]. apply Hk. by right.
Qed.

Lemma share_update_total (add : Q → Q) (row rem : resources) :
  (∀ r, is_Some (row !! r) ↔ is_Some (rem !! r)) →
  sum_values (map_imap (λ r v, Some (v + add (default 0 (rem !! r)))) row)
  + sum_values (map_imap (λ (_ : string) x, Some (x - add x)) rem)
  == sum_values row + sum_values rem.
Proof.
  intros Hdom.
  rewrite (sum_values_imap (λ r v, v + add (default 0 (rem !! r)))).
  rewrite (sum_values_imap (λ _ x, x - add x)).
  assert (E1 : list_total ((λ kv : string * Q, kv.2 + add (default 0 (rem !! kv.1)))
                             <$> map_to_list row)
               == sum_values row
                  + sum_values (map_imap (λ r (_ : Q),
                                  Some (add (default 0 (rem !! r)))) row)).
  { rewrite (sum_values_imap (λ r _, add (default 0 (rem !! r)))).
    rewrite sum_values_list.
    rewrite <- (list_total_fmap_plus (λ kv : string * Q, kv.2)).
    reflexivity. }
  assert (E2 : list_total ((λ kv : string * Q, kv.2 - add kv.2) <$> map_to_list rem)
               == sum_values rem
                  - sum_values (map_imap (λ (_ : string) x, Some (add x)) rem)).
  { rewrite (sum_values_imap (λ _ x, add x)).
    rewrite sum_values_list.
    assert (E : list_total ((map_to_list rem).*2)
                == list_total ((λ kv : string * Q, kv.2 - add kv.2) <$> map_to_list rem)
                   + list_total ((λ kv : string * Q, add kv.2) <$> map_to_list rem)).
    { rewrite <- list_total_fmap_plus. apply list_total_fmap_ext.
      intros kv _. cbv beta. ring. }
    rewrite E. ring. }
  assert (E3 : map_imap (λ r (_ : Q), Some (add (default 0 (rem !! r)))) row
               = map_imap (λ (_ : string) x, Some (add x)) rem).
  { apply map_eq. intros r. rewrite !map_lookup_imap.
    pose proof (Hdom r) as Hr.
    destruct (row !! r) as [v|], (rem !! r) as [x|]; cbn; try done.
    - destruct Hr as [Hr _]. by destruct Hr.
    - destruct Hr as [_ Hr]. by destruct Hr. }
  rewrite E1, E2, E3. ring.
Qed.

Lemma share_step_within_pool (pool : Q) (ratios : gmap Z (option Q))
    (st st' : allocation * resources) (a : agent) :
  within_pool pool st → is_Some (st.1 !! id a) →
  altruistic_share_step ratios (Ok st) a = Ok st' →
  within_pool pool st' ∧ (∀ k, is_Some (st.1 !! k) → is_Some (st'.1 !! k)).
Proof.
  destruct st as [d rem]. intros (Htot & Hpos & Hdom) [row Hrow] Hrun.
  cbn [fst snd] in *. unfold altruistic_share_step in Hrun.
  cbn [mbind result_bind fst snd] in Hrun.
  case_bool_decide as Hall; [by injection Hrun as <-|].
  destruct (sum_ratios ratios) as [total|], (default None (ratios !! id a))
    as [dependency_ratio|]; try discriminate; [|by injection Hrun as <-].
  destruct (Qeq_bool total 0); [discriminate|]. injection Hrun as <-.
  rewrite Hrow. change (default ∅ (Some row)) with row.
  unfold within_pool. cbn [fst snd]. split; [split; [|split]|].
  - rewrite (total_allocated_replace d (id a) row) by done.
    pose proof (share_update_total
                  (λ rem0, if Qle_bool rem0 0 then 0
                           else py_min (rem0 * (dependency_ratio / total)) rem0)
                  row rem (Hdom (id a) row Hrow)) as U.
    cbv beta in U. lra.
  - intros r v. rewrite map_lookup_imap.
    destruct (rem !! r) as [x|] eqn:Hx; [|done]. cbn. intros [= <-].
    specialize (Hpos r x Hx).
    destruct (Qle_bool x 0); [lra|].
    pose proof (py_min_le_r (x * (dependency_ratio / total)) x). lra.
  - intros k row' Hk r. rewrite map_lookup_imap.
    assert (Hrem : ∀ f : Q → Q, is_Some (rem !! r ≫= λ rem0, Some (f rem0))
                   ↔ is_Some (rem !! r)).
    { intros f. destruct (rem !! r); cbn; split; intros [? ?]; by eauto. }
    rewrite Hrem. destruct (decide (k = id a)) as [->|Hne].
    + rewrite lookup_insert_eq in Hk. injection Hk as <-. rewrite map_lookup_imap.
      rewrite <- (Hdom (id a) row Hrow r).
      destruct (row !! r); cbn; split; intros [? ?]; by eauto.
    + rewrite lookup_insert_ne in Hk by done. by apply (Hdom k row').
  - intros k Hs. destruct (decide (k = id a)) as [->|Hne].
    + rewrite lookup_insert_eq. by eauto.
    + by rewrite lookup_insert_ne.
Qed.

Lemma share_step_raise (ratios : gmap Z (option Q)) (e : exn) (a : agent) :
  altruistic_share_step ratios (Raise e) a = Raise e.
Proof. done. Qed.

Lemma share_loop_within_pool (pool : Q) (ratios : gmap Z (option Q)) (l : list agent) :
  ∀ st st', within_pool pool st → (∀ a, a ∈ l → is_Some (st.1 !! id a)) →
  foldl (altruistic_share_step ratios) (Ok st) l = Ok st' →
  within_pool pool st'.
Proof.
  induction l as [|a l IH]; intros st st' Hinv Hkeys Hrun; cbn [foldl] in Hrun.
  { by injection Hrun as <-. }
  destruct (altruistic_share_step ratios (Ok st) a) as [st1|e] eqn:E.
  2:{ rewrite foldl_raise in Hrun by (intros; apply share_step_raise). discriminate. }
  destruct (share_step_within_pool pool ratios st st1 a) as [I1 I2];
    [done | apply Hkeys; by left | done |].
  apply (IH st1 st'); [done | | done].
  intros b Hb. apply I2, Hkeys. by right.
Qed.

Lemma dependency_ratios_from {A} (f : agent → A) (l : list agent) :
  ∀ (m : gmap Z A) (k : Z) (v : A),
    foldl (λ m a, <[id a := f a]> m) m l !! k = Some v →
    m !! k = Some v ∨ ∃ b, b ∈ l ∧ id b = k ∧ v = f b.
Proof.
  induction l as [|a l IH]; intros m k v H; cbn [foldl] in H; [by left|].
  apply IH in H as [H|(b & Hb & Hk & Hv)].
  - destruct (decide (id a = k)) as [E|Hne].
    + rewrite <- E, lookup_insert_eq in H. injection H as <-.
      right. exists a. split; [by left | done].
    + rewrite lookup_insert_ne in H by done. by left.
  - right. exists b. split; [by right | done].
Qed.

Lemma dependency_ratios_positive (agents : list agent) (k : Z) (v : option Q) :
  (∀ a, a ∈ agents → (0 < labor_force a)%Z ∧ (0 < members a)%Z) →
  dependency_ratios agents !! k = Some v → ∃ q, v = Some q ∧ 0 < q.
Proof.
  intros Hpos H. unfold dependency_ratios in H.
  apply dependency_ratios_from in H as [H|(b & Hb & _ & ->)];
    [by rewrite lookup_empty in H|].
  destruct (Hpos b Hb) as [HL HM]. unfold dependency_ratio.
  destruct (Z.ltb_spec 0 (labor_force b)) as [_|?]; [|lia].
  eexists. split; [done|].
  assert (0 < inject_Z (labor_force b)).
  { change 0 with (inject_Z 0). by rewrite <- Zlt_Qlt. }
  assert (0 < inject_Z (members b)).
  { change 0 with (inject_Z 0). by rewrite <- Zlt_Qlt. }
  by apply Qlt_shift_div_l; [|lra].
Qed.

Lemma dependency_ratios_listed (agents : list agent) (a : agent) :
  a ∈ agents → is_Some (dependency_ratios agents !! id a).
Proof.
  intros Ha. unfold dependency_ratios.
  assert (G : ∀ l (m : gmap Z (option Q)),
            a ∈ l ∨ is_Some (m !! id a) →
            is_Some (foldl (λ m a, <[id a := dependency_ratio a]> m) m l !! id a)).
  { induction l as [|b l IH]; intros m H; cbn [foldl].
    - destruct H as [H|H]; [by apply elem_of_nil in H | done].
    - apply IH. destruct H as [H|H].
      + apply elem_of_cons in H as [->|H]; [|by left].
        right. rewrite lookup_insert_eq. by eexists.
      + destruct (decide (id b = id a)) as [E|Hne].
        * right. rewrite E, lookup_insert_eq. by eexists.
        * right. by rewrite lookup_insert_ne. }
  apply G. by left.
Qed.

Lemma sum_ratios_positive (ratios : gmap Z (option Q)) :
  (∀ k v, ratios !! k = Some v → ∃ q, v = Some q ∧ 0 < q) →
  ∃ total, sum_ratios ratios = Some total ∧ (ratios ≠ ∅ → 0 < total).
Proof.
  intros H.
  assert (G : ∃ total, sum_ratios ratios = Some total ∧ 0 <= total
                       ∧ (ratios ≠ ∅ → 0 < total)).
  { unfold sum_ratios. revert H.
    apply (map_fold_weak_ind
             (λ (acc : option Q) (m : gmap Z (option Q)),
                (∀ k v, m !! k = Some v → ∃ q, v = Some q ∧ 0 < q) →
                ∃ total, acc = Some total ∧ 0 <= total ∧ (m ≠ ∅ → 0 < total))).
    - intros _. exists 0. split; [done|]. split; [lra | done].
    - intros k v m acc Hfresh IH Hall.
      destruct IH as (total & -> & Hge & _).
      { intros k' v' Hk'. apply (Hall k' v').
        rewrite lookup_insert_ne; [done|]. intros ->. congruence. }
      destruct (Hall k v) as (q & -> & Hq); [by rewrite lookup_insert_eq|].
      exists (total + q). cbn. split; [done|]. split; [lra | intros _; lra]. }
  destruct G as (total & E & _ & Hpos). by exists total.
Qed.

(** With members and labor force in every household, a step of the second
    loop goes through. *)
Lemma share_step_returns (agents : list agent) (st : allocation * resources) (a : agent) :
  (∀ a, a ∈ agents → (0 < labor_force a)%Z ∧ (0 < members a)%Z) →
  a ∈ agents →
  ∃ st', altruistic_share_step (dependency_ratios agents) (Ok st) a = Ok st'.
Proof.
  intros Hpos Ha. unfold altruistic_share_step. cbn [mbind result_bind].
  case_bool_decide; [by eexists|].
  destruct (sum_ratios_positive (dependency_ratios agents)) as (total & -> & Htotal).
  { intros k v. by apply dependency_ratios_positive. }
  destruct (dependency_ratios_listed agents a Ha) as [v Hv].
  destruct (dependency_ratios_positive agents (id a) v Hpos Hv) as (q & -> & _).
  rewrite Hv. cbn [default from_option]. unfold Datatypes.id.
  rewrite Qeq_bool_false; [by eexists|].
  assert (0 < total); [|lra].
  apply Htotal. intros E. by rewrite E, lookup_empty in Hv.
Qed.

Lemma share_loop_returns (agents : list agent) (l : list agent) :
  (∀ a, a ∈ agents → (0 < labor_force a)%Z ∧ (0 < members a)%Z) →
  (∀ a, a ∈ l → a ∈ agents) →
  ∀ st, ∃ st', foldl (altruistic_share_step (dependency_ratios agents)) (Ok st) l = Ok st'.
Proof.
  intros Hpos. induction l as [|a l IH]; intros Hl st; cbn [foldl]; [by eexists|].
  destruct (share_step_returns agents st a Hpos) as [st1 ->]; [apply Hl; by left|].
  apply IH. intros b Hb. apply Hl. by right.
Qed.

(** X28.  The altruistic strategy, for households that all have a labor
    force (so that no dependency ratio is infinite), distinct agent ids
    and a pool without negative amounts: the amounts of an allocation it
    returns add up to the pool total at most, whatever the survival needs
    are; and it does return an allocation when every household has
    members. *)
Theorem altruistic_stays_within_pool (total_resources : resources) (agents : list agent)
    (survival_needs : allocation) :
  NoDup (id <$> agents) →
  (∀ r v, total_resources !! r = Some v → 0 <= v) →
  (∀ a, a ∈ agents → (0 < labor_force a)%Z) →
  (∀ out, altruistic_distribution total_resources agents survival_needs = Ok out →
     total_allocated out <= pool_total total_resources)
  ∧ ((∀ a, a ∈ agents → (0 < members a)%Z) →
     ∃ out, altruistic_distribution total_resources agents survival_needs = Ok out).
Proof.
  intros Hnd Hpos Hlabor. unfold altruistic_distribution. cbv zeta.
  set (ratios := dependency_ratios agents).
  set (sorted_agents := sorted_by _ agents).
  assert (Hperm : sorted_agents ≡ₚ agents) by apply sorted_by_perm.
  assert (Hnd' : NoDup (id <$> sorted_agents)) by (by rewrite Hperm).
  split.
  - intros out Hrun.
    destruct (survival_loop_within_pool (pool_total total_resources) survival_needs
                sorted_agents (∅, total_resources)) as (I1 & I2 & _); [done | | |].
    { intros a _. apply lookup_empty. }
    { split; [|split]; cbn [fst snd].
      - rewrite total_allocated_empty. unfold pool_total. lra.
      - done.
      - intros k row Hk. by rewrite lookup_empty in Hk. }
    destruct (foldl (altruistic_share_step ratios) _ sorted_agents) as [st'|e] eqn:E;
      cbn [mbind result_bind] in Hrun; [|discriminate].
    injection Hrun as <-.
    destruct (share_loop_within_pool (pool_total total_resources) ratios sorted_agents _ st'
                I1 I2 E) as (Htot & Hleft & _).
    pose proof (sum_values_nonneg st'.2 Hleft). lra.
  - intros Hmembers.
    destruct (share_loop_returns agents sorted_agents) with
      (st := foldl (altruistic_survival_step survival_needs) (∅, total_resources)
               sorted_agents) as [st' E].
    + intros a Ha. split; [by apply Hlabor | by apply Hmembers].
    + intros a Ha. by rewrite <- Hperm.
    + fold ratios in E. rewrite E. cbn [mbind result_bind]. by eexists.
Qed.

Lemma altruistic_stays_within_pool_witness :
  ∃ out, altruistic_distribution {["grain" := 100]} two_agents two_needs = Ok out
         ∧ total_allocated out <= pool_total {["grain" := 100]}.
Proof.
  assert (Hnd : NoDup (id <$> two_agents)) by compute_done.
  assert (Hpool : ∀ (r : string) (v : Q),
            ({["grain" := 100]} : resources) !! r = Some v → 0 <= v).
  { intros r v Hv. apply lookup_singleton_Some in Hv as [_ <-]. lra. }
  assert (Hlabor : ∀ a, a ∈ two_agents → (0 < labor_force a)%Z).
  { intros a Ha. each_listed Ha ltac:(cbn; lia). }
  assert (Hmembers : ∀ a, a ∈ two_agents → (0 < members a)%Z).
  { intros a Ha. each_listed Ha ltac:(cbn; lia). }
  destruct (altruistic_stays_within_pool {["grain" := 100]} two_agents two_needs
              Hnd Hpool Hlabor) as [Hbound Hreturns].
  destruct (Hreturns Hmembers) as [out Hout].
  exists out. split; [exact Hout | exact (Hbound out Hout)].
Defined.

Lemma resource_output_nothing_left (labor_force : Z) (se available : Q) :
  (0 ≤ labor_force)%Z → available == 0 → resource_output labor_force se available = 5.
Proof.
  intros HL Hav. unfold resource_output.
  assert (HLq : 0 <= inject_Z labor_force).
  { change 0 with (inject_Z 0). rewrite <- Zle_Qle. lia. }
  assert (E : Qeq_bool (py_min available (inject_Z labor_force * 5)) 0 = true).
  { apply Qeq_bool_iff. unfold py_min.
    destruct (Qlt_bool (inject_Z labor_force * 5) available) eqn:EE; [|done].
    apply Qlt_bool_true in EE. lra. }
  by rewrite E.
Qed.

(** X29.  A round in which no household holds more of a resource than its
    survival need, the agent ids being distinct and no labor force
    negative: every household yields the base output only, so the next
    pool holds exactly 5 units per household, whatever the labor forces
    and the scores are. *)
Theorem next_pool_under_scarcity (self : ResourceGenerator)
    (agents : list agent) (family_resources family_needs : allocation)
    (fairness_score : Z → option Q) (distribution_method : option string)
    (resource_name : string) :
  NoDup (id <$> agents) →
  (∀ a, a ∈ agents → (0 ≤ labor_force a)%Z) →
  (∀ a, a ∈ agents →
     ∃ held, default ∅ (family_resources !! id a) !! resource_name = Some held
             ∧ held <= default 0 (default ∅ (family_needs !! id a) !! resource_name)) →
  is_Some (current_resources self !! resource_name) →
  ∃ amount,
    (generate_next_round_resources self
       (round_productions agents family_resources family_needs fairness_score
          distribution_method)).1 !! resource_name = Some amount
    ∧ amount == 5 * inject_Z (Z.of_nat (length agents)).
Proof.
  intros Hnd HL Hheld [current Hcur].
  rewrite next_round_lookup, Hcur. cbn [fmap option_fmap option_map].
  eexists. split; [done|].
  rewrite total_production_lookup. unfold round_productions. cbv zeta.
  rewrite (column_total_rows
             (λ a, calculate_production (default ∅ (family_resources !! id a))
                     (default ∅ (family_needs !! id a)) (labor_force a)
                     (fairness_score (id a)) distribution_method)) by done.
  rewrite (list_total_fmap_ext _ (λ _, 5)).
  - rewrite list_total_fmap_const. ring.
  - intros a Ha. rewrite calculate_production_lookup.
    destruct (Hheld a Ha) as (held & -> & Hle).
    cbn [fmap option_fmap option_map].
    change (default 0 (Some ?x)) with x.
    rewrite resource_output_nothing_left; [reflexivity | by apply HL |].
    unfold py_max.
    destruct (Qlt_bool 0 _) eqn:E; [|reflexivity].
    apply Qlt_bool_true in E. lra.
Qed.

Lemma next_pool_under_scarcity_witness :
  ∃ amount,
    (generate_next_round_resources (new_ResourceGenerator 3 100)
       (round_productions three_agents three_needs three_needs (λ _, Some 4)
          (Some "equal"))).1 !! "grain" = Some amount
    ∧ amount == 5 * inject_Z (Z.of_nat (length three_agents)).
Proof.
  apply (next_pool_under_scarcity (new_ResourceGenerator 3 100) three_agents
           three_needs three_needs (λ _, Some 4) (Some "equal") "grain").
  - compute_done.
  - intros a Ha. each_listed Ha ltac:(cbn; lia).
  - intros a Ha.
    each_listed Ha ltac:(eexists; split; [by vm_compute | by vm_compute]).
  - vm_compute. by eexists.
Defined.
